(** * Futures back-testing engine and parameter-search harness

    A shallow embedding of the trade simulator
    ([services/futures_backtest_service.py]), the optimisation score
    ([services/optimization/backtest_runner.py]), the signal generator
    ([services/macd_sma_strategy.py]) and the completion handler of the
    multi-symbol scheduler ([services/per_coin_optimizer.py]).

    Numbers.  Python floats are read as exact rationals ([Q]); rounding
    error of IEEE arithmetic is outside the model.  A division whose
    divisor is zero raises in Python: the simulator's divisions go through
    [pdiv] and the enclosing function returns [None] for the raised
    exception.  In the pandas/numpy pipeline of the strategy a missing
    value (NaN) is [None] in a column of type [list (option Q)]. *)

From Stdlib Require Import ZArith QArith Qminmax Qround Qabs Qpower Lqa String.
From stdpp Require Import base option list strings gmap pretty sorting.

Local Open Scope Q_scope.

(** ** Python arithmetic on rationals *)

Module Py.

(** [a < b] on floats. *)
Definition Qltb (a b : Q) : bool := negb (Qle_bool b a).

(** Built-in [max(a, b)]: the first argument unless the second is larger. *)
Definition max (a b : Q) : Q := if Qltb a b then b else a.

(** Built-in [min(a, b)]: the first argument unless the second is smaller. *)
Definition min (a b : Q) : Q := if Qltb b a then b else a.

(** [x / y], raising [ZeroDivisionError] (here [None]) when [y] is zero. *)
Definition pdiv (x y : Q) : option Q :=
  if Qeq_bool y 0 then None else Some (x / y).

(** Nearest integer, ties to the even one. *)
Definition round_half_even (x : Q) : Z :=
  let f := Qfloor x in
  let r := x - inject_Z f in
  if Qltb r (1 # 2) then f
  else if Qltb (1 # 2) r then (f + 1)%Z
  else if Z.even f then f else (f + 1)%Z.

(** Built-in [round(x, 2)]. *)
Definition round2 (x : Q) : Q := inject_Z (round_half_even (x * 100)) / 100.

End Py.

(** [lra] after turning the divisions by 100 and 50 into products. *)
Ltac qlra :=
  unfold Qdiv in *;
  change (/ 100) with (1 # 100) in *;
  change (/ 50) with (1 # 50) in *;
  lra.


(** ** The trade simulator: [FuturesBacktestService] *)

Module FuturesBacktest.
Import Py.

(** One entry of [position['tp_levels']]:
    [{'level': i, 'price': .., 'percent': .., 'hit': False}]. *)
Record tp_level := TpLevel {
  level : Z;
  tp_price : Q;
  tp_percent : Q;
  hit : bool
}.

(** The [position] dictionary of [run_backtest]. *)
Record position := Position {
  size : Q;
  entry_price : Q;
  entry_time : option Z;
  direction : Z;
  remaining_size : Q;
  tps_hit : list Z;
  trailing_stop : Q;
  tp_levels : list tp_level;
  sl_level : Q
}.

(** The attributes of the service object set by [__init__]. *)
Record service := Service {
  commission_rate : Q;
  tp_base_percent : Q;
  sl_percent : Q;
  max_tps : Z;
  tp_close_percent : Q
}.

(** The optional [tp_sl_params] dictionary; a missing key is [None]. *)
Record tp_sl_params := TpSlParams {
  tp_base : option Q;
  stop_loss : option Q;
  param_max_tps : option Z;
  tp_close : option Q
}.

(** One row of the [signals] frame, as [iterrows] yields it. *)
Record bar := Bar {
  timestamp : Z;
  price : Q;
  signal : Z
}.

(** One element of [results['trades']]. *)
Record trade := Trade {
  trade_entry_time : option Z;
  trade_exit_time : Z;
  trade_entry_price : Q;
  trade_exit_price : Q;
  trade_position : string;
  trade_pnl : Q;
  trade_commission : Q;
  exit_reason : string;
  size_closed : Q
}.

(** One element of [results['equity_curve']]. *)
Record equity_row := EquityRow {
  row_timestamp : Z;
  row_balance : Q;
  unrealized_pnl : Q;
  equity : Q
}.

(** One element of [results['tp_sl_levels']].  Its [tp_levels] is the
    very list object held by the position opened on that bar. *)
Record chart_levels := ChartLevels {
  chart_timestamp : Z;
  chart_entry_price : Q;
  chart_direction : Z;
  chart_tp_levels : list tp_level;
  chart_sl_level : Q
}.

(** The local variables of the loop of [run_backtest]. *)
Record sim := Sim {
  balance : Q;
  pos : position;
  total_trades : Z;
  winning_trades : Z;
  total_pnl : Q;
  max_drawdown : Q;
  peak_balance : Q;
  trades : list trade;
  equity_curve : list equity_row;
  tp_sl_levels : list chart_levels
}.

(** [results['statistics']]. *)
Record statistics := Statistics {
  stat_initial_balance : Q;
  stat_final_balance : Q;
  stat_total_return : Q;
  stat_total_pnl : Q;
  stat_total_trades : Z;
  stat_winning_trades : Z;
  stat_win_rate : Q;
  stat_max_drawdown : Q;
  stat_leverage_used : Q
}.

Record results := Results {
  res_trades : list trade;
  res_equity_curve : list equity_row;
  res_statistics : statistics;
  res_tp_sl_levels : list chart_levels
}.

(** The flat sentinel the position is reset to. *)
Definition flat : position :=
  {| size := 0; entry_price := 0; entry_time := None; direction := 0;
     remaining_size := 0; tps_hit := []; trailing_stop := 0;
     tp_levels := []; sl_level := 0 |}.

(** [position['size'] != 0]. *)
Definition is_open (p : position) : bool := negb (Qeq_bool (size p) 0).

(** Truth value of the dictionary: an empty one is false. *)
Definition nonempty (ps : tp_sl_params) : bool :=
  match tp_base ps, stop_loss ps, param_max_tps ps, tp_close ps with
  | None, None, None, None => false
  | _, _, _, _ => true
  end.

(** [__init__]; [if tp_sl_params:] fails on [None] and on [{}]. *)
Definition init (params : option tp_sl_params) : service :=
  match params with
  | Some ps =>
      if nonempty ps then
        {| commission_rate := 0.0004;
           tp_base_percent := default 0.75 (tp_base ps);
           sl_percent := default 1.50 (stop_loss ps);
           max_tps := default 10%Z (param_max_tps ps);
           tp_close_percent := default 25 (tp_close ps) / 100 |}
      else
        {| commission_rate := 0.0004; tp_base_percent := 0.5;
           sl_percent := 1.25; max_tps := 10; tp_close_percent := 0.25 |}
  | None =>
      {| commission_rate := 0.0004; tp_base_percent := 0.5;
         sl_percent := 1.25; max_tps := 10; tp_close_percent := 0.25 |}
  end.

(** The parameter update at the head of [run_backtest]. *)
Definition update_params (svc : service) (params : option tp_sl_params)
  : service :=
  match params with
  | Some ps =>
      if nonempty ps then
        {| commission_rate := commission_rate svc;
           tp_base_percent := default (tp_base_percent svc) (tp_base ps);
           sl_percent := default (sl_percent svc) (stop_loss ps);
           max_tps := default (max_tps svc) (param_max_tps ps);
           tp_close_percent :=
             default (tp_close_percent svc * 100) (tp_close ps) / 100 |}
      else svc
  | None => svc
  end.

Section Service.
Variable svc : service.

(** [_get_fixed_sl_level]. *)
Definition _get_fixed_sl_level (entry : Q) (dir : Z) : Q :=
  if (dir =? 1)%Z then entry * (1 - sl_percent svc / 100)
  else entry * (1 + sl_percent svc / 100).

(** [range(1, max_tps + 1)] as [first, first + 1, ...], [n] values. *)
Fixpoint level_range (first : Z) (n : nat) : list Z :=
  match n with
  | O => []
  | S n' => first :: level_range (first + 1) n'
  end.

(** [_calculate_tp_sl_levels]. *)
Definition _calculate_tp_sl_levels (entry : Q) (dir : Z)
  : list tp_level * Q :=
  let mk (i : Z) :=
    let pct := tp_base_percent svc * inject_Z i in
    {| level := i;
       tp_price := if (dir =? 1)%Z then entry * (1 + pct / 100)
                   else entry * (1 - pct / 100);
       tp_percent := pct;
       hit := false |} in
  (map mk (level_range 1 (Z.to_nat (max_tps svc))),
   if (dir =? 1)%Z then entry * (1 - sl_percent svc / 100)
   else entry * (1 + sl_percent svc / 100)).

(** The condition of the stop-loss test of [_check_exit_conditions]. *)
Definition sl_hit (p : position) (current_price : Q) : bool :=
  let fixed_sl := _get_fixed_sl_level (entry_price p) (direction p) in
  ((direction p =? 1)%Z && Qle_bool current_price fixed_sl)
  || ((direction p =? -1)%Z && Qle_bool fixed_sl current_price).

(** The local [effective_trailing_stop] of [_check_exit_conditions]. *)
Definition effective_trailing_stop (p : position) : Q :=
  let fixed_sl := _get_fixed_sl_level (entry_price p) (direction p) in
  if (direction p =? 1)%Z then max (trailing_stop p) fixed_sl
  else min (trailing_stop p) fixed_sl.

(** The trailing-stop test, entered when [trailing_stop > 0]. *)
Definition trailing_hit (p : position) (current_price : Q) : bool :=
  Qltb 0 (trailing_stop p)
  && (if (direction p =? 1)%Z
      then Qle_bool current_price (effective_trailing_stop p)
      else Qle_bool (effective_trailing_stop p) current_price).

(** The test of the take-profit loop on one level. *)
Definition tp_crossed (dir : Z) (current_price : Q) (tp : tp_level)
  : bool :=
  negb (hit tp)
  && (((dir =? 1)%Z && Qle_bool (tp_price tp) current_price)
      || ((dir =? -1)%Z && Qle_bool current_price (tp_price tp))).

Definition mark_hit (tp : tp_level) : tp_level :=
  {| level := level tp; tp_price := tp_price tp;
     tp_percent := tp_percent tp; hit := true |}.

(** The take-profit loop: the level that fires, and the list with
    that level's [hit] flag set. *)
Fixpoint scan_tp_levels (dir : Z) (current_price : Q)
  (tps : list tp_level) : option (Z * list tp_level) :=
  match tps with
  | [] => None
  | tp :: rest =>
      if tp_crossed dir current_price tp
      then Some (level tp, mark_hit tp :: rest)
      else match scan_tp_levels dir current_price rest with
           | Some (l, rest') => Some (l, tp :: rest')
           | None => None
           end
  end.

(** [_check_exit_conditions]: the returned triple and the position
    after the in-place updates of the take-profit branch. *)
Definition _check_exit_conditions (p : position) (current_price : Q)
  : bool * string * Q * position :=
  if sl_hit p current_price then (true, "Stop Loss"%string, 1, p)
  else if trailing_hit p current_price
  then (true, "Trailing Stop"%string, 1, p)
  else match scan_tp_levels (direction p) current_price (tp_levels p) with
       | Some (l, tps') =>
           (true, ("TP" +:+ pretty l)%string, tp_close_percent svc,
            {| size := size p; entry_price := entry_price p;
               entry_time := entry_time p; direction := direction p;
               remaining_size := remaining_size p;
               tps_hit := tps_hit p ++ [l];
               trailing_stop := trailing_stop p;
               tp_levels := tps'; sl_level := sl_level p |})
       | None => (false, EmptyString, 0, p)
       end.

(** [_calculate_trailing_stop]. *)
Definition _calculate_trailing_stop (p : position) (current_price : Q)
  : Q :=
  let tps_hit_count := Z.of_nat (length (tps_hit p)) in
  let fixed_sl := _get_fixed_sl_level (entry_price p) (direction p) in
  if (tps_hit_count =? 1)%Z then
    if (direction p =? 1)%Z then max (entry_price p) fixed_sl
    else min (entry_price p) fixed_sl
  else if (2 <=? tps_hit_count)%Z then
    let prev_tp_percent :=
      tp_base_percent svc * inject_Z (tps_hit_count - 1) in
    if (direction p =? 1)%Z
    then max (entry_price p * (1 + prev_tp_percent / 100)) fixed_sl
    else min (entry_price p * (1 - prev_tp_percent / 100)) fixed_sl
  else 0.

(** [_close_position]: net PnL and commission. *)
Definition _close_position (p : position)
  (exit_price close_percent leverage : Q) : option (Q * Q) :=
  let size_to_close := remaining_size p * close_percent in
  change ← pdiv (if (direction p =? 1)%Z
                 then exit_price - entry_price p
                 else entry_price p - exit_price) (entry_price p);
  let price_change_percent := change * 100 in
  let position_value := size_to_close * entry_price p in
  let pnl := (price_change_percent / 100) * position_value * leverage in
  let commission := position_value * commission_rate svc * 2 in
  Some (pnl - commission, commission).

End Service.

Section Run.
Variable svc : service.
Variables leverage margin_ratio : Q.


(** The in-place [tp['hit'] = True] is seen through the chart entry of
    the open position, the last one appended. *)
Definition alias_tp_levels (tps : list tp_level)
  (cs : list chart_levels) : list chart_levels :=
  match reverse cs with
  | [] => []
  | c :: before =>
      reverse before ++
      [{| chart_timestamp := chart_timestamp c;
          chart_entry_price := chart_entry_price c;
          chart_direction := chart_direction c;
          chart_tp_levels := tps;
          chart_sl_level := chart_sl_level c |}]
  end.

(** The position after a close was recorded: lines 101-116. *)
Definition after_close (p : position) (close_reason : string)
  (close_percent current_price : Q) : position :=
  if Qltb close_percent 1 then
    let p1 :=
      {| size := size p; entry_price := entry_price p;
         entry_time := entry_time p; direction := direction p;
         remaining_size := remaining_size p * (1 - close_percent);
         tps_hit := tps_hit p; trailing_stop := trailing_stop p;
         tp_levels := tp_levels p; sl_level := sl_level p |} in
    if String.prefix "TP" close_reason then
      {| size := size p1; entry_price := entry_price p1;
         entry_time := entry_time p1; direction := direction p1;
         remaining_size := remaining_size p1;
         tps_hit := tps_hit p1;
         trailing_stop := _calculate_trailing_stop svc p1 current_price;
         tp_levels := tp_levels p1; sl_level := sl_level p1 |}
    else p1
  else flat.

(** The first block of the loop body: "Close existing position if
    opposite signal or TP/SL hit" (lines 66-116). *)
Definition exit_phase (b : bar) (st : sim) : option sim :=
  if is_open (pos st) then
    let '(should_close, close_reason, close_percent, p) :=
      _check_exit_conditions svc (pos st) (price b) in
    if should_close then
      '(pnl, commission) ←
        _close_position svc p (price b) close_percent leverage;
      Some
        {| balance := balance st + pnl;
           pos := after_close p close_reason close_percent (price b);
           total_trades := total_trades st + 1;
           winning_trades :=
             if Qltb 0 pnl then winning_trades st + 1
             else winning_trades st;
           total_pnl := total_pnl st + pnl;
           max_drawdown := max_drawdown st;
           peak_balance := peak_balance st;
           trades :=
             trades st ++
             [{| trade_entry_time := entry_time p;
                 trade_exit_time := timestamp b;
                 trade_entry_price := entry_price p;
                 trade_exit_price := price b;
                 trade_position :=
                   if (direction p =? 1)%Z then "Long" else "Short";
                 trade_pnl := pnl;
                 trade_commission := commission;
                 exit_reason := close_reason;
                 size_closed := close_percent |}];
           equity_curve := equity_curve st;
           tp_sl_levels :=
             if String.prefix "TP" close_reason
             then alias_tp_levels (tp_levels p) (tp_sl_levels st)
             else tp_sl_levels st |}
    else Some st
  else Some st.

(** The second block: "Open new position if signal and no existing
    position" (lines 118-150). *)
Definition entry_phase (b : bar) (st : sim) : option sim :=
  if negb (signal b =? 0)%Z && negb (is_open (pos st)) then
    let margin_amount := balance st * (margin_ratio / 100) in
    let position_value := margin_amount * leverage in
    position_size ← pdiv position_value (price b);
    if Qle_bool margin_amount (balance st) then
      let '(tps, sl) := _calculate_tp_sl_levels svc (price b) (signal b) in
      Some
        {| balance := balance st;
           pos := {| size := position_size; entry_price := price b;
                     entry_time := Some (timestamp b);
                     direction := signal b;
                     remaining_size := position_size;
                     tps_hit := []; trailing_stop := 0;
                     tp_levels := tps; sl_level := sl |};
           total_trades := total_trades st;
           winning_trades := winning_trades st;
           total_pnl := total_pnl st;
           max_drawdown := max_drawdown st;
           peak_balance := peak_balance st;
           trades := trades st;
           equity_curve := equity_curve st;
           tp_sl_levels :=
             tp_sl_levels st ++
             [{| chart_timestamp := timestamp b;
                 chart_entry_price := price b;
                 chart_direction := signal b;
                 chart_tp_levels := tps;
                 chart_sl_level := sl |}] |}
    else Some st
  else Some st.

(** "Calculate unrealized PnL" (lines 152-159). *)
Definition unrealized (b : bar) (st : sim) : option Q :=
  if is_open (pos st) then
    let price_change := price b - entry_price (pos st) in
    let price_change :=
      if (direction (pos st) =? -1)%Z then - price_change
      else price_change in
    r ← pdiv price_change (entry_price (pos st));
    Some (r * 100 * leverage * (balance st * margin_ratio / 100) / 100)
  else Some 0.

(** The last block: equity row and drawdown (lines 152-174). *)
Definition equity_phase (b : bar) (st : sim) : option sim :=
  u ← unrealized b st;
  let current_equity := balance st + u in
  let curve :=
    equity_curve st ++
    [{| row_timestamp := timestamp b; row_balance := balance st;
        unrealized_pnl := u; equity := current_equity |}] in
  if Qltb (peak_balance st) current_equity then
    Some
      {| balance := balance st; pos := pos st;
         total_trades := total_trades st;
         winning_trades := winning_trades st;
         total_pnl := total_pnl st;
         max_drawdown := max_drawdown st;
         peak_balance := current_equity;
         trades := trades st; equity_curve := curve;
         tp_sl_levels := tp_sl_levels st |}
  else
    drawdown ← pdiv (peak_balance st - current_equity) (peak_balance st);
    Some
      {| balance := balance st; pos := pos st;
         total_trades := total_trades st;
         winning_trades := winning_trades st;
         total_pnl := total_pnl st;
         max_drawdown := max (max_drawdown st) drawdown;
         peak_balance := peak_balance st;
         trades := trades st; equity_curve := curve;
         tp_sl_levels := tp_sl_levels st |}.

(** One iteration of [for timestamp, row in signals.iterrows()]. *)
Definition step (b : bar) (st : sim) : option sim :=
  st1 ← exit_phase b st;
  st2 ← entry_phase b st1;
  equity_phase b st2.

(** The loop, bars in chronological order. *)
Fixpoint run_bars (bars : list bar) (st : sim) : option sim :=
  match bars with
  | [] => Some st
  | b :: rest => st' ← step b st; run_bars rest st'
  end.

Definition initial (initial_balance : Q) : sim :=
  {| balance := initial_balance; pos := flat; total_trades := 0;
     winning_trades := 0; total_pnl := 0; max_drawdown := 0;
     peak_balance := initial_balance; trades := [];
     equity_curve := []; tp_sl_levels := [] |}.

(** "Calculate statistics" (lines 176-197). *)
Definition make_statistics (initial_balance : Q) (st : sim)
  : option statistics :=
  win_rate ←
    (if (0 <? total_trades st)%Z
     then r ← pdiv (inject_Z (winning_trades st))
                   (inject_Z (total_trades st));
          Some (r * 100)
     else Some 0);
  ret ← pdiv (balance st - initial_balance) initial_balance;
  Some
    {| stat_initial_balance := initial_balance;
       stat_final_balance := balance st;
       stat_total_return := ret * 100;
       stat_total_pnl := total_pnl st;
       stat_total_trades := total_trades st;
       stat_winning_trades := winning_trades st;
       stat_win_rate := win_rate;
       stat_max_drawdown := max_drawdown st * 100;
       stat_leverage_used := leverage |}.

End Run.

(** [run_backtest]; [None] stands for the exception it re-raises. *)
Definition run_backtest (svc0 : service) (signals : list bar)
  (initial_balance leverage margin_ratio : Q)
  (params : option tp_sl_params) : option results :=
  let svc := update_params svc0 params in
  st ← run_bars svc leverage margin_ratio signals (initial initial_balance);
  stats ← make_statistics leverage initial_balance st;
  Some {| res_trades := trades st; res_equity_curve := equity_curve st;
          res_statistics := stats; res_tp_sl_levels := tp_sl_levels st |}.

End FuturesBacktest.

(** ** The optimisation score: [BacktestRunner] *)

Module BacktestRunner.
Import Py.

(** The values a statistics dictionary can hold. *)
Inductive pyval :=
| PNum (q : Q)
| PNone
| PStr (s : string).

Inductive exn :=
| KeyError (key : string)
| TypeError.

(** What a call does: return a value or propagate an exception. *)
Inductive outcome (A : Type) :=
| Returns (a : A)
| Raises (e : exn).
Arguments Returns {A} a.
Arguments Raises {A} e.

Definition bind {A B} (m : outcome A) (k : A -> outcome B) : outcome B :=
  match m with
  | Returns a => k a
  | Raises e => Raises e
  end.

Notation "'let*' x ':=' m 'in' k" := (bind m (fun x => k))
  (at level 10, x name, m at level 100, k at level 200).

(** [try: body except: return fallback]. *)
Definition try_except {A} (body : outcome A) (fallback : A) : outcome A :=
  match body with
  | Returns a => Returns a
  | Raises _ => Returns fallback
  end.

(** [stats[key]]. *)
Definition getitem (stats : gmap string pyval) (key : string)
  : outcome pyval :=
  match stats !! key with
  | Some v => Returns v
  | None => Raises (KeyError key)
  end.

(** The operand of an arithmetic operator must be a number. *)
Definition number (v : pyval) : outcome Q :=
  match v with
  | PNum q => Returns q
  | _ => Raises TypeError
  end.

(** The weighted sum of lines 123-134, before rounding. *)
Definition weighted_score (total_return win_rate max_drawdown total_trades : Q)
  : Q :=
  let return_score := min (total_return / 100) 5 in
  let win_rate_score := win_rate / 100 in
  let drawdown_penalty := max 0 (1 - max_drawdown / 50) in
  let trade_count_bonus := min (total_trades / 100) 1 in
  (return_score * 0.4 + win_rate_score * 0.3 + drawdown_penalty * 0.2
   + trade_count_bonus * 0.1) * 10.

(** The body of the [try] block of [_calculate_optimization_score]. *)
Definition score_body (stats : gmap string pyval) : outcome Q :=
  let* total_return := getitem stats "total_return" in
  let* win_rate := getitem stats "win_rate" in
  let* max_drawdown := getitem stats "max_drawdown" in
  let* total_trades := getitem stats "total_trades" in
  let* r := number total_return in
  let* w := number win_rate in
  let* d := number max_drawdown in
  let* t := number total_trades in
  Returns (round2 (weighted_score r w d t)).

(** [_calculate_optimization_score]. *)
Definition _calculate_optimization_score (stats : gmap string pyval)
  : outcome Q :=
  try_except (score_body stats) 0.

(** The entries of [results['statistics']] the score reads. *)
Definition stats_dict (s : FuturesBacktest.statistics) : gmap string pyval :=
  {[ "total_return"%string := PNum (FuturesBacktest.stat_total_return s);
     "win_rate"%string := PNum (FuturesBacktest.stat_win_rate s);
     "max_drawdown"%string := PNum (FuturesBacktest.stat_max_drawdown s);
     "total_trades"%string :=
       PNum (inject_Z (FuturesBacktest.stat_total_trades s));
     "total_pnl"%string := PNum (FuturesBacktest.stat_total_pnl s);
     "final_balance"%string :=
       PNum (FuturesBacktest.stat_final_balance s) ]}.

(** The four entries read, as numbers. *)
Definition has_numbers (stats : gmap string pyval)
  (total_return win_rate max_drawdown : Q) (total_trades : Z) : Prop :=
  stats !! "total_return"%string = Some (PNum total_return)
  /\ stats !! "win_rate"%string = Some (PNum win_rate)
  /\ stats !! "max_drawdown"%string = Some (PNum max_drawdown)
  /\ stats !! "total_trades"%string = Some (PNum (inject_Z total_trades)).

(** The score formula as the specification writes it. *)
Definition spec_score (total_return win_rate max_drawdown : Q)
  (total_trades : Z) : Q :=
  10 * (0.4 * min (total_return / 100) 5 + 0.3 * (win_rate / 100)
        + 0.2 * max 0 (1 - max_drawdown / 50)
        + 0.1 * min (inject_Z total_trades / 100) 1).

(** "The score equals the formula and lies in [0, 10]." *)
Definition score_is_formula_within_0_10 (stats : gmap string pyval)
  (total_return win_rate max_drawdown : Q) (total_trades : Z) : Prop :=
  exists q,
    _calculate_optimization_score stats = Returns q
    /\ q == spec_score total_return win_rate max_drawdown total_trades
    /\ 0 <= q /\ q <= 10.

(** "A statistics record with zero trades scores 0." *)
Definition zero_trades_score_zero (stats : gmap string pyval) : Prop :=
  stats !! "total_trades"%string = Some (PNum 0) ->
  exists q, _calculate_optimization_score stats = Returns q /\ q == 0.

End BacktestRunner.

(** ** The completion handler of the multi-symbol scheduler:
       [PerCoinOptimizer._process_symbols_in_batches] *)

Module PerCoinOptimizer.

(** The best-result dictionary of a symbol, as far as it is printed. *)
Record opt_result := OptResult {
  score : Q;
  total_return : Q
}.

(** What [future.result()] does. *)
Inductive future_outcome :=
| FutureRaised
| FutureReturned (success : bool) (result : option opt_result).

(** The line printed for a finished symbol. *)
Inductive log_line :=
| LogCompleted (symbol : string) (r : opt_result)
| LogCompletedButSaveFailed (symbol : string)
| LogOptimizationFailed (symbol : string)
| LogError (symbol : string).

(** A future that finished, with the answer
    [coin_settings_manager.save_optimization_result] gives for it. *)
Record completion := Completion {
  symbol : string;
  future : future_outcome;
  save_success : bool
}.

(** The attributes of the optimizer the handler touches. *)
Record scheduler := Scheduler {
  is_running : bool;
  best_results : gmap string opt_result;
  completed_symbols : list string;
  failed_symbols : list string;
  printed : list log_line
}.

Definition fail_with (line : log_line) (sym : string) (s : scheduler)
  : scheduler :=
  {| is_running := is_running s; best_results := best_results s;
     completed_symbols := completed_symbols s;
     failed_symbols := failed_symbols s ++ [sym];
     printed := printed s ++ [line] |}.

(** The body of [for future in as_completed(future_to_symbol)] after
    the running check (lines 551-574). *)
Definition handle_completion (c : completion) (s : scheduler) : scheduler :=
  match future c with
  | FutureReturned true (Some result) =>
      let s1 :=
        {| is_running := is_running s;
           best_results := <[symbol c := result]> (best_results s);
           completed_symbols := completed_symbols s;
           failed_symbols := failed_symbols s;
           printed := printed s |} in
      if save_success c then
        {| is_running := is_running s1; best_results := best_results s1;
           completed_symbols := completed_symbols s1 ++ [symbol c];
           failed_symbols := failed_symbols s1;
           printed := printed s1 ++ [LogCompleted (symbol c) result] |}
      else
        fail_with (LogCompletedButSaveFailed (symbol c)) (symbol c) s1
  | FutureReturned _ _ =>
      fail_with (LogOptimizationFailed (symbol c)) (symbol c) s
  | FutureRaised => fail_with (LogError (symbol c)) (symbol c) s
  end.

(** The loop over the finished futures of one batch; it stops at the
    first check that finds [is_running] cleared. *)
Fixpoint process_completed (cs : list completion) (s : scheduler)
  : scheduler :=
  match cs with
  | [] => s
  | c :: rest =>
      if is_running s then process_completed rest (handle_completion c s)
      else s
  end.

Definition idle : scheduler :=
  {| is_running := true; best_results := ∅; completed_symbols := [];
     failed_symbols := []; printed := [] |}.

(** The optimization of [c] succeeded and only the save failed. *)
Definition save_failed (c : completion) : Prop :=
  (exists result, future c = FutureReturned true (Some result))
  /\ save_success c = false.

(** The optimization of [c] itself failed. *)
Definition optimization_failed (c : completion) : Prop :=
  future c = FutureRaised
  \/ (exists result, future c = FutureReturned false result)
  \/ (exists success, future c = FutureReturned success None).

(** "A symbol whose save failed is not appended to the list that holds
    the symbols whose optimization failed." *)
Definition save_failure_kept_apart (cs : list completion) : Prop :=
  forall c,
    c ∈ cs -> save_failed c ->
    symbol c ∉ failed_symbols (process_completed cs idle).

End PerCoinOptimizer.

(** ** The signal generator: [MACDSMAStrategy] *)

Module MACDSMAStrategy.
Import Py.

(** A float column of a data frame; [None] is NaN. *)
Abbreviation series := (list (option Q)).

(** The bar counts [fast_length], [slow_length], [signal_length] and
    [very_slow_length] in force after the parameter update. *)
Record strategy := Strategy {
  fast_length : nat;
  slow_length : nat;
  signal_length : nat;
  very_slow_length : nat
}.

(** The columns [calculate_indicators] adds. *)
Record frame := Frame {
  close : series;
  fast_ma : series;
  slow_ma : series;
  very_slow_ma : series;
  macd : series;
  macd_signal : series;
  macd_histogram : series
}.

(** One row of the frame [generate_signals] returns. *)
Record signal_point := SignalPoint {
  price : Q;
  signal : Z;
  signal_strength : Q
}.

(** Element [i] of a column. *)
Definition at_ (xs : series) (i : nat) : option Q := mjoin (xs !! i).

(** Arithmetic propagates NaN. *)
Definition lift2 (f : Q -> Q -> Q) (a b : option Q) : option Q :=
  match a, b with
  | Some x, Some y => Some (f x y)
  | _, _ => None
  end.

(** Column arithmetic is element-wise. *)
Definition sub (xs ys : series) : series := zip_with (lift2 Qminus) xs ys.

Definition absolute (xs : series) : series := map (option_map Qabs) xs.

(** A float division of numpy: no exception; a zero divisor gives a
    non-finite value, kept as [None]. *)
Definition divide (a b : option Q) : option Q :=
  match a, b with
  | Some x, Some y => if Qeq_bool y 0 then None else Some (x / y)
  | _, _ => None
  end.

(** A comparison with NaN is false. *)
Definition gt (a b : option Q) : bool :=
  match a, b with
  | Some x, Some y => Qltb y x
  | _, _ => false
  end.

Definition lt (a b : option Q) : bool := gt b a.

Definition ge (a b : option Q) : bool :=
  match a, b with
  | Some x, Some y => Qle_bool y x
  | _, _ => false
  end.

Definition le (a b : option Q) : bool := ge b a.

(** The sum of a window, NaN as soon as one element is. *)
Fixpoint window_sum (w : series) : option Q :=
  match w with
  | [] => Some 0
  | x :: rest => lift2 Qplus x (window_sum rest)
  end.

(** The mean of the [n] values ending at index [i], NaN while fewer
    than [n] values are there or one of them is NaN:
    [Series.rolling(n).mean()]. *)
Definition rolling_mean (n : nat) (xs : series) : series :=
  imap (fun i _ =>
          if (n <=? i + 1)%nat
          then lift2 Qdiv (window_sum (take n (drop (i + 1 - n) xs)))
                 (Some (inject_Z (Z.of_nat n)))
          else None) xs.

(** [talib.SMA(xs, timeperiod=n)]: the same means, after the leading
    NaNs of the input; the library rejects a period outside
    2..100000. *)
Definition SMA (xs : series) (n : nat) : option series :=
  if (2 <=? n)%nat && (Z.of_nat n <=? 100000)%Z then Some (rolling_mean n xs)
  else None.

(** [Series.shift(k)]. *)
Definition shift (k : nat) (xs : series) : series :=
  take (length xs) (replicate k None ++ xs).

(** [fillna(method='ffill')]. *)
Fixpoint ffill_from (last : option Q) (xs : series) : series :=
  match xs with
  | [] => []
  | x :: rest =>
      let v := match x with Some _ => x | None => last end in
      v :: ffill_from v rest
  end.

Definition ffill (xs : series) : series := ffill_from None xs.

(** [fillna(method='bfill')]. *)
Definition bfill (xs : series) : series := reverse (ffill (reverse xs)).

Definition fill (xs : series) : series := bfill (ffill xs).

(** [calculate_indicators] on the close prices of the candles; [None]
    is the exception it raises. *)
Definition calculate_indicators (s : strategy) (closes : list Q)
  : option frame :=
  if (length closes <? very_slow_length s)%nat || (length closes =? 0)%nat
  then None
  else
    let c := Some <$> closes in
    fast ← SMA c (fast_length s);
    slow ← SMA c (slow_length s);
    very_slow ← SMA c (very_slow_length s);
    let line := sub fast slow in
    sig ← SMA line (signal_length s);
    Some {| close := fill c; fast_ma := fill fast; slow_ma := fill slow;
            very_slow_ma := fill very_slow; macd := fill line;
            macd_signal := fill sig;
            macd_histogram := fill (sub line sig) |}.

Section Rows.
Variable s : strategy.
Variable f : frame.

Definition hist_crossover_up (i : nat) : bool :=
  gt (at_ (macd_histogram f) i) (Some 0)
  && le (at_ (shift 1 (macd_histogram f)) i) (Some 0).

Definition hist_crossunder_down (i : nat) : bool :=
  lt (at_ (macd_histogram f) i) (Some 0)
  && ge (at_ (shift 1 (macd_histogram f)) i) (Some 0).

Definition long_condition (i : nat) : bool :=
  hist_crossover_up i
  && gt (at_ (macd f) i) (Some 0)
  && gt (at_ (fast_ma f) i) (at_ (slow_ma f) i)
  && gt (at_ (shift (slow_length s) (close f)) i) (at_ (very_slow_ma f) i).

Definition short_condition (i : nat) : bool :=
  hist_crossunder_down i
  && lt (at_ (macd f) i) (Some 0)
  && lt (at_ (fast_ma f) i) (at_ (slow_ma f) i)
  && lt (at_ (shift (slow_length s) (close f)) i) (at_ (very_slow_ma f) i).

Definition cancel_long (i : nat) : bool :=
  lt (at_ (slow_ma f) i) (at_ (very_slow_ma f) i).

Definition cancel_short (i : nat) : bool :=
  gt (at_ (slow_ma f) i) (at_ (very_slow_ma f) i).

(** The [signal] column after lines 106-107. *)
Definition crossover_signal (i : nat) : Z :=
  if short_condition i && negb (cancel_short i) then (-1)%Z
  else if long_condition i && negb (cancel_long i) then 1%Z
  else 0%Z.

(** [np.maximum(0, x)]. *)
Definition maximum0 (x : option Q) : option Q :=
  match x with
  | Some v => Some (if Qltb v 0 then 0 else v)
  | None => None
  end.

(** [np.minimum(1.0, x)]. *)
Definition minimum1 (x : option Q) : option Q :=
  match x with
  | Some v => Some (if Qltb v 1 then v else 1)
  | None => None
  end.

Definition strength_of (col : series) (i : nat) : option Q :=
  divide (at_ (absolute col) i)
    (lift2 Qplus (at_ (rolling_mean 20 (absolute col)) i) (Some 1e-8)).

Definition trend_strength (i : nat) : option Q :=
  let c := at_ (close f) i in
  let v := at_ (very_slow_ma f) i in
  if (crossover_signal i =? 1)%Z
  then maximum0 (divide (lift2 Qminus c v) v)
  else if (crossover_signal i =? -1)%Z
  then maximum0 (divide (lift2 Qminus v c) v)
  else Some 0.

(** The [signal_strength] column after lines 127-131; NaN during the
    warm-up of the 20-bar means. *)
Definition blended_strength (i : nat) : option Q :=
  let blend :=
    lift2 Qplus
      (lift2 Qplus
         (lift2 Qmult (strength_of (macd f) i) (Some 0.4))
         (lift2 Qmult (strength_of (macd_histogram f) i) (Some 0.4)))
      (lift2 Qmult (trend_strength i) (Some 0.2)) in
  lift2 Qmult (Some (inject_Z (Z.abs (crossover_signal i))))
    (minimum1 blend).

(** [weak_signals]: [signal_strength < 0.2], false on NaN. *)
Definition weak_signal (i : nat) : bool :=
  lt (blended_strength i) (Some 0.2).

(** Row [i] of the returned frame: weak signals zeroed, then
    [fillna(0)]. *)
Definition signal_row (i : nat) (c : Q) : signal_point :=
  {| price := c;
     signal := if weak_signal i then 0%Z else crossover_signal i;
     signal_strength := default 0 (blended_strength i) |}.

End Rows.

(** [generate_signals]. *)
Definition generate_signals (s : strategy) (closes : list Q)
  : option (list signal_point) :=
  if (length closes =? 0)%nat then None
  else
    f ← calculate_indicators s closes;
    Some (imap (signal_row s f) closes).

(** "Every returned signal point whose strength is below 0.2 has
    direction 0." *)
Definition weak_signals_suppressed (s : strategy) (closes : list Q) : Prop :=
  forall rows row,
    generate_signals s closes = Some rows -> row ∈ rows ->
    signal_strength row < 0.2 -> signal row = 0%Z.

End MACDSMAStrategy.

(** ** Readings of the simulator's tests as propositions *)

Module ExitSpec.
Import Py FuturesBacktest.

Section Tests.
Variable svc : service.

(** The price has reached the fixed stop-loss of the position. *)
Definition stop_loss_reached (p : position) (x : Q) : Prop :=
  let fixed_sl := _get_fixed_sl_level svc (entry_price p) (direction p) in
  (direction p = 1%Z /\ x <= fixed_sl)
  \/ (direction p = (-1)%Z /\ fixed_sl <= x).


(** The level is not yet hit and the price has crossed it. *)
Definition level_reached (dir : Z) (x : Q) (tp : tp_level) : Prop :=
  hit tp = false
  /\ ((dir = 1%Z /\ tp_price tp <= x) \/ (dir = (-1)%Z /\ x <= tp_price tp)).


(** A stop is at least as favourable to the trader as the fixed
    stop-loss: not below it for a long, not above it for a short. *)
Definition no_worse_than_fixed_sl (p : position) (stop : Q) : Prop :=
  let fixed_sl := _get_fixed_sl_level svc (entry_price p) (direction p) in
  (direction p = 1%Z -> fixed_sl <= stop)
  /\ (direction p = (-1)%Z -> stop <= fixed_sl).

(** An armed stored trailing stop is no worse than the fixed
    stop-loss. *)
Definition armed_ok (p : position) : Prop :=
  0 < trailing_stop p -> no_worse_than_fixed_sl p (trailing_stop p).

End Tests.

End ExitSpec.

(** ** Readings of the equity accounting *)

Module EquitySpec.
Import Py FuturesBacktest.

(** The favourable price move of the open position as a fraction of
    the entry price. *)
Definition price_change_fraction (b : bar) (p : position) : Q :=
  (if (direction p =? -1)%Z then - (price b - entry_price p)
   else price b - entry_price p) / entry_price p.

(** The PnL formula of [_close_position] applied to the whole remaining
    size: fraction x remaining size x entry price x leverage. *)
Definition pnl_on_remaining_size (leverage : Q) (b : bar) (p : position)
  : Q :=
  price_change_fraction b p * (remaining_size p * entry_price p) * leverage.

(** What line 159 computes: the fraction, as a percentage, times the
    leverage, on [margin_ratio] percent of the current balance. *)
Definition pnl_on_balance_margin (leverage margin_ratio : Q) (b : bar)
  (st : sim) : Q :=
  price_change_fraction b (pos st) * 100 * leverage
  * (balance st * margin_ratio / 100) / 100.

(** The statement that every equity row carries the balance, the sum
    [balance + unrealized_pnl], and an unrealized PnL given by [formula]
    on the state the bar ends in. *)
Definition equity_rows_follow (formula : bar -> sim -> Q) (svc : service)
  (leverage margin_ratio : Q) (signals : list bar) (initial_balance : Q)
  (curve : list equity_row) : Prop :=
  length curve = length signals
  /\ forall i row,
      curve !! i = Some row ->
      exists b st,
        signals !! i = Some b
        /\ run_bars svc leverage margin_ratio (take (S i) signals)
             (initial initial_balance) = Some st
        /\ row_timestamp row = timestamp b
        /\ row_balance row = balance st
        /\ equity row = row_balance row + unrealized_pnl row
        /\ (is_open (pos st) = false -> unrealized_pnl row = 0)
        /\ (is_open (pos st) = true -> unrealized_pnl row == formula b st).

(** The state can be stepped without a division by zero: the peak is
    positive and an open position has a nonzero entry price. *)
Definition sound (st : sim) : Prop :=
  0 < peak_balance st
  /\ (is_open (pos st) = true -> ~ entry_price (pos st) == 0).

End EquitySpec.

(** ** Readings of the per-bar position life cycle *)

Module BarSpec.
Import Py FuturesBacktest.

(** The bar opened a position: the entry block ran its assignment,
    which also appends one chart entry. *)
Definition opens_position (st st' : sim) : Prop :=
  length (tp_sl_levels st') = S (length (tp_sl_levels st)).

Section Statements.
Variable svc : service.
Variables leverage margin_ratio : Q.
Variable signals : list bar.
Variable initial_balance : Q.

(** The state in which bar number [i] starts. *)
Definition state_before (i : nat) (st : sim) : Prop :=
  run_bars svc leverage margin_ratio (take i signals)
    (initial initial_balance) = Some st.

(** "An open position facing an opposite nonzero signal is fully
    closed on that bar": the position that held at the start of the
    bar is gone when the bar ends. *)
Definition opposite_signal_closes : Prop :=
  forall i b st st',
    signals !! i = Some b -> state_before i st ->
    step svc leverage margin_ratio b st = Some st' ->
    is_open (pos st) = true -> signal b <> 0%Z ->
    signal b <> direction (pos st) ->
    exists t,
      trades st' = trades st ++ [t] /\ size_closed t = 1.

(** "A new entry is only opened if the simulator was already flat
    when the bar's processing began." *)
Definition entry_only_from_flat : Prop :=
  forall i b st st',
    signals !! i = Some b -> state_before i st ->
    step svc leverage margin_ratio b st = Some st' ->
    opens_position st st' -> is_open (pos st) = false.

(** "Every take-profit exit is a partial close that leaves
    remaining_size strictly positive." *)
Definition tp_exit_leaves_positive : Prop :=
  forall i b st st1 t,
    signals !! i = Some b -> state_before i st ->
    exit_phase svc leverage b st = Some st1 ->
    trades st1 = trades st ++ [t] ->
    String.prefix "TP" (exit_reason t) = true ->
    size_closed t < 1 /\ 0 < remaining_size (pos st1).

End Statements.

End BarSpec.

(** ** The concrete inputs the properties are evaluated on *)

Module Scenarios.

Section Runs.
Import FuturesBacktest.

Definition long_then_first_level : list bar := [Bar 0 100 1; Bar 1 101 0].

Definition two_bars_opposite : list bar := [Bar 0 100 1; Bar 1 100.1 (-1)].

Definition stop_then_short : list bar := [Bar 0 100 1; Bar 1 98 (-1)].

Definition negative_balance_reentry : list bar :=
  [Bar 0 100 1; Bar 1 98 0; Bar 2 100 1; Bar 3 101 0].

Definition signal_free_bars : list bar :=
  [Bar 0 100 0; Bar 1 101 0].


End Runs.

Section Scores.
Import BacktestRunner.

Definition capped_return_stats : gmap string pyval :=
  {[ "total_return"%string := PNum 500; "win_rate"%string := PNum 100;
     "max_drawdown"%string := PNum 0; "total_trades"%string := PNum 100 ]}.

Definition small_return_stats : gmap string pyval :=
  {[ "total_return"%string := PNum 0.1; "win_rate"%string := PNum 0;
     "max_drawdown"%string := PNum 100; "total_trades"%string := PNum 0 ]}.

End Scores.

Section Symbols.
Import PerCoinOptimizer.

Definition two_failures : list completion :=
  [ Completion "ETHUSDT" (FutureReturned false None) false;
    Completion "BTCUSDT" (FutureReturned true (Some (OptResult 7.5 42)))
      false ].

End Symbols.

Definition early_crossunder : list Q := [104; 100; 102; 99; 98].

End Scenarios.

(** Evaluates the left side [s] of a goal [s = Some _ /\ _] and records
    the value as [Hs]. *)
Ltac evaluate_some Hs :=
  match goal with
  | |- ?s = Some _ /\ _ =>
      let r := eval vm_compute in s in
      match r with
      | Some ?x => assert (s = Some x) as Hs by (vm_compute; reflexivity)
      end
  end.


(** ** Readings of the simulator's book-keeping *)

Module LedgerSpec.
Import Py FuturesBacktest.

(** The sum of the net PnL of the recorded trades. *)
Definition trade_sum (ts : list trade) : Q :=
  foldr (fun t acc => trade_pnl t + acc) 0 ts.

(** The number of recorded trades with a positive net PnL. *)
Definition wins (ts : list trade) : nat :=
  length (filter (fun t => Qltb 0 (trade_pnl t) = true) ts).

(** The counters of the loop agree with the trade list. *)
Definition ledger (initial_balance : Q) (st : sim) : Prop :=
  balance st == initial_balance + total_pnl st
  /\ total_pnl st == trade_sum (trades st)
  /\ total_trades st = Z.of_nat (length (trades st))
  /\ winning_trades st = Z.of_nat (wins (trades st)).


(** The position has taken its first [k] take-profit levels, in ladder
    order: [tps_hit] is 1, ..., k, exactly the first [k] levels of the
    ladder computed at the entry are marked, and the remaining size is the
    size after [k] closes of the fraction [tp_close]. *)
Definition ladder_state (svc : service) (p : position) (k : nat) : Prop :=
  let ladder := (_calculate_tp_sl_levels svc (entry_price p) (direction p)).1 in
  tps_hit p = map Z.of_nat (seq 1 k)
  /\ (k <= length ladder)%nat
  /\ length (tp_levels p) = length ladder
  /\ (forall i tp0,
        ladder !! i = Some tp0 ->
        tp_levels p !! i
        = Some (if (i <? k)%nat then mark_hit tp0 else tp0))
  /\ remaining_size p == size p * (1 - tp_close_percent svc) ^ Z.of_nat k.

(** An open position was entered at a positive price and is in a ladder
    state. *)
Definition ladder_ok (svc : service) (p : position) : Prop :=
  is_open p = true ->
  0 < entry_price p /\ exists k, ladder_state svc p k.

End LedgerSpec.

(** ** The profit factor: [BacktestRunner._calculate_profit_factor] *)

Module Metrics.
Import Py FuturesBacktest.

(** A float that may be [float('inf')]. *)
Inductive xfloat :=
| Finite (q : Q)
| Infinity.

(** Built-in [sum]: from 0, left to right. *)
Definition py_sum (xs : list Q) : Q := fold_left Qplus xs 0.

(** The PnL of the trades with [t['pnl'] > 0]. *)
Definition winning_pnl (ts : list trade) : list Q :=
  trade_pnl <$> filter (fun t => Qltb 0 (trade_pnl t) = true) ts.

(** The PnL of the trades with [t['pnl'] < 0]. *)
Definition losing_pnl (ts : list trade) : list Q :=
  trade_pnl <$> filter (fun t => Qltb (trade_pnl t) 0 = true) ts.

(** [_calculate_profit_factor]. *)
Definition _calculate_profit_factor (ts : list trade) : xfloat :=
  match ts with
  | [] => Finite 0
  | _ =>
      let total_profit := py_sum (winning_pnl ts) in
      let total_loss := Qabs (py_sum (losing_pnl ts)) in
      if Qeq_bool total_loss 0
      then if Qltb 0 total_profit then Infinity else Finite 0
      else Finite (total_profit / total_loss)
  end.

End Metrics.

(** ** Readings of the indicator columns *)

Module StrategySpec.
Import MACDSMAStrategy.

(** Every number of the column satisfies [P]; NaN entries are free. *)
Definition all_values (P : Q -> Prop) (xs : series) : Prop :=
  Forall (fun o => forall v, o = Some v -> P v) xs.

(** The period is one [talib.SMA] accepts. *)
Definition valid_period (n : nat) : Prop :=
  (2 <= n)%nat /\ (Z.of_nat n <= 100000)%Z.

(** The inputs on which [generate_signals] does not raise. *)
Definition enough_data (s : strategy) (closes : list Q) : Prop :=
  closes <> [] /\ (very_slow_length s <= length closes)%nat
  /\ valid_period (fast_length s) /\ valid_period (slow_length s)
  /\ valid_period (very_slow_length s) /\ valid_period (signal_length s).

End StrategySpec.

(** ** The parameter grid: [ParameterGenerator] *)

Module ParameterGenerator.
Import Py.

(** [{'min': .., 'max': .., 'step': ..}]. *)
Record int_range := IntRange { imin : Z; imax : Z; istep : Z }.
Record float_range := FloatRange { fmin : Q; fmax : Q; fstep : Q }.

(** [param_ranges]. *)
Record param_ranges := ParamRanges {
  macd_fast : int_range;
  macd_slow : int_range;
  macd_signal : int_range;
  sma_length : int_range;
  tp_base : float_range;
  stop_loss : float_range
}.

(** One element of the returned list. *)
Record combination := Combination {
  c_macd_fast : Z;
  c_macd_slow : Z;
  c_macd_signal : Z;
  c_sma_length : Z;
  c_tp_base : Q;
  c_stop_loss : Q
}.

(** Built-in [range(start, stop, step)]; a zero step raises. *)
Definition py_range (start stop step : Z) : option (list Z) :=
  if (step =? 0)%Z then None
  else
    let n :=
      if (0 <? step)%Z then ((stop - start + step - 1) / step)%Z
      else ((start - stop - step - 1) / (- step))%Z in
    Some ((fun k => start + Z.of_nat k * step)%Z <$> seq 0 (Z.to_nat n)).

(** [np.arange(start, stop, step)]: [ceil((stop - start) / step)]
    values [start + k * step]; a zero step raises. *)
Definition np_arange (start stop step : Q) : option (list Q) :=
  if Qeq_bool step 0 then None
  else
    let n := Qceiling ((stop - start) / step) in
    Some ((fun k => start + inject_Z (Z.of_nat k) * step)
            <$> seq 0 (Z.to_nat n)).

Definition int_values (r : int_range) : option (list Z) :=
  py_range (imin r) (imax r + 1)%Z (istep r).

Definition float_values (r : float_range) : option (list Q) :=
  np_arange (fmin r) (fmax r + fstep r) (fstep r).

(** [itertools.product] of the six value lists, the last one varying
    fastest. *)
Definition product6 (fs ss gs ls : list Z) (ts sls : list Q)
  : list (Z * Z * Z * Z * Q * Q) :=
  f ← fs; s ← ss; g ← gs; l ← ls; t ← ts; sl ← sls; [(f, s, g, l, t, sl)].

(** The loop that keeps the combinations with [macd_fast < macd_slow]. *)
Definition keep_valid (combos : list (Z * Z * Z * Z * Q * Q))
  : list combination :=
  combos ≫= fun '(f, s, g, l, t, sl) =>
    if (f <? s)%Z
    then [{| c_macd_fast := f; c_macd_slow := s; c_macd_signal := g;
             c_sma_length := l; c_tp_base := round2 t;
             c_stop_loss := round2 sl |}]
    else [].

(** [generate_parameter_combinations]; [None] is the exception. *)
Definition generate_parameter_combinations (pr : param_ranges)
  : option (list combination) :=
  fs ← int_values (macd_fast pr);
  ss ← int_values (macd_slow pr);
  gs ← int_values (macd_signal pr);
  ls ← int_values (sma_length pr);
  ts ← float_values (tp_base pr);
  sls ← float_values (stop_loss pr);
  Some (keep_valid (product6 fs ss gs ls ts sls)).




(** Float [x // y] and [x % y] for a nonzero [y], and [int(x)]. *)
Definition floordiv (x y : Q) : Q := inject_Z (Qfloor (x / y)).
Definition pymod (x y : Q) : Q := x - y * inject_Z (Qfloor (x / y)).
Definition py_int (x : Q) : Z := Z.quot (Qnum x) (Zpos (Qden x)).

(** [optimization_params], as far as the estimate reads it; [None] is
    a missing key. *)
Record optimization_params := OptimizationParams {
  op_param_ranges : option param_ranges;
  op_max_workers : option Z;
  op_combinations_count : option Z
}.

(** The entry ['estimated_time'] without its formatted text. *)
Record time_estimate := TimeEstimate {
  total_seconds : Z;
  hours : Z;
  minutes : Z;
  seconds : Z
}.

Record queue_estimate := QueueEstimate {
  est_total_symbols : Z;
  est_combinations_per_symbol : Z;
  est_total_combinations : Z;
  est_max_workers : Z;
  estimated_time : time_estimate;
  symbols_preview : list string
}.

(** The dictionary returned by the body, or the one of the [except]
    branch, which carries the number of symbols. *)
Inductive estimate_result :=
| Estimate (e : queue_estimate)
| EstimateError (total_symbols : Z).

(** The pre-calculated count when there is one, else the length of the
    generated list; [None] when the generation raises. *)
Definition combinations_per_symbol (op : optimization_params) : option Z :=
  match op_combinations_count op with
  | Some n => Some n
  | None =>
      match op_param_ranges op with
      | Some pr =>
          match generate_parameter_combinations pr with
          | Some combinations => Some (Z.of_nat (length combinations))
          | None => None
          end
      | None => None
      end
  end.

(** [get_optimization_queue_estimate]. *)
Definition get_optimization_queue_estimate (symbols : list string)
  (op : optimization_params) : estimate_result :=
  let max_workers := default 4%Z (op_max_workers op) in
  let n_symbols := Z.of_nat (length symbols) in
  match combinations_per_symbol op with
  | None => EstimateError n_symbols
  | Some per_symbol =>
      let total_combinations := (n_symbols * per_symbol)%Z in
      match pdiv (inject_Z total_combinations * 0.1)
              (inject_Z max_workers) with
      | None => EstimateError n_symbols
      | Some total_estimated_seconds =>
          Estimate
            {| est_total_symbols := n_symbols;
               est_combinations_per_symbol := per_symbol;
               est_total_combinations := total_combinations;
               est_max_workers := max_workers;
               estimated_time :=
                 {| total_seconds := py_int total_estimated_seconds;
                    hours := py_int (floordiv total_estimated_seconds 3600);
                    minutes :=
                      py_int
                        (floordiv (pymod total_estimated_seconds 3600) 60);
                    seconds := py_int (pymod total_estimated_seconds 60) |};
               symbols_preview := take 10 symbols |}
      end
  end.

End ParameterGenerator.

(** ** Fetching one symbol with retries *)

Module PerCoinFetch.

(** What [_fetch_single_symbol_data_with_retry] does: it returns the
    data frame, raises the last error, or falls out of the loop and
    returns [None]. *)
Inductive fetch_result (df : Type) :=
| Fetched (data : df)
| FetchRaised
| FetchedNone.
Arguments Fetched {df} data.
Arguments FetchRaised {df}.
Arguments FetchedNone {df}.

(** The result, the number of calls of [get_market_data] and the
    seconds slept. *)
Record fetch_run (df : Type) := FetchRun {
  result : fetch_result df;
  calls : nat;
  slept : Q
}.
Arguments FetchRun {df} result calls slept.
Arguments result {df} f.
Arguments calls {df} f.
Arguments slept {df} f.

(** Seconds slept when attempt [k] has made its call: the progressive
    delays [0.5 x j] before the attempts [0 .. k] and the backoffs
    [2 ^ j] after the attempts [0 .. k - 1]. *)
Definition slept_after (k : nat) : Q :=
  0.25 * inject_Z (Z.of_nat k) * (inject_Z (Z.of_nat k) + 1)
  + 2 ^ Z.of_nat k - 1.

Section Retry.
Context {df : Type}.

(** [get_market_data] at the attempt of the given number: [Some] is
    a data frame that is not empty; [None] is an exception, [None] or
    an empty frame, which the loop body turns into an exception. *)
Variable get_market_data : nat -> option df.

(** The iterations [attempt, attempt + 1, ...] of the loop, [fuel]
    of them left. *)
Fixpoint attempts (max_retries : Z) (fuel attempt : nat) (calls : nat)
  (slept : Q) : fetch_run df :=
  match fuel with
  | O => FetchRun FetchedNone calls slept
  | S fuel' =>
      let slept := slept + 0.5 * inject_Z (Z.of_nat attempt) in
      match get_market_data attempt with
      | Some data => FetchRun (Fetched data) (S calls) slept
      | None =>
          if (Z.of_nat attempt =? max_retries - 1)%Z
          then FetchRun FetchRaised (S calls) slept
          else attempts max_retries fuel' (S attempt) (S calls)
                 (slept + 2 ^ Z.of_nat attempt)
      end
  end.

(** [_fetch_single_symbol_data_with_retry]:
    [for attempt in range(max_retries)]. *)
Definition _fetch_single_symbol_data_with_retry (max_retries : Z)
  : fetch_run df :=
  attempts max_retries (Z.to_nat max_retries) 0 0 0.

End Retry.

End PerCoinFetch.

(** ** Batches, ranking and progress of the multi-symbol scheduler *)

Module PerCoinScheduling.
Import Py PerCoinOptimizer.

(** [batch_size = min(max_workers * 2, 20)]. *)
Definition batch_size (max_workers : Z) : Z := Z.min (max_workers * 2) 20.

(** The head of [_process_symbols_in_batches] (lines 515-525): the
    announced number of batches and the slices
    [valid_symbols[i : i + batch_size]] for [i] in
    [range(0, len(valid_symbols), batch_size)].  A batch size of 0 raises
    in the computation of [total_batches]. *)
Definition symbol_batches (max_workers : Z) (valid_symbols : list string)
  : option (Z * list (list string)) :=
  let bs := batch_size max_workers in
  if (bs =? 0)%Z then None
  else
    let total_batches :=
      ((Z.of_nat (length valid_symbols) + bs - 1) / bs)%Z in
    match ParameterGenerator.py_range 0
            (Z.of_nat (length valid_symbols)) bs with
    | Some starts =>
        Some (total_batches,
              (fun i => take (Z.to_nat bs) (drop (Z.to_nat i) valid_symbols))
                <$> starts)
    | None => None
    end.

(** [results.sort(key=lambda x: x['score'], reverse=True)]: descending
    by score, results of equal score in their original order. *)
Fixpoint insert_by_score (x : opt_result) (l : list opt_result)
  : list opt_result :=
  match l with
  | [] => [x]
  | y :: rest =>
      if Qltb (score x) (score y) then y :: insert_by_score x rest
      else x :: l
  end.

Definition sort_by_score (l : list opt_result) : list opt_result :=
  foldr insert_by_score [] l.

(** [_optimize_single_symbol] on the results of the finished backtests,
    in completion order up to the point where the run was stopped;
    [None] is a backtest that returned [None]. *)
Definition _optimize_single_symbol (finished : list (option opt_result))
  : list opt_result :=
  sort_by_score (omap id finished).

(** [_optimize_symbol_with_tracking]. *)
Definition _optimize_symbol_with_tracking (df_empty : bool)
  (finished : list (option opt_result)) : bool * option opt_result :=
  if df_empty then (false, None)
  else
    match _optimize_single_symbol finished with
    | best_result :: _ => (true, Some best_result)
    | [] => (false, None)
    end.

(** [overall_progress] of [get_status]. *)
Definition overall_progress
  (total_symbols completed current_symbol_progress total_combinations : Z)
  : Q :=
  let overall :=
    if (0 <? total_symbols)%Z then
      let completed_symbols_progress :=
        inject_Z completed / inject_Z total_symbols * 100 in
      let current_symbol_contribution :=
        if (0 <? total_combinations)%Z then
          inject_Z current_symbol_progress / inject_Z total_combinations
          * 100 / inject_Z total_symbols
        else 0 in
      min (completed_symbols_progress + current_symbol_contribution) 100
    else 0 in
  round2 overall.

(** The list is in descending order of score. *)
Definition descending (l : list opt_result) : Prop :=
  StronglySorted (fun a b => score b <= score a) l.

(** Every completed symbol has its best result stored. *)
Definition completed_have_results (s : scheduler) : Prop :=
  forall sym, sym ∈ completed_symbols s -> is_Some (best_results s !! sym).

End PerCoinScheduling.

(** ** The settings store: [CoinSettingsManager] *)

Module CoinSettingsManager.

Record strategy_params := StrategyParams {
  macd_fast : Z;
  macd_slow : Z;
  macd_signal : Z;
  sma_length : Z
}.

Record tp_sl_params := TpSlParams {
  tp_base : Q;
  stop_loss : Q;
  max_tps : Z;
  tp_close : Q
}.

Record backtest_stats := BacktestStats {
  stats_total_return : Q;
  stats_win_rate : Q;
  stats_total_trades : Z;
  stats_max_drawdown : Q;
  stats_profit_factor : Metrics.xfloat;
  stats_sharpe_ratio : Q
}.

(** The settings dictionary of one coin. *)
Record settings := Settings {
  strategy : strategy_params;
  tp_sl : tp_sl_params;
  optimization_score : Q;
  optimization_date : option string;
  stats : option backtest_stats;
  last_updated : option string;
  settings_symbol : option string
}.

(** The result dictionary of [run_single_backtest], as far as
    [save_optimization_result] reads it; the two entries read with
    [.get(key, 0)] may be missing. *)
Record optimization_result := OptimizationResult {
  parameters : ParameterGenerator.combination;
  score : Q;
  total_return : Q;
  win_rate : Q;
  total_trades : Z;
  max_drawdown : Q;
  profit_factor : option Metrics.xfloat;
  sharpe_ratio : option Q
}.

(** [get_default_settings]. *)
Definition get_default_settings : settings :=
  {| strategy := {| macd_fast := 14; macd_slow := 32; macd_signal := 10;
                    sma_length := 150 |};
     tp_sl := {| tp_base := 0.5; stop_loss := 1.25; max_tps := 10;
                 tp_close := 25 |};
     optimization_score := 0.0;
     optimization_date := None; stats := None;
     last_updated := None; settings_symbol := None |}.

(** [save_coin_settings]: the in-memory dictionary is updated before
    the file is written; [file_ok] tells whether the write succeeds. *)
Definition save_coin_settings (symbol : string) (s : settings)
  (now : string) (file_ok : bool) (store : gmap string settings)
  : bool * gmap string settings :=
  let s' :=
    {| strategy := strategy s; tp_sl := tp_sl s;
       optimization_score := optimization_score s;
       optimization_date := optimization_date s; stats := stats s;
       last_updated := Some now; settings_symbol := Some symbol |} in
  (file_ok, <[symbol := s']> store).

(** [load_coin_settings]. *)
Definition load_coin_settings (symbol : string)
  (store : gmap string settings) : settings :=
  match store !! symbol with
  | Some s => s
  | None => get_default_settings
  end.

(** The settings [save_optimization_result] builds from a result. *)
Definition settings_of_result (r : optimization_result) (now : string)
  : settings :=
  let best_params := parameters r in
  {| strategy :=
       {| macd_fast := ParameterGenerator.c_macd_fast best_params;
          macd_slow := ParameterGenerator.c_macd_slow best_params;
          macd_signal := ParameterGenerator.c_macd_signal best_params;
          sma_length := ParameterGenerator.c_sma_length best_params |};
     tp_sl :=
       {| tp_base := ParameterGenerator.c_tp_base best_params;
          stop_loss := ParameterGenerator.c_stop_loss best_params;
          max_tps := 10; tp_close := 25 |};
     optimization_score := score r;
     optimization_date := Some now;
     stats :=
       Some {| stats_total_return := total_return r;
               stats_win_rate := win_rate r;
               stats_total_trades := total_trades r;
               stats_max_drawdown := max_drawdown r;
               stats_profit_factor :=
                 default (Metrics.Finite 0) (profit_factor r);
               stats_sharpe_ratio := default 0 (sharpe_ratio r) |};
     last_updated := None; settings_symbol := None |}.

(** [save_optimization_result]; [None] is a missing or empty result. *)
Definition save_optimization_result (symbol : string)
  (optimization_result : option optimization_result) (now : string)
  (file_ok : bool) (store : gmap string settings)
  : bool * gmap string settings :=
  match optimization_result with
  | None => (false, store)
  | Some r =>
      save_coin_settings symbol (settings_of_result r now) now file_ok store
  end.

(** [delete_coin_settings]. *)
Definition delete_coin_settings (symbol : string) (file_ok : bool)
  (store : gmap string settings) : bool * gmap string settings :=
  match store !! symbol with
  | Some _ => (file_ok, delete symbol store)
  | None => (false, store)
  end.

(** [PerCoinOptimizer._filter_unoptimized_symbols]: the symbols whose
    stored score is not positive. *)
Definition _filter_unoptimized_symbols (symbols : list string)
  (store : gmap string settings) : list string :=
  filter (fun symbol =>
            Qle_bool (optimization_score (load_coin_settings symbol store)) 0
            = true) symbols.

End CoinSettingsManager.

(** ** Inputs of the examples *)

Module Examples.

(** Five candles closing at the same price. *)
Definition flat_closes : list Q := [100; 100; 100; 100; 100].


End Examples.

(** * Properties *)

(** ** Facts about the arithmetic helpers *)

Module PyFacts.
Import Py.

Lemma Qltb_lt a b : Qltb a b = true <-> a < b.
Proof.
  unfold Qltb. rewrite negb_true_iff, <- not_true_iff_false, Qle_bool_iff.
  split; [apply Qnot_le_lt | apply Qlt_not_le].
Qed.

Lemma Qltb_ge a b : Qltb a b = false <-> b <= a.
Proof.
  unfold Qltb. rewrite negb_false_iff. apply Qle_bool_iff.
Qed.

Lemma max_ge_r a b : b <= max a b.
Proof.
  unfold max. destruct (Qltb a b) eqn:E; [lra | by apply Qltb_ge].
Qed.

Lemma max_ge_l a b : a <= max a b.
Proof.
  unfold max. destruct (Qltb a b) eqn:E; [| lra].
  apply Qltb_lt in E. lra.
Qed.

Lemma min_le_r a b : min a b <= b.
Proof.
  unfold min. destruct (Qltb b a) eqn:E; [lra | by apply Qltb_ge].
Qed.

Lemma min_le_l a b : min a b <= a.
Proof.
  unfold min. destruct (Qltb b a) eqn:E; [| lra].
  apply Qltb_lt in E. lra.
Qed.

Lemma max_cases a b : (a < b /\ max a b = b) \/ (b <= a /\ max a b = a).
Proof.
  unfold max. destruct (Qltb a b) eqn:E.
  - left. by apply Qltb_lt in E.
  - right. by apply Qltb_ge in E.
Qed.

Lemma min_cases a b : (b < a /\ min a b = b) \/ (a <= b /\ min a b = a).
Proof.
  unfold min. destruct (Qltb b a) eqn:E.
  - left. by apply Qltb_lt in E.
  - right. by apply Qltb_ge in E.
Qed.

Lemma pdiv_Some x y : ~ y == 0 -> pdiv x y = Some (x / y).
Proof.
  intros H. unfold pdiv. destruct (Qeq_bool y 0) eqn:E; [| done].
  by apply Qeq_bool_iff in E.
Qed.

Lemma pdiv_inv x y q : pdiv x y = Some q -> q = x / y /\ ~ y == 0.
Proof.
  unfold pdiv. destruct (Qeq_bool y 0) eqn:E; [done |].
  intros [= <-]. split; [done |]. intros H.
  apply Qeq_bool_iff in H. congruence.
Qed.

(** Rounding moves a number by at most half a unit. *)
Lemma round_half_even_close x :
  inject_Z (round_half_even x) - (1 # 2) <= x
  /\ x <= inject_Z (round_half_even x) + (1 # 2).
Proof.
  unfold round_half_even.
  pose proof (Qfloor_le x) as Hlo. pose proof (Qlt_floor x) as Hhi.
  rewrite inject_Z_plus in Hhi. change (inject_Z 1) with 1 in Hhi.
  destruct (Qltb (x - inject_Z (Qfloor x)) (1 # 2)) eqn:E1.
  { apply Qltb_lt in E1. lra. }
  apply Qltb_ge in E1.
  assert (x <= inject_Z (Qfloor x + 1) + (1 # 2)
          /\ inject_Z (Qfloor x + 1) - (1 # 2) <= x) as [? ?].
  { rewrite inject_Z_plus. change (inject_Z 1) with 1. lra. }
  destruct (Qltb (1 # 2) (x - inject_Z (Qfloor x))) eqn:E2; [done |].
  apply Qltb_ge in E2.
  destruct (Z.even (Qfloor x)); [lra | done].
Qed.

(** Rounding is monotone against integer bounds. *)
Lemma round_half_even_lower (k : Z) x :
  inject_Z k <= x -> (k <= round_half_even x)%Z.
Proof.
  intros H. unfold round_half_even.
  assert (k <= Qfloor x)%Z as Hk.
  { rewrite <- (Qfloor_Z k). by apply Qfloor_resp_le. }
  repeat case_match; lia.
Qed.

Lemma round_half_even_upper (k : Z) x :
  x <= inject_Z k -> (round_half_even x <= k)%Z.
Proof.
  intros H. unfold round_half_even.
  assert (Qfloor x <= k)%Z as Hk.
  { rewrite <- (Qfloor_Z k). by apply Qfloor_resp_le. }
  destruct (Z.eq_dec (Qfloor x) k) as [-> | Hne].
  - assert (x - inject_Z k <= 0) as Hr by lra.
    destruct (Qltb (x - inject_Z k) (1 # 2)) eqn:E1; [lia |].
    apply Qltb_ge in E1. lra.
  - repeat case_match; lia.
Qed.

End PyFacts.

(** ** The exit check *)

Module ExitFacts.
Import Py PyFacts FuturesBacktest ExitSpec.

Section Exit.
Variable svc : service.



Lemma tp_crossed_iff dir x tp :
  tp_crossed dir x tp = true <-> level_reached dir x tp.
Proof.
  unfold tp_crossed, level_reached.
  rewrite andb_true_iff, negb_true_iff, orb_true_iff, !andb_true_iff,
    !Z.eqb_eq, !Qle_bool_iff.
  tauto.
Qed.



(** Conversely, whatever the loop returns is such a first level. *)
Lemma scan_tp_levels_inv dir x tps l tps' :
  scan_tp_levels dir x tps = Some (l, tps') ->
  exists i tp,
    tps !! i = Some tp /\ tp_crossed dir x tp = true
    /\ (forall j tp', (j < i)%nat -> tps !! j = Some tp' ->
                      tp_crossed dir x tp' = false)
    /\ l = level tp /\ tps' = <[i := mark_hit tp]> tps.
Proof.
  revert l tps'. induction tps as [| t rest IH]; intros l tps' H; [done |].
  simpl in H. destruct (tp_crossed dir x t) eqn:Hc.
  - injection H as <- <-. exists 0%nat, t. repeat split; try done.
    intros j tp' Hj. lia.
  - destruct (scan_tp_levels dir x rest) as [[l0 r0] |] eqn:Hs; [| done].
    injection H as <- <-.
    destruct (IH _ _ eq_refl) as (i & tp & Hi & Hcr & Hb & -> & ->).
    exists (S i), tp. repeat split; try done.
    intros [| j] tp' Hj Hl; simpl in Hl.
    + by injection Hl as <-.
    + apply (Hb j); [lia | done].
Qed.

Lemma check_exit_same_entry p x c reason pct p' :
  _check_exit_conditions svc p x = (c, reason, pct, p') ->
  entry_price p' = entry_price p /\ direction p' = direction p
  /\ remaining_size p' = remaining_size p /\ size p' = size p
  /\ trailing_stop p' = trailing_stop p
  /\ (String.prefix "TP" reason = true ->
      exists l, tps_hit p' = tps_hit p ++ [l]).
Proof.
  unfold _check_exit_conditions. intros H.
  repeat case_match; simplify_eq; simpl; repeat split; try done.
  eauto.
Qed.


(** What the loop body does with the verdict of the exit check. *)
Lemma exit_phase_open leverage b st st' :
  is_open (pos st) = true ->
  exit_phase svc leverage b st = Some st' ->
  match _check_exit_conditions svc (pos st) (price b) with
  | (true, reason, pct, p') =>
      exists pnl commission,
        _close_position svc p' (price b) pct leverage
        = Some (pnl, commission)
        /\ balance st' = balance st + pnl
        /\ pos st' = after_close svc p' reason pct (price b)
        /\ (equity_curve st' = equity_curve st
            /\ peak_balance st' = peak_balance st
            /\ max_drawdown st' = max_drawdown st
            /\ total_trades st' = (total_trades st + 1)%Z
            /\ length (tp_sl_levels st') = length (tp_sl_levels st))
        /\ exists t,
            trades st' = trades st ++ [t]
            /\ exit_reason t = reason /\ size_closed t = pct
            /\ trade_pnl t = pnl /\ trade_exit_time t = timestamp b
  | (false, _, _, _) => st' = st
  end.
Proof.
  intros Hopen H. unfold exit_phase in H. rewrite Hopen in H.
  destruct (_check_exit_conditions svc (pos st) (price b))
    as [[[c reason] pct] p'].
  destruct c; [| congruence].
  destruct (_close_position svc p' (price b) pct leverage)
    as [[pnl commission] |]; [| done].
  simpl in H. injection H as <-. simpl.
  exists pnl, commission. repeat split; try done.
  - case_match; [| done]. unfold alias_tp_levels.
    destruct (reverse (tp_sl_levels st)) as [| c r] eqn:Hr.
    + apply (f_equal reverse) in Hr. rewrite reverse_involutive in Hr.
      by rewrite Hr.
    + apply (f_equal reverse) in Hr. rewrite reverse_involutive in Hr.
      rewrite Hr, reverse_cons, !length_app. done.
  - eauto 10.
Qed.

Lemma exit_phase_flat leverage b st :
  is_open (pos st) = false -> exit_phase svc leverage b st = Some st.
Proof. intros H. unfold exit_phase. by rewrite H. Qed.

(** The amount closed is the given fraction of the remaining size. *)
Lemma close_position_inv p x pct leverage pnl commission :
  _close_position svc p x pct leverage = Some (pnl, commission) ->
  let closed := remaining_size p * pct in
  let move := if (direction p =? 1)%Z then x - entry_price p
              else entry_price p - x in
  ~ entry_price p == 0
  /\ commission = closed * entry_price p * commission_rate svc * 2
  /\ pnl = move / entry_price p * 100 / 100 * (closed * entry_price p)
           * leverage - commission.
Proof.
  unfold _close_position. intros H.
  destruct (pdiv _ (entry_price p)) as [c |] eqn:Hd; [| done].
  apply pdiv_inv in Hd as [-> Hne]. simpl in H.
  by injection H as <- <-.
Qed.



End Exit.


End ExitFacts.

(** ** The loop body and the equity curve *)

Module RunFacts.
Import Py PyFacts FuturesBacktest ExitSpec ExitFacts EquitySpec.

Section Run.
Variable svc : service.
Variables leverage margin_ratio : Q.

Local Abbreviation step := (step svc leverage margin_ratio).
Local Abbreviation run_bars := (run_bars svc leverage margin_ratio).
Local Abbreviation entry_phase := (entry_phase svc leverage margin_ratio).
Local Abbreviation exit_phase := (exit_phase svc leverage).
Local Abbreviation equity_phase := (equity_phase leverage margin_ratio).
Local Abbreviation unrealized := (unrealized leverage margin_ratio).

Lemma step_inv b st st' :
  step b st = Some st' ->
  exists st1 st2,
    exit_phase b st = Some st1 /\ entry_phase b st1 = Some st2
    /\ equity_phase b st2 = Some st'.
Proof.
  unfold FuturesBacktest.step. intros H.
  destruct (exit_phase b st) as [st1 |] eqn:H1; simpl in H; [| done].
  destruct (entry_phase b st1) as [st2 |] eqn:H2; simpl in H; [| done].
  eauto.
Qed.

Lemma exit_phase_curve b st st' :
  exit_phase b st = Some st' ->
  equity_curve st' = equity_curve st /\ peak_balance st' = peak_balance st
  /\ max_drawdown st' = max_drawdown st.
Proof.
  intros H. destruct (is_open (pos st)) eqn:Hopen.
  - pose proof (exit_phase_open _ _ _ _ _ Hopen H) as Hv.
    destruct (_check_exit_conditions svc (pos st) (price b))
      as [[[c reason] pct] p'].
    destruct c; [| by subst].
    destruct Hv as (? & ? & _ & _ & _ & (? & ? & ? & _) & _). done.
  - rewrite exit_phase_flat in H by done. by injection H as <-.
Qed.

(** The entry block either leaves the state alone or opens a position
    at the bar's price, the bar's signal as direction. *)
Lemma entry_phase_inv b st st' :
  entry_phase b st = Some st' ->
  (st' = st)
  \/ (signal b <> 0%Z /\ is_open (pos st) = false
      /\ ~ price b == 0
      /\ balance st * (margin_ratio / 100) <= balance st
      /\ balance st' = balance st /\ trades st' = trades st
      /\ equity_curve st' = equity_curve st
      /\ peak_balance st' = peak_balance st
      /\ max_drawdown st' = max_drawdown st
      /\ total_trades st' = total_trades st
      /\ length (tp_sl_levels st') = S (length (tp_sl_levels st))
      /\ entry_price (pos st') = price b
      /\ entry_time (pos st') = Some (timestamp b)
      /\ direction (pos st') = signal b
      /\ size (pos st')
         = balance st * (margin_ratio / 100) * leverage / price b
      /\ remaining_size (pos st') = size (pos st')
      /\ tps_hit (pos st') = [] /\ trailing_stop (pos st') = 0).
Proof.
  unfold FuturesBacktest.entry_phase. intros H.
  destruct (negb (signal b =? 0)%Z && negb (is_open (pos st))) eqn:Hc;
    [| left; congruence].
  apply andb_true_iff in Hc as [Hs Ho].
  apply negb_true_iff in Hs, Ho. apply Z.eqb_neq in Hs.
  destruct (pdiv _ (price b)) as [sz |] eqn:Hd; [| done].
  apply pdiv_inv in Hd as [-> Hne]. simpl in H.
  destruct (Qle_bool _ (balance st)) eqn:Hm; [| left; congruence].
  apply Qle_bool_iff in Hm.
  destruct (_calculate_tp_sl_levels svc (price b) (signal b)) as [tps sl].
  injection H as <-. right. simpl.
  rewrite length_app. simpl. repeat split; try done. lia.
Qed.

Lemma unrealized_inv b st u :
  unrealized b st = Some u ->
  (is_open (pos st) = false /\ u = 0)
  \/ (is_open (pos st) = true /\ ~ entry_price (pos st) == 0
      /\ u = pnl_on_balance_margin leverage margin_ratio b st).
Proof.
  unfold FuturesBacktest.unrealized. intros H.
  destruct (is_open (pos st)); [| left; by injection H as <-].
  right. destruct (pdiv _ _) as [r |] eqn:Hd; [| done].
  apply pdiv_inv in Hd as [-> Hne]. by injection H as <-.
Qed.

Lemma equity_phase_inv b st st' :
  equity_phase b st = Some st' ->
  exists u,
    unrealized b st = Some u
    /\ balance st' = balance st /\ pos st' = pos st
    /\ trades st' = trades st /\ total_trades st' = total_trades st
    /\ tp_sl_levels st' = tp_sl_levels st
    /\ equity_curve st'
       = equity_curve st
         ++ [{| row_timestamp := timestamp b; row_balance := balance st;
                unrealized_pnl := u; equity := balance st + u |}]
    /\ peak_balance st <= peak_balance st'.
Proof.
  unfold FuturesBacktest.equity_phase. intros H.
  destruct (unrealized b st) as [u |]; [| done]. simpl in H.
  exists u. destruct (Qltb (peak_balance st) (balance st + u)) eqn:Hp.
  - injection H as <-. simpl. repeat split; try done.
    apply Qltb_lt in Hp. lra.
  - destruct (pdiv _ _); [| done]. injection H as <-. simpl.
    repeat split; try done. lra.
Qed.

(** One bar appends exactly one equity row, computed on the state the
    bar ends in. *)
Lemma step_equity_row b st st' :
  step b st = Some st' ->
  exists u,
    unrealized b st' = Some u
    /\ equity_curve st'
       = equity_curve st
         ++ [{| row_timestamp := timestamp b; row_balance := balance st';
                unrealized_pnl := u; equity := balance st' + u |}].
Proof.
  intros H. apply step_inv in H as (st1 & st2 & H1 & H2 & H3).
  apply exit_phase_curve in H1 as (Hc1 & _).
  apply equity_phase_inv in H3 as (u & Hu & Hb & Hp & _ & _ & _ & Hc & _).
  exists u. split.
  - unfold FuturesBacktest.unrealized in *. by rewrite Hb, Hp.
  - rewrite Hc, Hb, <- Hc1. f_equal.
    apply entry_phase_inv in H2 as [-> | H2]; [done |].
    by destruct H2 as (_ & _ & _ & _ & _ & _ & -> & _).
Qed.

Lemma run_bars_app l1 l2 st :
  run_bars (l1 ++ l2) st
  = st1 ← run_bars l1 st; run_bars l2 st1.
Proof.
  revert st. induction l1 as [| b l1 IH]; intros st; simpl; [done |].
  destruct (step b st) as [st1 |]; simpl; [apply IH | done].
Qed.

Lemma run_bars_snoc l b st st' :
  run_bars (l ++ [b]) st = Some st' ->
  exists st1, run_bars l st = Some st1 /\ step b st1 = Some st'.
Proof.
  rewrite run_bars_app. intros H.
  destruct (run_bars l st) as [st1 |]; [| done]. simpl in H.
  exists st1. split; [done |].
  destruct (step b st1) as [st2 |]; [| done]. done.
Qed.

End Run.

End RunFacts.

(** ** The trailing stop *)

Module TrailingFacts.
Import Py PyFacts FuturesBacktest ExitSpec ExitFacts RunFacts.

Section Trailing.
Variable svc : service.

Lemma effective_no_worse p :
  no_worse_than_fixed_sl svc p (effective_trailing_stop svc p).
Proof.
  unfold no_worse_than_fixed_sl, effective_trailing_stop.
  split; intros ->; simpl; [apply max_ge_r | apply min_le_r].
Qed.

(** A value computed by [_calculate_trailing_stop] is either the
    "not armed" zero or already clamped to the fixed stop-loss. *)
Lemma calculate_trailing_stop_cases p x :
  (length (tps_hit p) = 0%nat /\ _calculate_trailing_stop svc p x = 0)
  \/ no_worse_than_fixed_sl svc p (_calculate_trailing_stop svc p x).
Proof.
  unfold _calculate_trailing_stop, no_worse_than_fixed_sl.
  destruct (Z.eqb_spec (Z.of_nat (length (tps_hit p))) 1) as [E1 | E1].
  { right. split; intros ->; simpl; [apply max_ge_r | apply min_le_r]. }
  destruct (Z.leb_spec 2 (Z.of_nat (length (tps_hit p)))) as [E2 | E2].
  { right. split; intros ->; simpl; [apply max_ge_r | apply min_le_r]. }
  left. split; [lia | done].
Qed.

Lemma after_close_armed_ok p reason pct x :
  armed_ok svc p -> armed_ok svc (after_close svc p reason pct x).
Proof.
  intros Hp. unfold after_close.
  destruct (Qltb pct 1); [| by intros H; vm_compute in H].
  destruct (String.prefix "TP" reason); [| exact Hp].
  unfold armed_ok. simpl. intros Hpos.
  match goal with
  | |- no_worse_than_fixed_sl _ _ (_calculate_trailing_stop _ ?q _) =>
      destruct (calculate_trailing_stop_cases q x) as [[_ E] | H]
  end.
  - rewrite E in Hpos. by vm_compute in Hpos.
  - exact H.
Qed.

Lemma step_armed_ok leverage margin_ratio b st st' :
  armed_ok svc (pos st) ->
  step svc leverage margin_ratio b st = Some st' ->
  armed_ok svc (pos st').
Proof.
  intros Hok Hstep.
  apply step_inv in Hstep as (st1 & st2 & H1 & H2 & Hstep).
  assert (armed_ok svc (pos st1)) as Hok1.
  { destruct (is_open (pos st)) eqn:Hopen.
    - pose proof (exit_phase_open _ _ _ _ _ Hopen H1) as H.
      destruct (_check_exit_conditions svc (pos st) (price b))
        as [[[c reason] pct] p'] eqn:Hc.
      destruct c; [| by subst].
      destruct H as (? & ? & _ & _ & -> & _).
      apply after_close_armed_ok.
      apply check_exit_same_entry in Hc as (He & Hd & _ & _ & Ht & _).
      unfold armed_ok, no_worse_than_fixed_sl in *.
      by rewrite He, Hd, Ht.
    - rewrite exit_phase_flat in H1 by done. by injection H1 as <-. }
  assert (armed_ok svc (pos st2)) as Hok2.
  { apply entry_phase_inv in H2 as [-> | H2]; [done |].
    unfold armed_ok. intros H. exfalso.
    destruct H2 as (_ & _ & _ & _ & _ & _ & _ & _ & _ & _ & _ & _ & _ & _
                    & _ & _ & _ & E).
    rewrite E in H. by vm_compute in H. }
  apply equity_phase_inv in Hstep as (_ & _ & _ & -> & _). done.
Qed.

Lemma run_bars_armed_ok leverage margin_ratio bars st st' :
  armed_ok svc (pos st) ->
  run_bars svc leverage margin_ratio bars st = Some st' ->
  armed_ok svc (pos st').
Proof.
  revert st. induction bars as [| b rest IH]; intros st Hok H; simpl in H.
  - by injection H as <-.
  - destruct (step svc leverage margin_ratio b st) as [st1 |] eqn:Hs;
      [| done].
    simpl in H. eapply IH; [| exact H]. by eapply step_armed_ok.
Qed.

(** C8: whenever a trailing stop is armed, the stop the exit check
    uses is at least as favourable as the fixed stop-loss (not below it
    for a long position, not above it for a short one): at every exit
    evaluation, at the moment a take-profit exit sets the trailing
    stop, and for the stored stop on every bar of every run. *)
Theorem trailing_stop_no_worse_than_fixed_sl :
  (forall p, no_worse_than_fixed_sl svc p (effective_trailing_stop svc p))
  /\ (forall p x reason pct p',
        _check_exit_conditions svc p x = (true, reason, pct, p') ->
        String.prefix "TP" reason = true -> pct < 1 ->
        let q := after_close svc p' reason pct x in
        tps_hit q <> []
        /\ trailing_stop q = _calculate_trailing_stop svc q x
        /\ no_worse_than_fixed_sl svc q (trailing_stop q)
        /\ no_worse_than_fixed_sl svc q (effective_trailing_stop svc q))
  /\ (forall leverage margin_ratio bars initial_balance st,
        run_bars svc leverage margin_ratio bars (initial initial_balance)
        = Some st ->
        0 < trailing_stop (pos st) ->
        no_worse_than_fixed_sl svc (pos st) (trailing_stop (pos st))
        /\ no_worse_than_fixed_sl svc (pos st)
             (effective_trailing_stop svc (pos st))).
Proof.
  split; [apply effective_no_worse |]. split.
  - intros p x reason pct p' Hc Htp Hpct q.
    apply check_exit_same_entry in Hc as (_ & _ & _ & _ & _ & Hl).
    destruct (Hl Htp) as [l Hhit].
    assert (q = after_close svc p' reason pct x) as Hq by done.
    unfold after_close in Hq. apply Qltb_lt in Hpct.
    rewrite Hpct, Htp in Hq. simpl in Hq.
    assert (tps_hit q = tps_hit p ++ [l]) as Hq_hit by (by rewrite Hq).
    assert (tps_hit q <> []) as Hne.
    { rewrite Hq_hit. by destruct (tps_hit p). }
    split; [done |]. split.
    { rewrite Hq at 1. simpl. unfold _calculate_trailing_stop.
      by rewrite Hq. }
    split; [| apply effective_no_worse].
    assert (trailing_stop q = _calculate_trailing_stop svc q x) as ->.
    { rewrite Hq at 1. simpl. unfold _calculate_trailing_stop.
      by rewrite Hq. }
    destruct (calculate_trailing_stop_cases q x) as [[E _] | H]; [| done].
    destruct (tps_hit q); [done | discriminate E].
  - intros leverage margin_ratio bars ib st Hrun Harmed.
    split; [| apply effective_no_worse].
    eapply run_bars_armed_ok; [| exact Hrun | exact Harmed].
    intros H. by vm_compute in H.
Qed.

End Trailing.

End TrailingFacts.

(** ** The equity curve of a run *)

Module EquityFacts.
Import Scenarios.
Import Py PyFacts FuturesBacktest ExitSpec ExitFacts EquitySpec RunFacts.

Section Equity.
Variable svc : service.
Variables leverage margin_ratio : Q.

Local Abbreviation step := (step svc leverage margin_ratio).
Local Abbreviation run_bars := (run_bars svc leverage margin_ratio).

Lemma after_close_open p reason pct x :
  is_open (after_close svc p reason pct x) = true ->
  is_open p = true
  /\ entry_price (after_close svc p reason pct x) = entry_price p.
Proof.
  unfold after_close. repeat case_match; try done.
Qed.

Lemma exit_phase_total b st :
  (is_open (pos st) = true -> ~ entry_price (pos st) == 0) ->
  exists st1,
    exit_phase svc leverage b st = Some st1
    /\ (is_open (pos st1) = true -> ~ entry_price (pos st1) == 0).
Proof.
  intros Hne. destruct (is_open (pos st)) eqn:Hopen.
  - unfold exit_phase. rewrite Hopen.
    destruct (_check_exit_conditions svc (pos st) (price b))
      as [[[c reason] pct] p'] eqn:Hc.
    apply check_exit_same_entry in Hc as (He & _ & _ & _ & _).
    destruct c; [| eauto].
    unfold _close_position. rewrite pdiv_Some by (rewrite He; auto).
    simpl. eexists. split; [done |]. simpl. intros Ho.
    apply after_close_open in Ho as [_ ->]. rewrite He. auto.
  - exists st. split; [by apply exit_phase_flat |]. congruence.
Qed.

Lemma entry_phase_total b st :
  ~ price b == 0 ->
  (is_open (pos st) = true -> ~ entry_price (pos st) == 0) ->
  exists st2,
    entry_phase svc leverage margin_ratio b st = Some st2
    /\ (is_open (pos st2) = true -> ~ entry_price (pos st2) == 0).
Proof.
  intros Hp Hne. unfold entry_phase.
  destruct (negb (signal b =? 0)%Z && negb (is_open (pos st))); [| eauto].
  rewrite pdiv_Some by done. simpl.
  destruct (Qle_bool _ (balance st)); [| eauto].
  destruct (_calculate_tp_sl_levels svc (price b) (signal b)) as [tps sl].
  eexists. split; [done |]. done.
Qed.

Lemma equity_phase_total b st :
  sound st -> exists st', equity_phase leverage margin_ratio b st = Some st'.
Proof.
  intros [Hpeak Hne]. unfold equity_phase, unrealized.
  destruct (is_open (pos st)).
  - rewrite pdiv_Some by auto. simpl.
    destruct (Qltb _ _); [eauto |].
    rewrite pdiv_Some by lra. simpl. eauto.
  - simpl. destruct (Qltb _ _); [eauto |].
    rewrite pdiv_Some by lra. simpl. eauto.
Qed.

Lemma step_total b st :
  sound st -> ~ price b == 0 ->
  exists st', step b st = Some st' /\ sound st'.
Proof.
  intros [Hpeak Hne] Hp.
  destruct (exit_phase_total b st Hne) as (st1 & H1 & Hne1).
  destruct (entry_phase_total b st1 Hp Hne1) as (st2 & H2 & Hne2).
  assert (peak_balance st2 = peak_balance st) as Hpk.
  { apply exit_phase_curve in H1 as (_ & <- & _).
    apply entry_phase_inv in H2 as [-> | H2]; [done |].
    by destruct H2 as (_ & _ & _ & _ & _ & _ & _ & -> & _). }
  assert (sound st2) as Hs2 by (split; [by rewrite Hpk | done]).
  destruct (equity_phase_total b st2 Hs2) as (st' & H3).
  exists st'. split.
  - unfold FuturesBacktest.step. by rewrite H1; simpl; rewrite H2.
  - apply equity_phase_inv in H3 as (_ & _ & _ & Hpos & _ & _ & _ & _ & Hle).
    rewrite Hpk in Hle. split; [lra | by rewrite Hpos].
Qed.

Lemma run_bars_total bars st :
  sound st -> (forall b, b ∈ bars -> ~ price b == 0) ->
  exists st', run_bars bars st = Some st' /\ sound st'.
Proof.
  revert st. induction bars as [| b rest IH]; intros st Hs Hp; [eauto |].
  destruct (step_total b st Hs) as (st1 & H1 & Hs1).
  { apply Hp, list_elem_of_here. }
  destruct (IH st1 Hs1) as (st' & H & Hs').
  { intros b' Hb'. by apply Hp, list_elem_of_further. }
  exists st'. split; [| done]. simpl. by rewrite H1.
Qed.

(** The winning trades never outnumber the trades, and both start at
    zero: the win rate never divides by zero. *)
Lemma make_statistics_total initial_balance st :
  ~ initial_balance == 0 ->
  exists s, make_statistics leverage initial_balance st = Some s.
Proof.
  intros Hne. unfold make_statistics.
  rewrite (pdiv_Some (balance st - initial_balance)) by done.
  destruct (Z.ltb_spec 0 (total_trades st)) as [Hpos | Hle].
  - rewrite pdiv_Some; [simpl; eauto |].
    intros H. change 0 with (inject_Z 0) in H.
    rewrite inject_Z_injective in H. lia.
  - simpl. eauto.
Qed.

(** Row [i] of the curve is the row of bar [i], computed on the state
    after that bar. *)
Lemma run_bars_rows bars st0 st' :
  equity_curve st0 = [] ->
  run_bars bars st0 = Some st' ->
  length (equity_curve st') = length bars
  /\ forall i row,
      equity_curve st' !! i = Some row ->
      exists b st u,
        bars !! i = Some b
        /\ run_bars (take (S i) bars) st0 = Some st
        /\ unrealized leverage margin_ratio b st = Some u
        /\ row = {| row_timestamp := timestamp b;
                    row_balance := balance st;
                    unrealized_pnl := u; equity := balance st + u |}.
Proof.
  intros Hnil. revert st'.
  induction bars as [| b l IH] using rev_ind; intros st' H.
  - simpl in H. injection H as <-. rewrite Hnil. split; [done |].
    intros i row Hl. by rewrite lookup_nil in Hl.
  - apply run_bars_snoc in H as (st1 & Hl & Hs).
    destruct (IH _ Hl) as [Hlen Hrows].
    destruct (step_equity_row _ _ _ _ _ _ Hs) as (u & Hu & Hc).
    split; [rewrite Hc, !length_app, Hlen; done |].
    intros i row Hi. rewrite Hc in Hi.
    destruct (decide (i < length l)%nat) as [Hlt | Hge].
    + rewrite lookup_app_l in Hi by lia.
      destruct (Hrows _ _ Hi) as (b' & st & u' & Hb' & Hrun & Hu' & ->).
      exists b', st, u'. repeat split; try done.
      * by rewrite lookup_app_l.
      * by rewrite take_app_le by lia.
    + assert (i = length l) as ->.
      { apply lookup_lt_Some in Hi. rewrite length_app in Hi.
        simpl in Hi. lia. }
      rewrite lookup_app_r, Hlen, Nat.sub_diag in Hi by lia.
      injection Hi as <-. exists b, st', u. repeat split; try done.
      * by rewrite lookup_app_r, Nat.sub_diag.
      * rewrite take_ge by (rewrite length_app; simpl; lia).
        rewrite run_bars_app, Hl. simpl. by rewrite Hs.
Qed.

End Equity.

(** C2 (as the code has it): on a positive initial balance and nonzero
    prices the run returns, its equity curve has exactly one row per bar
    whatever the position state, each row's equity is its balance plus
    its unrealized PnL, and the unrealized PnL of an open position is the
    price-change fraction times the leverage on [margin_ratio] percent of
    the current balance; it is 0 when flat. *)
Theorem equity_row_every_bar svc0 signals initial_balance leverage
  margin_ratio params :
  0 < initial_balance ->
  (forall b, b ∈ signals -> ~ price b == 0) ->
  exists r,
    run_backtest svc0 signals initial_balance leverage margin_ratio params
    = Some r
    /\ equity_rows_follow (pnl_on_balance_margin leverage margin_ratio)
         (update_params svc0 params) leverage margin_ratio signals
         initial_balance (res_equity_curve r).
Proof.
  intros Hib Hprices. unfold run_backtest.
  set (svc := update_params svc0 params).
  destruct (run_bars_total svc leverage margin_ratio signals
              (initial initial_balance)) as (st & Hrun & _).
  { split; [done |]. intros H. by vm_compute in H. }
  { done. }
  destruct (make_statistics_total leverage initial_balance st) as (s & Hs).
  { lra. }
  rewrite Hrun. simpl. rewrite Hs. simpl. eexists. split; [done |]. simpl.
  destruct (run_bars_rows svc leverage margin_ratio signals
              (initial initial_balance) st eq_refl Hrun) as [Hlen Hrows].
  split; [done |]. intros i row Hi.
  destruct (Hrows _ _ Hi) as (b & sti & u & Hb & Hri & Hu & ->).
  exists b, sti. simpl. repeat split; try done.
  - intros Hflat. apply unrealized_inv in Hu as [[_ ->] | [Ho _]];
      [done | congruence].
  - intros Hopen. apply unrealized_inv in Hu as [[Hf _] | (_ & _ & ->)];
      [congruence | reflexivity].
Qed.

(** A long position opened on the first bar, one bar later. *)
Lemma equity_row_every_bar_witness :
  exists r,
    run_backtest (init None) [Bar 0 100 1; Bar 1 100.2 0] 1000 1 100 None
    = Some r
    /\ equity_rows_follow (pnl_on_balance_margin 1 100)
         (update_params (init None) None) 1 100
         [Bar 0 100 1; Bar 1 100.2 0] 1000 (res_equity_curve r).
Proof.
  apply (equity_row_every_bar (init None) [Bar 0 100 1; Bar 1 100.2 0]
           1000 1 100 None).
  - reflexivity.
  - intros b Hb H.
    apply elem_of_cons in Hb as [-> | Hb]; [by vm_compute in H |].
    apply elem_of_cons in Hb as [-> | Hb]; [by vm_compute in H |].
    by apply not_elem_of_nil in Hb.
Defined.

(** C2 as stated fails: after the quarter close at the first level the
    remaining size is 7.5 and the balance 1002.3; the row of bar 1 carries
    an unrealized PnL of 10.023, the 1% move on the balance, where the
    formula on the remaining size gives 7.5. *)
Lemma equity_row_remaining_size_counterexample :
  exists r,
    run_backtest (init None) long_then_first_level 1000 1 100 None = Some r
    /\ (exists row,
          res_equity_curve r !! 1%nat = Some row
          /\ unrealized_pnl row == 10.023)
    /\ ~ equity_rows_follow
           (fun b st => pnl_on_remaining_size 1 b (pos st))
           (init None) 1 100 long_then_first_level 1000
           (res_equity_curve r).
Proof.
  eexists. split; [by vm_compute |]. split.
  { eexists. split; [reflexivity | by vm_compute]. }
  intros [_ Hrows].
  edestruct (Hrows 1%nat) as (b & st & Hb & Hst & _ & _ & _ & _ & Hu);
    [reflexivity |].
  injection Hb as <-. vm_compute in Hst. injection Hst as <-.
  specialize (Hu eq_refl). by vm_compute in Hu.
Qed.

End EquityFacts.

(** ** What one bar does to the position *)

Module BarFacts.
Import Scenarios.
Import Py PyFacts FuturesBacktest ExitSpec ExitFacts EquitySpec RunFacts.
Import BarSpec.

(** The verdicts [_check_exit_conditions] can return. *)
Lemma check_exit_cases svc p x c reason pct p' :
  _check_exit_conditions svc p x = (c, reason, pct, p') ->
  (c = true /\ reason = "Stop Loss"%string /\ pct = 1 /\ p' = p)
  \/ (c = true /\ reason = "Trailing Stop"%string /\ pct = 1 /\ p' = p)
  \/ (c = true /\ pct = tp_close_percent svc
      /\ exists l : Z, reason = ("TP" +:+ pretty l)%string)
  \/ (c = false /\ reason = EmptyString /\ pct = 0 /\ p' = p).
Proof.
  unfold _check_exit_conditions. intros H.
  repeat case_match; simplify_eq; eauto 10.
Qed.

Lemma prefix_TP s : String.prefix "TP" ("TP" +:+ s) = true.
Proof. by destruct s. Qed.

(** The exit block reads the bar's price and timestamp only. *)
Lemma exit_phase_ignores_signal svc leverage b b' st :
  timestamp b = timestamp b' -> price b = price b' ->
  exit_phase svc leverage b st = exit_phase svc leverage b' st.
Proof. intros Ht Hp. unfold exit_phase. by rewrite Ht, Hp. Qed.

(** C1 (the code at the failing input): a long position is opened at
    100; on the next bar the price is 100.1 and the signal is -1.  The run
    ends with the long position of bar 0 still open, at full size, and no
    trade recorded. *)
Theorem opposite_signal_keeps_position :
  exists st,
    run_bars (init None) 1 100 two_bars_opposite (initial 1000) = Some st
    /\ is_open (pos st) = true /\ direction (pos st) = 1%Z
    /\ entry_time (pos st) = Some 0%Z
    /\ remaining_size (pos st) = size (pos st)
    /\ trades st = []
    /\ ~ opposite_signal_closes (init None) 1 100 two_bars_opposite 1000.
Proof.
  eexists. split; [by vm_compute |]. repeat split; try done.
  intros H.
  edestruct (H 1%nat (Bar 1 100.1 (-1))) as (t & Ht & _).
  - reflexivity.
  - by vm_compute.
  - by vm_compute.
  - reflexivity.
  - done.
  - done.
  - simpl in Ht. by destruct (app_cons_not_nil [] [] t).
Qed.

(** C9 as stated fails: the long position of bar 0 is stopped out on
    bar 1, whose signal -1 then opens a short on the same bar. *)
Lemma same_bar_reopen_counterexample :
  ~ entry_only_from_flat (init None) 1 100 stop_then_short 1000.
Proof.
  intros H.
  assert (exists st,
            state_before (init None) 1 100 stop_then_short 1000 1 st
            /\ is_open (pos st) = true) as (st & Hst & Hopen).
  { eexists. split; [by vm_compute | done]. }
  enough (is_open (pos st) = false) by congruence.
  eapply (H 1%nat (Bar 1 98 (-1))); [done | exact Hst | |].
  - vm_compute in Hst. injection Hst as <-. by vm_compute.
  - vm_compute in Hst. injection Hst as <-. by vm_compute.
Qed.

Section Bar.
Variable svc : service.
Variables leverage margin_ratio : Q.

Lemma exit_phase_levels b st st1 :
  exit_phase svc leverage b st = Some st1 ->
  length (tp_sl_levels st1) = length (tp_sl_levels st).
Proof.
  intros H. destruct (is_open (pos st)) eqn:Hopen.
  - pose proof (exit_phase_open _ _ _ _ _ Hopen H) as Hv.
    destruct (_check_exit_conditions svc (pos st) (price b))
      as [[[c reason] pct] p'].
    destruct c; [| by subst].
    by destruct Hv as (? & ? & _ & _ & _ & (_ & _ & _ & _ & ?) & _).
  - rewrite exit_phase_flat in H by done. by injection H as <-.
Qed.

(** C9 (as the code has it): a bar opens a position only if the position
    is flat when the entry block runs, which is the case when the
    simulator was flat at the start of the bar and also when the open
    position was fully closed by the exit block of the same bar; the
    new position carries the bar's timestamp, price and signal. *)
Theorem entry_only_when_flat_at_entry_check b st st' :
  step svc leverage margin_ratio b st = Some st' ->
  opens_position st st' ->
  signal b <> 0%Z
  /\ entry_time (pos st') = Some (timestamp b)
  /\ entry_price (pos st') = price b
  /\ direction (pos st') = signal b
  /\ (is_open (pos st) = false
      \/ (is_open (pos st) = true
          /\ exists t p',
              _check_exit_conditions svc (pos st) (price b)
              = (true, exit_reason t, size_closed t, p')
              /\ trades st' = trades st ++ [t]
              /\ 1 <= size_closed t)).
Proof.
  intros Hstep Hopens.
  apply step_inv in Hstep as (st1 & st2 & H1 & H2 & H3).
  apply equity_phase_inv in H3 as (_ & _ & _ & Hpos & Htr & _ & Hlv & _).
  pose proof (exit_phase_levels _ _ _ H1) as Hlen1.
  unfold opens_position in Hopens. rewrite Hlv in Hopens.
  apply entry_phase_inv in H2 as [-> | H2]; [lia |].
  destruct H2 as (Hsig & Hflat1 & _ & _ & _ & Htr2 & _ & _ & _ & _ & _
                  & Hep & Het & Hdir & _).
  rewrite Hpos. repeat split; try done.
  destruct (is_open (pos st)) eqn:Hopen; [right | by left].
  split; [done |].
  pose proof (exit_phase_open _ _ _ _ _ Hopen H1) as Hv.
  destruct (_check_exit_conditions svc (pos st) (price b))
    as [[[c reason] pct] p'] eqn:Hc.
  destruct c; [| subst; congruence].
  destruct Hv as (? & ? & _ & _ & Hp1 & _ & t & Ht & <- & <- & _).
  exists t, p'. repeat split; [by rewrite Htr, Htr2 |].
  apply check_exit_same_entry in Hc as (_ & _ & _ & Hsz & _).
  rewrite Hp1 in Hflat1. unfold after_close in Hflat1.
  destruct (Qltb (size_closed t) 1) eqn:Hlt; [| by apply Qltb_ge].
  exfalso. unfold is_open in *.
  destruct (String.prefix "TP" (exit_reason t)); simpl in Hflat1;
    rewrite Hsz in Hflat1; congruence.
Qed.

(** C10 (as the code has it): with [tp_close] strictly between 0 and 1
    a take-profit exit is a partial close: it multiplies the remaining
    size by [1 - tp_close], which keeps it nonzero and keeps it
    strictly positive when it was, and leaves the position open; the
    exit block makes an open position flat only through a full close
    with reason "Stop Loss" or "Trailing Stop". *)
Theorem take_profit_never_flattens b st st1 :
  0 < tp_close_percent svc -> tp_close_percent svc < 1 ->
  is_open (pos st) = true ->
  exit_phase svc leverage b st = Some st1 ->
  (forall t,
     trades st1 = trades st ++ [t] ->
     String.prefix "TP" (exit_reason t) = true ->
     size_closed t = tp_close_percent svc
     /\ remaining_size (pos st1)
        = remaining_size (pos st) * (1 - tp_close_percent svc)
     /\ (0 < remaining_size (pos st) -> 0 < remaining_size (pos st1))
     /\ (~ remaining_size (pos st) == 0 ->
         ~ remaining_size (pos st1) == 0)
     /\ size (pos st1) = size (pos st)
     /\ is_open (pos st1) = true)
  /\ (is_open (pos st1) = false ->
      exists t,
        trades st1 = trades st ++ [t] /\ size_closed t = 1
        /\ (exit_reason t = "Stop Loss"%string
            \/ exit_reason t = "Trailing Stop"%string)).
Proof.
  intros Hlo Hhi Hopen H1.
  pose proof (exit_phase_open _ _ _ _ _ Hopen H1) as Hv.
  destruct (_check_exit_conditions svc (pos st) (price b))
    as [[[c reason] pct] p'] eqn:Hc.
  pose proof (check_exit_same_entry _ _ _ _ _ _ _ Hc)
    as (_ & _ & Hrem & Hsz & _).
  apply check_exit_cases in Hc.
  destruct c; [| subst; split; [| congruence]].
  2: { intros t Ht. apply (f_equal length) in Ht.
       rewrite length_app in Ht. simpl in Ht. lia. }
  destruct Hv as (? & ? & _ & _ & Hp1 & _ & t & Ht & Hr & Hp & _).
  assert (forall t0, trades st1 = trades st ++ [t0] -> t0 = t) as Huniq.
  { intros t0 Ht0. rewrite Ht in Ht0.
    apply app_inj_tail in Ht0 as [_ ?]. done. }
  destruct Hc as [(_ & -> & -> & ->) | [(_ & -> & -> & ->)
                 | [(_ & -> & l & ->) | (? & _)]]]; [| | | done].
  - split.
    + intros t0 Ht0 Hpre. rewrite (Huniq _ Ht0), Hr in Hpre. done.
    + intros _. exists t. rewrite Hr, Hp. auto.
  - split.
    + intros t0 Ht0 Hpre. rewrite (Huniq _ Ht0), Hr in Hpre. done.
    + intros _. exists t. rewrite Hr, Hp. auto.
  - assert (pos st1
            = after_close svc p' ("TP" +:+ pretty l)
                (tp_close_percent svc) (price b)) as Hp1' by done.
    unfold after_close in Hp1'.
    rewrite (proj2 (Qltb_lt _ _) Hhi), prefix_TP in Hp1'.
    assert (remaining_size (pos st1)
            = remaining_size (pos st) * (1 - tp_close_percent svc))
      as Hrem1 by (by rewrite Hp1', <- Hrem).
    assert (size (pos st1) = size (pos st)) as Hsz1
      by (by rewrite Hp1', <- Hsz).
    assert (is_open (pos st1) = true) as Hopen1
      by (unfold is_open in *; by rewrite Hsz1).
    split; [| congruence].
    intros t0 Ht0 _. rewrite (Huniq _ Ht0), Hp.
    repeat split; try done.
    * rewrite Hrem1. intros Hpos. nra.
    * rewrite Hrem1. intros Hne Heq. apply Hne.
      assert (~ 1 - tp_close_percent svc == 0) as Hk by lra.
      apply Qmult_integral in Heq as [? | ?]; done.
Qed.

End Bar.

(** A position stopped out on the bar whose signal re-opens one. *)
Lemma entry_only_when_flat_at_entry_check_witness :
  exists st st',
    state_before (init None) 1 100 stop_then_short 1000 1 st
    /\ step (init None) 1 100 (Bar 1 98 (-1)) st = Some st'
    /\ is_open (pos st) = true
    /\ entry_time (pos st') = Some 1%Z
    /\ direction (pos st') = (-1)%Z.
Proof.
  eexists. eexists. split; [by vm_compute |].
  match goal with
  | |- ?s = Some _ /\ _ =>
      let r := eval vm_compute in s in
      match r with
      | Some ?x => assert (s = Some x) as Hs by (vm_compute; reflexivity)
      end
  end.
  split; [exact Hs |]. split; [done |].
  destruct (entry_only_when_flat_at_entry_check (init None) 1 100 _ _ _ Hs)
    as (_ & Ht & _ & Hd & _); [by vm_compute |].
  split; [exact Ht | exact Hd].
Defined.

(** C10 as stated fails: at leverage 10 and 100% margin the stop-loss of
    bar 1 leaves a negative balance, bar 2 opens a position of negative
    size on it, and the take-profit exit of bar 3 leaves a negative
    remaining size. *)
Lemma tp_exit_negative_remaining_counterexample :
  ~ tp_exit_leaves_positive (init None) 10 100 negative_balance_reentry 1000.
Proof.
  intros H.
  assert (exists st,
            state_before (init None) 10 100 negative_balance_reentry 1000
              3 st) as (st & Hst).
  { eexists. by vm_compute. }
  pose proof Hst as Hst'. vm_compute in Hst'. injection Hst' as Hst'.
  edestruct (H 3%nat (Bar 3 101 0) st) as [_ Hpos];
    [done | exact Hst | subst st; by vm_compute | subst st; by vm_compute
    | by vm_compute | by vm_compute in Hpos].
Qed.

(** The default quarter close on a long position at its first level. *)
Lemma take_profit_never_flattens_witness :
  exists st st1,
    state_before (init None) 1 100 [Bar 0 100 1] 1000 1 st
    /\ exit_phase (init None) 1 (Bar 1 101 0) st = Some st1
    /\ is_open (pos st1) = true.
Proof.
  eexists. eexists. split; [by vm_compute |].
  match goal with
  | |- ?s = Some _ /\ _ =>
      let r := eval vm_compute in s in
      match r with
      | Some ?x => assert (s = Some x) as Hs by (vm_compute; reflexivity)
      end
  end.
  split; [exact Hs |].
  pose proof (fun Ho => take_profit_never_flattens (init None) 1 _ _ _
                          eq_refl eq_refl Ho Hs) as Hthm.
  destruct (Hthm eq_refl) as [Htp _].
  edestruct Htp as (_ & _ & _ & _ & _ & Ho);
    [by vm_compute | by vm_compute | exact Ho].
Defined.

End BarFacts.

(** ** The optimisation score *)

Module ScoreFacts.
Import Scenarios.
Import Py PyFacts BacktestRunner.

Lemma Qltb_proper a a' b b' : a == a' -> b == b' -> Qltb a b = Qltb a' b'.
Proof.
  intros Ha Hb.
  destruct (Qltb a b) eqn:E1, (Qltb a' b') eqn:E2; try done.
  - apply Qltb_lt in E1. apply Qltb_ge in E2. lra.
  - apply Qltb_ge in E1. apply Qltb_lt in E2. lra.
Qed.

Lemma round_half_even_proper x y :
  x == y -> round_half_even x = round_half_even y.
Proof.
  intros H. unfold round_half_even.
  rewrite (Qfloor_comp _ _ H).
  rewrite (Qltb_proper (x - inject_Z (Qfloor y)) (y - inject_Z (Qfloor y))
             (1 # 2) (1 # 2)) by lra.
  rewrite (Qltb_proper (1 # 2) (1 # 2) (x - inject_Z (Qfloor y))
             (y - inject_Z (Qfloor y))) by lra.
  done.
Qed.

Lemma round2_proper x y : x == y -> round2 x = round2 y.
Proof.
  intros H. unfold round2.
  rewrite (round_half_even_proper (x * 100) (y * 100)) by lra. done.
Qed.

(** [round(x, 2)] moves [x] by at most half a hundredth. *)
Lemma round2_close x : x - (1 # 200) <= round2 x /\ round2 x <= x + (1 # 200).
Proof.
  unfold round2. destruct (round_half_even_close (x * 100)) as [Hlo Hhi].
  split; qlra.
Qed.

Lemma round2_between (a b : Z) x :
  inject_Z a <= x * 100 -> x * 100 <= inject_Z b ->
  inject_Z a / 100 <= round2 x /\ round2 x <= inject_Z b / 100.
Proof.
  intros Ha Hb. unfold round2.
  apply round_half_even_lower in Ha. apply round_half_even_upper in Hb.
  rewrite Zle_Qle in Ha, Hb. split; qlra.
Qed.

Lemma score_body_numbers stats r w d t :
  has_numbers stats r w d t ->
  score_body stats = Returns (round2 (weighted_score r w d (inject_Z t))).
Proof.
  intros (Hr & Hw & Hd & Ht). unfold score_body, getitem.
  by rewrite Hr, Hw, Hd, Ht.
Qed.

Lemma weighted_score_spec r w d t :
  weighted_score r w d (inject_Z t) == spec_score r w d t.
Proof. unfold weighted_score, spec_score. qlra. Qed.

Lemma weighted_score_bounds r w d t :
  - (100) <= r -> 0 <= w -> w <= 100 -> 0 <= d -> d <= 100 -> 0 <= t ->
  - (4) <= weighted_score r w d t /\ weighted_score r w d t <= 26.
Proof.
  intros Hr Hw0 Hw1 Hd0 Hd1 Ht. unfold weighted_score.
  destruct (min_cases (r / 100) 5) as [[? ->] | [? ->]];
    destruct (max_cases 0 (1 - d / 50)) as [[? ->] | [? ->]];
    destruct (min_cases (t / 100) 1) as [[? ->] | [? ->]];
    split; qlra.
Qed.

(** C3 (as the code has it): for a statistics record with non-negative
    trades, return at least -100, win rate and drawdown in [0, 100], the
    score is the weighted sum 10 x (0.4 min(return/100, 5) + 0.3
    win_rate/100 + 0.2 max(0, 1 - drawdown/50) + 0.1 min(trades/100, 1))
    rounded to two decimals, so within 0.005 of it, and lies in
    [-4, 26]. *)
Theorem score_rounded_weighted_sum stats r w d t :
  has_numbers stats r w d t ->
  (0 <= t)%Z -> - (100) <= r -> 0 <= w <= 100 -> 0 <= d <= 100 ->
  exists q,
    _calculate_optimization_score stats = Returns q
    /\ q = round2 (spec_score r w d t)
    /\ spec_score r w d t - (1 # 200) <= q
    /\ q <= spec_score r w d t + (1 # 200)
    /\ - (4) <= q /\ q <= 26.
Proof.
  intros Hn Ht Hr [Hw0 Hw1] [Hd0 Hd1].
  exists (round2 (spec_score r w d t)).
  unfold _calculate_optimization_score.
  rewrite (score_body_numbers _ _ _ _ _ Hn).
  rewrite (round2_proper _ _ (weighted_score_spec r w d t)).
  split; [done |]. split; [done |].
  destruct (round2_close (spec_score r w d t)) as [Hlo Hhi].
  split; [done |]. split; [done |].
  assert (0 <= inject_Z t) as Ht'.
  { change 0 with (inject_Z 0). by rewrite <- Zle_Qle. }
  destruct (weighted_score_bounds r w d (inject_Z t)) as [Hl Hu]; try done.
  rewrite weighted_score_spec in Hl, Hu.
  destruct (round2_between (-400) 2600 (spec_score r w d t)) as [Ha Hb].
  - change (inject_Z (-400)) with (- (400)). lra.
  - change (inject_Z 2600) with 2600. lra.
  - change (inject_Z (-400)) with (- (400)) in Ha.
    change (inject_Z 2600) with 2600 in Hb. split; qlra.
Qed.

(** A return of 500% with every other component at its best. *)
Lemma score_rounded_weighted_sum_witness :
  exists q,
    _calculate_optimization_score capped_return_stats = Returns q
    /\ q = round2 (spec_score 500 100 0 100)
    /\ spec_score 500 100 0 100 - (1 # 200) <= q
    /\ q <= spec_score 500 100 0 100 + (1 # 200)
    /\ - (4) <= q /\ q <= 26.
Proof.
  apply (score_rounded_weighted_sum capped_return_stats 500 100 0 100).
  - by vm_compute.
  - lia.
  - by vm_compute.
  - split; by vm_compute.
  - split; by vm_compute.
Defined.

(** C3 as stated fails twice: a 500% return with full win rate, no
    drawdown and 100 trades scores 26, outside [0, 10]; and a 0.1%
    return alone has the weighted sum 0.004 but scores the rounded 0. *)
Lemma score_range_counterexample :
  ~ score_is_formula_within_0_10 capped_return_stats 500 100 0 100
  /\ ~ score_is_formula_within_0_10 small_return_stats 0.1 0 100 0.
Proof.
  split.
  - intros (q & Hq & _ & _ & Hle). vm_compute in Hq.
    injection Hq as <-. by vm_compute in Hle.
  - intros (q & Hq & Heq & _). vm_compute in Hq.
    injection Hq as <-. by vm_compute in Heq.
Qed.

(** Both ends of the interval are reached. *)
Example score_reaches_26 :
  exists q, _calculate_optimization_score capped_return_stats = Returns q
            /\ q == 26.
Proof. eexists. split; [by vm_compute | by vm_compute]. Qed.

Example score_reaches_minus_4 :
  exists q,
    _calculate_optimization_score
      {[ "total_return"%string := PNum (- (100)); "win_rate"%string := PNum 0;
         "max_drawdown"%string := PNum 100;
         "total_trades"%string := PNum 0 ]} = Returns q
    /\ q == - (4).
Proof. eexists. split; [by vm_compute | by vm_compute]. Qed.

(** C4 (as the code has it): the score function never propagates an
    exception; whenever its body raises (a missing entry, an entry that
    is not a number) it returns 0; a record with zero trades is scored
    like any other, by the rounded weighted sum without the trade bonus,
    which is not 0 in general. *)
Theorem score_never_raises stats :
  (exists q, _calculate_optimization_score stats = Returns q)
  /\ (forall e, score_body stats = Raises e ->
                _calculate_optimization_score stats = Returns 0)
  /\ (forall r w d,
        has_numbers stats r w d 0 ->
        _calculate_optimization_score stats
        = Returns (round2 (10 * (0.4 * min (r / 100) 5 + 0.3 * (w / 100)
                                 + 0.2 * max 0 (1 - d / 50))))).
Proof.
  unfold _calculate_optimization_score. repeat split.
  - destruct (score_body stats); simpl; eauto.
  - by intros e ->.
  - intros r w d Hn. rewrite (score_body_numbers _ _ _ _ _ Hn). simpl.
    f_equal. apply round2_proper. unfold weighted_score.
    change (min (inject_Z 0 / 100) 1) with (inject_Z 0 / 100).
    change (inject_Z 0) with 0. qlra.
Qed.

(** C4 as stated fails: the statistics of a run without any trade
    (return 0, win rate 0, drawdown 0, zero trades) score 2, the full
    drawdown component, not 0. *)
Lemma zero_trade_score_counterexample :
  exists r,
    FuturesBacktest.run_backtest (FuturesBacktest.init None)
      signal_free_bars 1000 1 100 None = Some r
    /\ FuturesBacktest.res_trades r = []
    /\ (exists q,
          _calculate_optimization_score
            (stats_dict (FuturesBacktest.res_statistics r)) = Returns q
          /\ q == 2)
    /\ ~ zero_trades_score_zero
           (stats_dict (FuturesBacktest.res_statistics r)).
Proof.
  eexists. split; [by vm_compute |]. split; [done |]. split.
  - eexists. split; [by vm_compute | by vm_compute].
  - intros H. destruct H as (q & Hq & Hz); [by vm_compute |].
    vm_compute in Hq. injection Hq as <-. by vm_compute in Hz.
Qed.

End ScoreFacts.

(** ** The completion handler *)

Module PerCoinFacts.
Import Scenarios.
Import PerCoinOptimizer.

(** C5 (as the code has it): a symbol whose optimization succeeded but
    whose save failed is appended to [failed_symbols], the list that also
    receives the symbols whose optimization failed, and not to
    [completed_symbols]; it differs from an optimization failure only by
    its entry in [best_results], stored before the save, and by the
    printed line. *)
Theorem save_failure_joins_failed_symbols c s :
  (save_failed c ->
   failed_symbols (handle_completion c s) = failed_symbols s ++ [symbol c]
   /\ completed_symbols (handle_completion c s) = completed_symbols s
   /\ (exists result,
         future c = FutureReturned true (Some result)
         /\ best_results (handle_completion c s)
            = <[symbol c := result]> (best_results s))
   /\ printed (handle_completion c s)
      = printed s ++ [LogCompletedButSaveFailed (symbol c)])
  /\ (optimization_failed c ->
      failed_symbols (handle_completion c s)
      = failed_symbols s ++ [symbol c]
      /\ completed_symbols (handle_completion c s) = completed_symbols s
      /\ best_results (handle_completion c s) = best_results s
      /\ (printed (handle_completion c s)
          = printed s ++ [LogOptimizationFailed (symbol c)]
          \/ printed (handle_completion c s)
             = printed s ++ [LogError (symbol c)])).
Proof.
  split.
  - intros [[result Hf] Hs]. unfold handle_completion.
    rewrite Hf, Hs. simpl. eauto 10.
  - intros [Hf | [[result Hf] | [success Hf]]]; unfold handle_completion;
      rewrite Hf; simpl.
    + auto.
    + destruct result; auto.
    + destruct success; auto.
Qed.

(** C5 as stated fails: ETHUSDT fails to optimize, BTCUSDT optimizes
    but cannot be saved; both end in [failed_symbols]. *)
Lemma save_failure_counterexample :
  failed_symbols (process_completed two_failures idle)
  = ["ETHUSDT"; "BTCUSDT"]%string
  /\ ~ save_failure_kept_apart two_failures.
Proof.
  split; [reflexivity |]. intros H.
  apply (H (Completion "BTCUSDT"
              (FutureReturned true (Some (OptResult 7.5 42))) false)).
  - unfold two_failures. apply elem_of_cons. right. apply list_elem_of_here.
  - split; [by eexists | done].
  - simpl. apply elem_of_cons. right. apply list_elem_of_here.
Qed.

End PerCoinFacts.

(** ** The weak-signal filter *)

Module StrategyFacts.
Import Scenarios.
Import Py PyFacts MACDSMAStrategy.

(** Where the blended strength is a number, the filter does what it
    says: a strength below 0.2 zeroes the signal. *)
Lemma weak_number_zeroed s f i c v :
  blended_strength s f i = Some v -> v < 0.2 ->
  signal (signal_row s f i c) = 0%Z /\ signal_strength (signal_row s f i c) = v.
Proof.
  intros Hv Hlt. unfold signal_row, weak_signal, lt, gt. rewrite Hv. simpl.
  by rewrite (proj2 (Qltb_lt _ _) Hlt).
Qed.

(** The 20-bar mean has no value on the first 19 rows. *)
Lemma rolling_mean_warm_up xs i :
  (i < 19)%nat -> at_ (rolling_mean 20 xs) i = None.
Proof.
  intros Hi. unfold at_, rolling_mean. rewrite list_lookup_imap.
  assert ((20 <=? i + 1)%nat = false) as E by (apply Nat.leb_gt; lia).
  cbv beta. rewrite E. by destruct (xs !! i).
Qed.

Lemma blended_strength_warm_up s f i :
  (i < 19)%nat -> blended_strength s f i = None.
Proof.
  intros Hi. unfold blended_strength, strength_of.
  rewrite !rolling_mean_warm_up by done. simpl.
  destruct (at_ (absolute (macd f)) i); done.
Qed.

(** So no signal of the first 19 rows is ever filtered, and each is
    returned with strength 0. *)
Lemma warm_up_row s f i c :
  (i < 19)%nat ->
  signal (signal_row s f i c) = crossover_signal s f i
  /\ signal_strength (signal_row s f i c) = 0.
Proof.
  intros Hi. unfold signal_row, weak_signal.
  by rewrite blended_strength_warm_up.
Qed.

(** C7 (the code at the failing input): five candles closing at 104,
    100, 102, 99, 98 with lengths fast 2, slow 3, signal 2, trend 5.  The
    histogram crosses below zero on the last candle, whose row is returned
    as a short signal with strength 0: its strength was NaN, NaN is not
    below 0.2, and [fillna(0)] then turned it into 0. *)
Theorem warm_up_signal_escapes_filter :
  exists rows,
    generate_signals (Strategy 2 3 2 5) early_crossunder = Some rows
    /\ rows !! 4%nat = Some (SignalPoint 98 (-1) 0)
    /\ ~ weak_signals_suppressed (Strategy 2 3 2 5) early_crossunder.
Proof.
  eexists. split; [by vm_compute |]. split; [done |].
  intros H.
  enough ((-1)%Z = 0%Z) by done.
  apply (H _ (SignalPoint 98 (-1) 0) eq_refl).
  - do 4 apply list_elem_of_further. apply list_elem_of_here.
  - reflexivity.
Qed.

End StrategyFacts.

(** ** The take-profit ladder and the entry block *)

Module LadderFacts.
Import Py PyFacts FuturesBacktest ExitSpec ExitFacts EquitySpec RunFacts.
Import BarSpec.

Lemma level_range_length first n : length (level_range first n) = n.
Proof.
  revert first. induction n as [| n IH]; intros first; simpl; [done |].
  by rewrite IH.
Qed.

Lemma level_range_lookup first n i :
  (i < n)%nat -> level_range first n !! i = Some (first + Z.of_nat i)%Z.
Proof.
  revert first i. induction n as [| n IH]; intros first i Hi; [lia |].
  destruct i as [| i]; simpl.
  - f_equal. lia.
  - rewrite IH by lia. f_equal. lia.
Qed.

Section Ladder.
Variable svc : service.

Lemma ladder_lookup entry dir tps sl i tp :
  _calculate_tp_sl_levels svc entry dir = (tps, sl) ->
  tps !! i = Some tp ->
  (i < Z.to_nat (max_tps svc))%nat
  /\ level tp = Z.of_nat (S i)
  /\ hit tp = false
  /\ tp_percent tp = tp_base_percent svc * inject_Z (Z.of_nat (S i))
  /\ tp_price tp
     = if (dir =? 1)%Z then entry * (1 + tp_percent tp / 100)
       else entry * (1 - tp_percent tp / 100).
Proof.
  unfold _calculate_tp_sl_levels. intros [= <- <-] Hi.
  rewrite list_lookup_fmap in Hi.
  destruct (level_range 1 (Z.to_nat (max_tps svc)) !! i) as [l |] eqn:Hl;
    [| done].
  assert (i < Z.to_nat (max_tps svc))%nat as Hlt.
  { apply lookup_lt_Some in Hl. by rewrite level_range_length in Hl. }
  rewrite level_range_lookup in Hl by done. injection Hl as <-.
  injection Hi as <-. simpl.
  replace (1 + Z.of_nat i)%Z with (Z.of_nat (S i)) by lia. done.
Qed.

(** X1: with a positive entry price and a positive [tp_base], the
    ladder has [max_tps] levels numbered 1, 2, ..., none hit; every
    level lies on the profit side of the entry and each level is
    strictly farther from the entry than the one before; the stop-loss
    returned with the ladder is the fixed stop-loss the exit check
    uses. *)
Theorem tp_ladder_strictly_ordered entry dir tps sl :
  0 < entry -> 0 < tp_base_percent svc ->
  _calculate_tp_sl_levels svc entry dir = (tps, sl) ->
  length tps = Z.to_nat (max_tps svc)
  /\ sl = _get_fixed_sl_level svc entry dir
  /\ (forall i tp,
        tps !! i = Some tp ->
        level tp = Z.of_nat (S i) /\ hit tp = false
        /\ (dir = 1%Z -> entry < tp_price tp)
        /\ (dir <> 1%Z -> tp_price tp < entry))
  /\ (forall i j a b,
        (i < j)%nat -> tps !! i = Some a -> tps !! j = Some b ->
        (dir = 1%Z -> tp_price a < tp_price b)
        /\ (dir <> 1%Z -> tp_price b < tp_price a)).
Proof.
  intros He Hb Hcalc.
  assert (forall k : nat, 0 < inject_Z (Z.of_nat (S k))) as Hk.
  { intros k. change 0 with (inject_Z 0). rewrite <- Zlt_Qlt. lia. }
  assert (forall i j : nat,
            (i < j)%nat ->
            inject_Z (Z.of_nat (S i)) < inject_Z (Z.of_nat (S j))) as Hmono.
  { intros i j Hij. rewrite <- Zlt_Qlt. lia. }
  split; [| split; [| split]].
  - unfold _calculate_tp_sl_levels in Hcalc. injection Hcalc as <- _.
    by rewrite length_fmap, level_range_length.
  - unfold _calculate_tp_sl_levels in Hcalc. by injection Hcalc as _ <-.
  - intros i tp Hi.
    destruct (ladder_lookup _ _ _ _ _ _ Hcalc Hi)
      as (_ & Hl & Hh & Hp & Hpr).
    split; [done |]. split; [done |]. rewrite Hpr, Hp.
    specialize (Hk i).
    set (k := inject_Z (Z.of_nat (S i))) in *.
    assert (0 < tp_base_percent svc * k) as Hpos by nra.
    split; intros Hd.
    + rewrite Hd. simpl. unfold Qdiv. change (/ 100) with (1 # 100). nra.
    + destruct (Z.eqb_spec dir 1); [done |].
      unfold Qdiv. change (/ 100) with (1 # 100). nra.
  - intros i j a b Hij Hi Hj.
    destruct (ladder_lookup _ _ _ _ _ _ Hcalc Hi) as (_ & _ & _ & Hpa & Ha).
    destruct (ladder_lookup _ _ _ _ _ _ Hcalc Hj) as (_ & _ & _ & Hpb & Hb').
    rewrite Ha, Hb', Hpa, Hpb.
    specialize (Hmono i j Hij).
    set (ki := inject_Z (Z.of_nat (S i))) in *.
    set (kj := inject_Z (Z.of_nat (S j))) in *.
    assert (tp_base_percent svc * ki < tp_base_percent svc * kj) as Hlt
      by nra.
    split; intros Hd.
    + rewrite Hd. simpl. unfold Qdiv. change (/ 100) with (1 # 100). nra.
    + destruct (Z.eqb_spec dir 1); [done |].
      unfold Qdiv. change (/ 100) with (1 # 100). nra.
Qed.

End Ladder.

(** The default ladder of a long entered at 100. *)
Lemma tp_ladder_strictly_ordered_witness :
  length (_calculate_tp_sl_levels (init None) 100 1).1 = 10%nat.
Proof.
  destruct (tp_ladder_strictly_ordered (init None) 100 1
              (_calculate_tp_sl_levels (init None) 100 1).1
              (_calculate_tp_sl_levels (init None) 100 1).2)
    as [Hlen _]; [reflexivity | reflexivity | reflexivity |].
  exact Hlen.
Defined.

End LadderFacts.

(** ** Margin, ledger and drawdown *)

Module LedgerFacts.
Import Py PyFacts FuturesBacktest ExitSpec ExitFacts EquitySpec RunFacts.
Import BarSpec LedgerSpec.

Section Ledger.
Variable svc : service.
Variables leverage margin_ratio : Q.

Local Abbreviation step := (step svc leverage margin_ratio).
Local Abbreviation run_bars := (run_bars svc leverage margin_ratio).

(** X2: a bar opens a position only when the margin,
    [margin_ratio] percent of the balance, does not exceed the balance;
    the position then has the size [margin x leverage / price], all of
    it remaining, no level hit and no trailing stop. *)
Theorem entry_requires_margin b st st' :
  step b st = Some st' ->
  opens_position st st' ->
  balance st' * (margin_ratio / 100) <= balance st'
  /\ size (pos st')
     = balance st' * (margin_ratio / 100) * leverage / price b
  /\ remaining_size (pos st') = size (pos st')
  /\ tps_hit (pos st') = [] /\ trailing_stop (pos st') = 0.
Proof.
  intros Hstep Hopens.
  apply step_inv in Hstep as (st1 & st2 & H1 & H2 & H3).
  apply equity_phase_inv in H3 as (_ & _ & Hb & Hp & _ & _ & Hlv & _).
  pose proof (BarFacts.exit_phase_levels _ _ _ _ _ H1) as Hlen1.
  unfold opens_position in Hopens. rewrite Hlv in Hopens.
  apply entry_phase_inv in H2 as [-> | H2]; [lia |].
  destruct H2 as (_ & _ & _ & Hm & Hb2 & _ & _ & _ & _ & _ & _ & _ & _ & _
                  & Hsz & Hrem & Hh & Ht).
  rewrite Hp, Hb, Hb2. done.
Qed.

(** The entry block does nothing when the margin exceeds the
    balance. *)
Lemma entry_phase_without_margin b st st' :
  balance st < balance st * (margin_ratio / 100) ->
  entry_phase svc leverage margin_ratio b st = Some st' -> st' = st.
Proof.
  intros Hlt H. apply entry_phase_inv in H as [-> | H]; [done |].
  destruct H as (_ & _ & _ & Hm & _). lra.
Qed.

Lemma wins_app ts t :
  wins (ts ++ [t])
  = (wins ts + if Qltb 0 (trade_pnl t) then 1 else 0)%nat.
Proof.
  unfold wins. rewrite filter_app, length_app. f_equal.
  rewrite filter_cons, filter_nil.
  destruct (Qltb 0 (trade_pnl t)) eqn:E; case_decide; done.
Qed.

Lemma trade_sum_app ts t : trade_sum (ts ++ [t]) == trade_sum ts + trade_pnl t.
Proof.
  induction ts as [| a ts IH]; simpl; [lra |].
  unfold trade_sum in *. simpl. rewrite IH. lra.
Qed.

Lemma exit_phase_ledger ib b st st1 :
  exit_phase svc leverage b st = Some st1 -> ledger ib st -> ledger ib st1.
Proof.
  unfold exit_phase. intros H (Hb & Hp & Ht & Hw).
  destruct (is_open (pos st)); [| by injection H as <-].
  destruct (_check_exit_conditions svc (pos st) (price b))
    as [[[c reason] pct] p'].
  destruct c; [| by injection H as <-].
  destruct (_close_position svc p' (price b) pct leverage)
    as [[pnl commission] |]; [| done].
  simpl in H. injection H as <-. unfold ledger. simpl.
  rewrite trade_sum_app, wins_app, length_app. simpl.
  repeat split.
  - lra.
  - lra.
  - lia.
  - destruct (Qltb 0 pnl); lia.
Qed.

Lemma step_ledger ib b st st' :
  step b st = Some st' -> ledger ib st -> ledger ib st'.
Proof.
  intros Hstep Hl.
  apply step_inv in Hstep as (st1 & st2 & H1 & H2 & H3).
  apply (exit_phase_ledger ib) in H1; [| done].
  assert (ledger ib st2) as Hl2.
  { unfold entry_phase in H2.
    destruct (negb (signal b =? 0)%Z && negb (is_open (pos st1)));
      [| by injection H2 as <-].
    destruct (pdiv _ _); [| done]. simpl in H2.
    destruct (Qle_bool _ _); [| by injection H2 as <-].
    injection H2 as <-. exact H1. }
  unfold equity_phase in H3.
  destruct (unrealized _ _ _ _) as [u |]; [| done]. simpl in H3.
  destruct (Qltb _ _); [by injection H3 as <- |].
  destruct (pdiv _ _); [| done]. by injection H3 as <-.
Qed.

Lemma run_bars_ledger ib bars st st' :
  run_bars bars st = Some st' -> ledger ib st -> ledger ib st'.
Proof.
  revert st. induction bars as [| b rest IH]; intros st H Hl; simpl in H.
  - by injection H as <-.
  - destruct (step b st) as [st1 |] eqn:Hs; [| done]. simpl in H.
    eapply IH; [exact H |]. by eapply step_ledger.
Qed.

Lemma wins_le ts : (wins ts <= length ts)%nat.
Proof. unfold wins. apply length_filter. Qed.

Lemma step_trades_grow b st st' :
  step b st = Some st' ->
  (length (trades st') <= S (length (trades st)))%nat.
Proof.
  intros Hstep. apply step_inv in Hstep as (st1 & st2 & H1 & H2 & H3).
  apply equity_phase_inv in H3 as (_ & _ & _ & _ & -> & _).
  assert (trades st2 = trades st1) as ->.
  { apply entry_phase_inv in H2 as [-> | H2]; [done |].
    by destruct H2 as (_ & _ & _ & _ & _ & -> & _). }
  destruct (is_open (pos st)) eqn:Hopen.
  - pose proof (exit_phase_open _ _ _ _ _ Hopen H1) as Hv.
    destruct (_check_exit_conditions svc (pos st) (price b))
      as [[[c reason] pct] p'].
    destruct c; [| subst; lia].
    destruct Hv as (? & ? & _ & _ & _ & _ & t & -> & _).
    rewrite length_app. simpl. lia.
  - rewrite exit_phase_flat in H1 by done. injection H1 as <-. lia.
Qed.

Lemma run_bars_trades_grow bars st st' :
  run_bars bars st = Some st' ->
  (length (trades st') <= length (trades st) + length bars)%nat.
Proof.
  revert st. induction bars as [| b rest IH]; intros st H; simpl in H.
  - injection H as <-. lia.
  - destruct (step b st) as [st1 |] eqn:Hs; [| done]. simpl in H.
    apply IH in H. apply step_trades_grow in Hs. simpl. lia.
Qed.

End Ledger.

(** The first bar of a run on 1000 at leverage 1 and 100% margin opens
    a long of size 10. *)
Lemma entry_requires_margin_witness :
  exists st',
    step (init None) 1 100 (Bar 0 100 1) (initial 1000) = Some st'
    /\ size (pos st') = balance st' * (100 / 100) * 1 / 100
    /\ remaining_size (pos st') = size (pos st').
Proof.
  eexists. evaluate_some Hs. split; [exact Hs |].
  destruct (entry_requires_margin (init None) 1 100 _ _ _ Hs)
    as (_ & Hsize & Hrem & _); [by vm_compute |].
  split; [exact Hsize | exact Hrem].
Defined.

(** X3: the statistics of a run agree with its trade list: the final
    balance is the initial balance plus the net PnL of the trades, which
    is the reported total PnL; the trade count is the number of trade
    records, at most one per bar; the winning trades are those with a
    positive net PnL; the win rate lies in [0, 100]. *)
Theorem statistics_match_trades svc0 signals initial_balance leverage
  margin_ratio params r :
  run_backtest svc0 signals initial_balance leverage margin_ratio params
  = Some r ->
  let s := res_statistics r in
  stat_final_balance s == initial_balance + trade_sum (res_trades r)
  /\ stat_total_pnl s == trade_sum (res_trades r)
  /\ stat_total_trades s = Z.of_nat (length (res_trades r))
  /\ (length (res_trades r) <= length signals)%nat
  /\ stat_winning_trades s = Z.of_nat (wins (res_trades r))
  /\ 0 <= stat_win_rate s /\ stat_win_rate s <= 100
  /\ (res_trades r = [] -> stat_win_rate s = 0).
Proof.
  unfold run_backtest. intros H.
  destruct (run_bars _ _ _ _ _) as [st |] eqn:Hrun; [| done]. simpl in H.
  destruct (make_statistics _ _ _) as [s |] eqn:Hs; [| done].
  injection H as <-. simpl.
  pose proof (run_bars_ledger _ _ _ initial_balance _ _ _ Hrun) as Hl.
  destruct Hl as (Hb & Hp & Ht & Hw).
  { unfold ledger, initial. simpl. repeat split; try done. lra. }
  pose proof (run_bars_trades_grow _ _ _ _ _ _ Hrun) as Hlen.
  pose proof (wins_le (trades st)) as Hwl.
  unfold make_statistics in Hs.
  destruct (Z.ltb_spec 0 (total_trades st)) as [Hpos | Hzero].
  - destruct (pdiv (inject_Z (winning_trades st)) _) as [wr |] eqn:Hd;
      [| done].
    simpl in Hs. destruct (pdiv (balance st - _) _) as [ret |]; [| done].
    injection Hs as <-. simpl.
    apply pdiv_inv in Hd as [-> Hne].
    assert (0 < inject_Z (total_trades st)) as Hq.
    { change 0 with (inject_Z 0). rewrite <- Zlt_Qlt. done. }
    assert (0 <= inject_Z (winning_trades st)) as Hw0.
    { change 0 with (inject_Z 0). rewrite <- Zle_Qle. lia. }
    assert (inject_Z (winning_trades st) <= inject_Z (total_trades st))
      as Hw1.
    { rewrite <- Zle_Qle. lia. }
    assert (0 <= inject_Z (winning_trades st) / inject_Z (total_trades st)
            /\ inject_Z (winning_trades st) / inject_Z (total_trades st)
               <= 1) as [Hr0 Hr1].
    { split.
      - apply Qle_shift_div_l; [done | lra].
      - apply Qle_shift_div_r; [done | lra]. }
    set (ratio := inject_Z (winning_trades st) / inject_Z (total_trades st))
      in *.
    split; [lra |]. split; [done |]. split; [done |].
    split; [simpl in Hlen; lia |]. split; [done |].
    split; [lra |]. split; [lra |].
    intros Hnil. rewrite Hnil in Ht. simpl in Ht. lia.
  - simpl in Hs. destruct (pdiv (balance st - _) _) as [ret |]; [| done].
    injection Hs as <-. simpl.
    split; [lra |]. split; [done |]. split; [done |].
    split; [simpl in Hlen; lia |]. split; [done |].
    split; [lra |]. split; [lra |]. done.
Qed.

(** The run that enters a long at 100 and takes its first level at
    101. *)
Lemma statistics_match_trades_witness :
  exists r,
    run_backtest (init None) Scenarios.long_then_first_level 1000 1 100
      None = Some r
    /\ stat_total_trades (res_statistics r)
       = Z.of_nat (length (res_trades r))
    /\ stat_final_balance (res_statistics r)
       == 1000 + trade_sum (res_trades r).
Proof.
  eexists. evaluate_some Hs. split; [exact Hs |].
  destruct (statistics_match_trades _ _ _ _ _ _ _ Hs)
    as (Hb & _ & Ht & _).
  split; [exact Ht | exact Hb].
Defined.

End LedgerFacts.

(** ** Peak and drawdown *)

Module DrawdownFacts.
Import Py PyFacts FuturesBacktest ExitSpec ExitFacts EquitySpec RunFacts.
Import LedgerSpec.

Section Drawdown.
Variable svc : service.
Variables leverage margin_ratio : Q.

Local Abbreviation step := (step svc leverage margin_ratio).
Local Abbreviation run_bars := (run_bars svc leverage margin_ratio).

(** What the drawdown block does with the equity [e] of the bar. *)
Lemma equity_phase_drawdown b st st' :
  equity_phase leverage margin_ratio b st = Some st' ->
  exists row,
    equity_curve st' = equity_curve st ++ [row]
    /\ ((peak_balance st < equity row /\ peak_balance st' = equity row
         /\ max_drawdown st' = max_drawdown st)
        \/ (equity row <= peak_balance st
            /\ peak_balance st' = peak_balance st
            /\ ~ peak_balance st == 0
            /\ max_drawdown st'
               = max (max_drawdown st)
                   ((peak_balance st - equity row) / peak_balance st))).
Proof.
  unfold equity_phase. intros H.
  destruct (unrealized _ _ _ _) as [u |]; [| done]. simpl in H.
  destruct (Qltb (peak_balance st) (balance st + u)) eqn:Hp.
  - injection H as <-. simpl. apply Qltb_lt in Hp.
    eexists. split; [done |]. left. simpl. done.
  - destruct (pdiv _ _) as [d |] eqn:Hd; [| done].
    apply pdiv_inv in Hd as [-> Hne]. injection H as <-. simpl.
    apply Qltb_ge in Hp.
    eexists. split; [done |]. right. simpl. done.
Qed.

Lemma step_drawdown b st st' :
  step b st = Some st' ->
  exists row,
    equity_curve st' = equity_curve st ++ [row]
    /\ ((peak_balance st < equity row /\ peak_balance st' = equity row
         /\ max_drawdown st' = max_drawdown st)
        \/ (equity row <= peak_balance st
            /\ peak_balance st' = peak_balance st
            /\ ~ peak_balance st == 0
            /\ max_drawdown st'
               = max (max_drawdown st)
                   ((peak_balance st - equity row) / peak_balance st))).
Proof.
  intros Hstep. apply step_inv in Hstep as (st1 & st2 & H1 & H2 & H3).
  apply exit_phase_curve in H1 as (Hc1 & Hp1 & Hd1).
  assert (equity_curve st2 = equity_curve st
          /\ peak_balance st2 = peak_balance st
          /\ max_drawdown st2 = max_drawdown st) as (Hc2 & Hp2 & Hd2).
  { apply entry_phase_inv in H2 as [-> | H2]; [done |].
    destruct H2 as (_ & _ & _ & _ & _ & _ & -> & -> & -> & _). done. }
  apply equity_phase_drawdown in H3 as (row & Hc & Hcase).
  exists row. rewrite Hc2, Hp2, Hd2 in *. done.
Qed.

(** X4: over any stretch of a run the peak equity and the maximum
    drawdown never decrease. *)
Theorem peak_and_drawdown_monotone bars st st' :
  run_bars bars st = Some st' ->
  peak_balance st <= peak_balance st'
  /\ max_drawdown st <= max_drawdown st'.
Proof.
  revert st. induction bars as [| b rest IH]; intros st H; simpl in H.
  - injection H as <-. split; lra.
  - destruct (step b st) as [st1 |] eqn:Hs; [| done]. simpl in H.
    destruct (IH _ H) as [Hp Hd].
    apply step_drawdown in Hs as (row & _ & [(Hlt & Hp1 & Hd1)
                                           | (_ & Hp1 & _ & Hd1)]).
    + rewrite Hp1 in Hp. rewrite Hd1 in Hd. split; lra.
    + rewrite Hp1 in Hp. rewrite Hd1 in Hd.
      pose proof (max_ge_l (max_drawdown st)
                    ((peak_balance st - equity row) / peak_balance st)).
      split; lra.
Qed.



End Drawdown.


(** The run that enters a long at 100 and is stopped out at 98. *)
Lemma peak_and_drawdown_monotone_witness :
  exists st',
    run_bars (init None) 1 100 Scenarios.stop_then_short (initial 1000)
    = Some st'
    /\ peak_balance (initial 1000) <= peak_balance st'
    /\ max_drawdown (initial 1000) <= max_drawdown st'.
Proof.
  eexists. evaluate_some Hs. split; [exact Hs |].
  exact (peak_and_drawdown_monotone (init None) 1 100 _ _ _ Hs).
Defined.


End DrawdownFacts.

(** ** The sign of a close; runs without signals *)

Module CloseFacts.
Import Py PyFacts FuturesBacktest ExitSpec ExitFacts EquitySpec RunFacts.

Section Close.
Variable svc : service.

(** X6: a stop-loss exit of a position of positive size is a losing
    trade: with a positive entry price, leverage and stop-loss percent
    and a commission rate that is not negative, the net PnL of the full
    close is negative, so the trade is never counted as a win. *)
Theorem stop_loss_close_loses p x leverage pnl commission :
  0 < remaining_size p -> 0 < entry_price p -> 0 < leverage ->
  0 < sl_percent svc -> 0 <= commission_rate svc ->
  stop_loss_reached svc p x ->
  _close_position svc p x 1 leverage = Some (pnl, commission) ->
  pnl < 0 /\ 0 <= commission /\ Qltb 0 pnl = false.
Proof.
  intros Hrem He Hlev Hsl Hrate Hreach Hclose.
  apply close_position_inv in Hclose as (Hne & Hc & Hp). simpl in Hc, Hp.
  set (move := if (direction p =? 1)%Z then x - entry_price p
               else entry_price p - x) in *.
  assert (move < 0) as Hmove.
  { unfold move, stop_loss_reached, _get_fixed_sl_level in *.
    destruct Hreach as [[Hd Hx] | [Hd Hx]]; rewrite Hd in *; simpl in *.
    - unfold Qdiv in Hx. change (/ 100) with (1 # 100) in Hx. nra.
    - unfold Qdiv in Hx. change (/ 100) with (1 # 100) in Hx. nra. }
  set (d := move / entry_price p) in *.
  assert (d * entry_price p == move) as Hd by (unfold d; field; done).
  assert (d < 0) as Hdneg by nra.
  set (v := remaining_size p * 1 * entry_price p) in *.
  assert (0 < v) as Hv by (unfold v; nra).
  assert (0 <= commission) as Hc0 by (rewrite Hc; nra).
  assert (d * v < 0) as Hdv by nra.
  assert (pnl < 0) as Hneg.
  { rewrite Hp. unfold Qdiv. change (/ 100) with (1 # 100). nra. }
  split; [done |]. split; [done |]. apply Qltb_ge. lra.
Qed.

(** X7: a take-profit exit of a position of positive size at a level
    [percent] away from the entry nets at least the closed value times
    [percent / 100 x leverage - 2 x commission_rate]; it is a winning
    trade as soon as that margin is positive. *)
Theorem take_profit_close_gains p x tp leverage pnl commission :
  0 < remaining_size p -> 0 < entry_price p -> 0 < leverage ->
  0 < tp_close_percent svc ->
  level_reached (direction p) x tp ->
  tp_price tp
  = (if (direction p =? 1)%Z
     then entry_price p * (1 + tp_percent tp / 100)
     else entry_price p * (1 - tp_percent tp / 100)) ->
  _close_position svc p x (tp_close_percent svc) leverage
  = Some (pnl, commission) ->
  let closed_value :=
    remaining_size p * tp_close_percent svc * entry_price p in
  0 < closed_value
  /\ closed_value
     * (tp_percent tp / 100 * leverage - 2 * commission_rate svc) <= pnl
  /\ (2 * commission_rate svc < tp_percent tp / 100 * leverage ->
      0 < pnl).
Proof.
  intros Hrem He Hlev Hpct [_ Hreach] Hprice Hclose.
  apply close_position_inv in Hclose as (Hne & Hc & Hp). simpl in Hc, Hp.
  set (move := if (direction p =? 1)%Z then x - entry_price p
               else entry_price p - x) in *.
  assert (entry_price p * (tp_percent tp / 100) <= move) as Hmove.
  { unfold move. destruct Hreach as [[Hd Hx] | [Hd Hx]];
      rewrite Hd in *; simpl in *; rewrite Hprice in Hx;
      unfold Qdiv in *; change (/ 100) with (1 # 100) in *; nra. }
  set (d := move / entry_price p) in *.
  assert (d * entry_price p == move) as Hd by (unfold d; field; done).
  assert (tp_percent tp / 100 <= d) as Hdge.
  { unfold Qdiv in *. change (/ 100) with (1 # 100) in *. nra. }
  set (v := remaining_size p * tp_close_percent svc * entry_price p) in *.
  assert (0 < v) as Hv.
  { unfold v. repeat apply Qmult_lt_0_compat; done. }
  assert (tp_percent tp / 100 * (v * leverage) <= d * (v * leverage))
    as Hprod.
  { apply Qmult_le_compat_r; [done | nra]. }
  simpl.
  assert (v * (tp_percent tp / 100 * leverage - 2 * commission_rate svc)
          <= pnl) as Hlow.
  { rewrite Hp, Hc. unfold Qdiv in *. change (/ 100) with (1 # 100) in *.
    nra. }
  split; [done |]. split; [done |]. intros Hmargin. nra.
Qed.

End Close.

Section Quiet.
Variable svc : service.
Variables leverage margin_ratio : Q.

Local Abbreviation step := (step svc leverage margin_ratio).
Local Abbreviation run_bars := (run_bars svc leverage margin_ratio).

Lemma step_without_signal b st st' :
  signal b = 0%Z -> is_open (pos st) = false ->
  step b st = Some st' ->
  balance st' = balance st /\ pos st' = pos st /\ trades st' = trades st
  /\ tp_sl_levels st' = tp_sl_levels st
  /\ total_trades st' = total_trades st
  /\ equity_curve st'
     = equity_curve st
       ++ [{| row_timestamp := timestamp b; row_balance := balance st;
              unrealized_pnl := 0; equity := balance st + 0 |}].
Proof.
  intros Hsig Hflat Hstep.
  apply step_inv in Hstep as (st1 & st2 & H1 & H2 & H3).
  rewrite exit_phase_flat in H1 by done. injection H1 as <-.
  unfold entry_phase in H2. rewrite Hsig in H2. simpl in H2.
  injection H2 as <-.
  apply equity_phase_inv in H3 as (u & Hu & -> & -> & -> & -> & -> & -> & _).
  unfold unrealized in Hu. rewrite Hflat in Hu. injection Hu as <-. done.
Qed.

Lemma run_bars_without_signal bars st st' :
  (forall b, b ∈ bars -> signal b = 0%Z) ->
  is_open (pos st) = false ->
  run_bars bars st = Some st' ->
  balance st' = balance st /\ is_open (pos st') = false
  /\ trades st' = trades st /\ tp_sl_levels st' = tp_sl_levels st
  /\ total_trades st' = total_trades st
  /\ (forall row,
        row ∈ equity_curve st' ->
        row ∈ equity_curve st
        \/ (row_balance row = balance st /\ unrealized_pnl row = 0
            /\ equity row = balance st + 0)).
Proof.
  revert st. induction bars as [| b rest IH]; intros st Hsig Hflat H;
    simpl in H.
  - injection H as <-. repeat split; try done. by left.
  - destruct (step b st) as [st1 |] eqn:Hs; [| done]. simpl in H.
    apply step_without_signal in Hs
      as (Hb & Hp & Ht & Hl & Hn & Hc);
      [| apply Hsig, list_elem_of_here | done].
    destruct (IH st1) as (Hb' & Hf' & Ht' & Hl' & Hn' & Hrows); try done.
    { intros b' Hb'. by apply Hsig, list_elem_of_further. }
    { by rewrite Hp. }
    rewrite Hb', Ht', Hl', Hn', Hb, Ht, Hl, Hn.
    repeat split; try done.
    intros row Hrow. destruct (Hrows row Hrow) as [Hin | Hnew].
    + rewrite Hc in Hin. apply elem_of_app in Hin as [Hin | Hin];
        [by left |].
      apply list_elem_of_singleton in Hin as ->. by right.
    + right. by rewrite <- Hb.
Qed.

End Quiet.

(** X8: a run whose signals are all 0 never opens a position and
    records no trade; every equity row carries the initial balance with no
    unrealized PnL, and the statistics report zero trades, the initial
    balance as final balance and a win rate of 0. *)
Theorem run_without_signals_is_flat svc0 signals initial_balance leverage
  margin_ratio params r :
  (forall b, b ∈ signals -> signal b = 0%Z) ->
  run_backtest svc0 signals initial_balance leverage margin_ratio params
  = Some r ->
  res_trades r = [] /\ res_tp_sl_levels r = []
  /\ (forall row,
        row ∈ res_equity_curve r ->
        row_balance row = initial_balance /\ unrealized_pnl row = 0
        /\ equity row == initial_balance)
  /\ stat_total_trades (res_statistics r) = 0%Z
  /\ stat_final_balance (res_statistics r) = initial_balance
  /\ stat_win_rate (res_statistics r) = 0.
Proof.
  intros Hsig. unfold run_backtest. intros H.
  destruct (run_bars _ _ _ _ _) as [st |] eqn:Hrun; [| done]. simpl in H.
  destruct (make_statistics _ _ _) as [s |] eqn:Hs; [| done].
  injection H as <-. simpl.
  apply run_bars_without_signal in Hrun
    as (Hb & _ & Ht & Hl & Hn & Hrows); [| done | done].
  simpl in *. unfold make_statistics in Hs. rewrite Hn in Hs. simpl in Hs.
  destruct (pdiv _ _); [| done]. injection Hs as <-. simpl.
  repeat split; try done.
  - by destruct (Hrows row H) as [Hin | (? & _)];
      [apply not_elem_of_nil in Hin |].
  - by destruct (Hrows row H) as [Hin | (_ & ? & _)];
      [apply not_elem_of_nil in Hin |].
  - destruct (Hrows row H) as [Hin | (_ & _ & ->)];
      [by apply not_elem_of_nil in Hin | lra].
Qed.

(** A long of size 10 entered at 100, stopped out at 98. *)
Lemma stop_loss_close_loses_witness :
  exists pnl commission,
    _close_position (init None)
      (Position 10 100 (Some 0%Z) 1 10 [] 0
         [TpLevel 1 100.5 0.5 false; TpLevel 2 101 1.0 false] 98.75)
      98 1 1
    = Some (pnl, commission)
    /\ pnl < 0.
Proof.
  eexists. eexists. evaluate_some Hs. split; [exact Hs |].
  pose proof (fun H1 H2 H3 H4 H5 H6 =>
                stop_loss_close_loses (init None) _ 98 1 _ _
                  H1 H2 H3 H4 H5 H6 Hs) as Hthm.
  destruct Hthm as [Hpnl _];
    [reflexivity | reflexivity | reflexivity | reflexivity
    | by vm_compute | left; split; [done | by vm_compute] |].
  exact Hpnl.
Defined.

(** The same long closing a quarter at its first level. *)
Lemma take_profit_close_gains_witness :
  exists pnl commission,
    _close_position (init None)
      (Position 10 100 (Some 0%Z) 1 10 [] 0
         [TpLevel 1 100.5 0.5 false; TpLevel 2 101 1.0 false] 98.75)
      100.6 (tp_close_percent (init None)) 1
    = Some (pnl, commission)
    /\ 0 < pnl.
Proof.
  eexists. eexists. evaluate_some Hs. split; [exact Hs |].
  pose proof (fun H1 H2 H3 H4 H5 H6 =>
                take_profit_close_gains (init None) _ 100.6
                  (TpLevel 1 (100 * (1 + 0.5 / 100)) 0.5 false) 1 _ _
                  H1 H2 H3 H4 H5 H6 Hs) as Hthm.
  destruct Hthm as (_ & _ & Hpnl);
    [reflexivity | reflexivity | reflexivity | reflexivity
    | split; [done | left; split; [done | by vm_compute]]
    | reflexivity |].
  apply Hpnl. by vm_compute.
Defined.

Lemma run_without_signals_is_flat_witness :
  exists r,
    run_backtest (init None) Scenarios.signal_free_bars 1000 1 100 None
    = Some r
    /\ res_trades r = []
    /\ stat_final_balance (res_statistics r) = 1000.
Proof.
  eexists. evaluate_some Hs. split; [exact Hs |].
  pose proof (fun Hquiet => run_without_signals_is_flat _ _ _ _ _ _ _
                              Hquiet Hs) as Hthm.
  destruct Hthm as (Ht & _ & _ & _ & Hb & _).
  - intros b Hb.
    apply elem_of_cons in Hb as [-> | Hb]; [done |].
    apply elem_of_cons in Hb as [-> | Hb]; [done |].
    by apply not_elem_of_nil in Hb.
  - split; [exact Ht | exact Hb].
Defined.

End CloseFacts.

(** ** Take-profit levels are taken in ladder order *)

Module LadderOrderFacts.
Import Py PyFacts FuturesBacktest ExitSpec ExitFacts EquitySpec RunFacts.
Import LedgerSpec.

Section Order.
Variable svc : service.
Hypothesis tp_base_positive : 0 < tp_base_percent svc.

Local Abbreviation ladder_of p :=
  ((_calculate_tp_sl_levels svc (entry_price p) (direction p)).1).

Lemma hit_level_not_crossed dir x tp :
  tp_crossed dir x (mark_hit tp) = false.
Proof. done. Qed.

Lemma tp_crossed_mono entry dir x i j a b :
  0 < entry -> (i < j)%nat ->
  (_calculate_tp_sl_levels svc entry dir).1 !! i = Some a ->
  (_calculate_tp_sl_levels svc entry dir).1 !! j = Some b ->
  tp_crossed dir x b = true -> tp_crossed dir x a = true.
Proof.
  intros He Hij Ha Hb Hc.
  destruct (LadderFacts.ladder_lookup svc entry dir _ _ i a
              (surjective_pairing _) Ha) as (_ & _ & Hha & Hpa & Hra).
  destruct (LadderFacts.ladder_lookup svc entry dir _ _ j b
              (surjective_pairing _) Hb) as (_ & _ & _ & Hpb & Hrb).
  assert (inject_Z (Z.of_nat (S i)) < inject_Z (Z.of_nat (S j))) as Hm.
  { rewrite <- Zlt_Qlt. lia. }
  apply tp_crossed_iff in Hc as [_ Hc]. apply tp_crossed_iff.
  split; [done |]. rewrite Hra, Hpa. rewrite Hrb, Hpb in Hc.
  set (ki := inject_Z (Z.of_nat (S i))) in *.
  set (kj := inject_Z (Z.of_nat (S j))) in *.
  assert (tp_base_percent svc * ki < tp_base_percent svc * kj) as Hlt
    by nra.
  destruct Hc as [[-> Hx] | [-> Hx]]; simpl in *.
  - left. split; [done |].
    unfold Qdiv in *. change (/ 100) with (1 # 100) in *. nra.
  - right. split; [done |].
    unfold Qdiv in *. change (/ 100) with (1 # 100) in *. nra.
Qed.

(** In a ladder state the level that fires is level number [k + 1]. *)
Lemma scan_in_ladder_state p k x l tps' :
  0 < entry_price p -> ladder_state svc p k ->
  scan_tp_levels (direction p) x (tp_levels p) = Some (l, tps') ->
  exists tp0,
    ladder_of p !! k = Some tp0 /\ l = Z.of_nat (S k)
    /\ tps' = <[k := mark_hit tp0]> (tp_levels p).
Proof.
  intros He (Hhit & Hk & Hlen & Hlv & Hrem) Hscan.
  apply scan_tp_levels_inv in Hscan
    as (i & tp & Hi & Hc & Hbefore & -> & ->).
  assert (i < length (ladder_of p))%nat as Hil.
  { rewrite <- Hlen. by eapply lookup_lt_Some. }
  destruct (lookup_lt_is_Some_2 _ _ Hil) as [tpi Htpi].
  pose proof (Hlv _ _ Htpi) as Hi'. rewrite Hi in Hi'.
  injection Hi' as Hi'.
  destruct (Nat.ltb_spec i k) as [Hlt | Hge].
  { subst tp. by rewrite hit_level_not_crossed in Hc. }
  subst tp.
  destruct (decide (i = k)) as [-> | Hne].
  - exists tpi. split; [done |]. split; [| done].
    by destruct (LadderFacts.ladder_lookup svc _ _ _ _ k tpi
                   (surjective_pairing _) Htpi) as (_ & -> & _).
  - exfalso. assert (k < i)%nat as Hki by lia.
    assert (k < length (ladder_of p))%nat as Hkl by lia.
    destruct (lookup_lt_is_Some_2 _ _ Hkl) as [tpk Htpk].
    pose proof (Hlv _ _ Htpk) as Hk'.
    rewrite (proj2 (Nat.ltb_ge k k)) in Hk' by lia.
    pose proof (Hbefore k tpk Hki Hk') as Hnot.
    rewrite (tp_crossed_mono _ _ _ k i tpk tpi He Hki Htpk Htpi Hc)
      in Hnot.
    done.
Qed.

Lemma seq_snoc_Z k :
  map Z.of_nat (seq 1 k) ++ [Z.of_nat (S k)] = map Z.of_nat (seq 1 (S k)).
Proof. by rewrite seq_S, map_app. Qed.

Lemma after_tp_ladder_state p k x l tps' :
  0 < entry_price p -> is_open p = true -> ladder_state svc p k ->
  scan_tp_levels (direction p) x (tp_levels p) = Some (l, tps') ->
  let p' :=
    {| size := size p; entry_price := entry_price p;
       entry_time := entry_time p; direction := direction p;
       remaining_size := remaining_size p;
       tps_hit := tps_hit p ++ [l];
       trailing_stop := trailing_stop p;
       tp_levels := tps'; sl_level := sl_level p |} in
  ladder_ok svc (after_close svc p' ("TP" +:+ pretty l)
                   (tp_close_percent svc) x).
Proof.
  intros He Hopen Hst Hscan p'.
  destruct (scan_in_ladder_state _ _ _ _ _ He Hst Hscan)
    as (tp0 & Hk0 & -> & ->).
  destruct Hst as (Hhit & Hk & Hlen & Hlv & Hrem).
  unfold after_close.
  destruct (Qltb (tp_close_percent svc) 1) eqn:Hlt; [| done].
  rewrite BarFacts.prefix_TP. intros _.
  cbn [entry_price]. split; [done |].
  exists (S k). unfold ladder_state. subst p'.
  cbn [tps_hit tp_levels remaining_size size entry_price direction].
  split; [by rewrite Hhit, seq_snoc_Z |].
  split; [by eapply lookup_lt_Some |].
  split; [by rewrite length_insert |].
  split.
  - intros i tpi Htpi.
    destruct (decide (i = k)) as [-> | Hne].
    + rewrite list_lookup_insert_eq by (rewrite Hlen; by eapply lookup_lt_Some).
      rewrite Hk0 in Htpi. injection Htpi as <-.
      by rewrite (proj2 (Nat.ltb_lt k (S k))) by lia.
    + rewrite list_lookup_insert_ne by done. rewrite (Hlv _ _ Htpi).
      destruct (Nat.ltb_spec i k), (Nat.ltb_spec i (S k)); try done; lia.
  - rewrite Hrem. rewrite Nat2Z.inj_succ, <- Z.add_1_r.
    rewrite (Qpower_plus' (1 - tp_close_percent svc) (Z.of_nat k) 1) by lia.
    simpl. lra.
Qed.

Lemma exit_phase_ladder_ok leverage b st st1 :
  ladder_ok svc (pos st) ->
  exit_phase svc leverage b st = Some st1 ->
  ladder_ok svc (pos st1).
Proof.
  intros Hok H. destruct (is_open (pos st)) eqn:Hopen.
  - destruct (Hok Hopen) as (He & k & Hst).
    pose proof (exit_phase_open _ _ _ _ _ Hopen H) as Hv.
    unfold _check_exit_conditions in Hv.
    destruct (sl_hit svc (pos st) (price b)).
    { destruct Hv as (? & ? & _ & _ & -> & _). done. }
    destruct (trailing_hit svc (pos st) (price b)).
    { destruct Hv as (? & ? & _ & _ & -> & _). done. }
    destruct (scan_tp_levels _ _ _) as [[l tps'] |] eqn:Hscan.
    + destruct Hv as (? & ? & _ & _ & -> & _).
      by apply (after_tp_ladder_state _ k).
    + by subst.
  - rewrite exit_phase_flat in H by done. by injection H as <-.
Qed.

Lemma entry_phase_ladder_ok leverage margin_ratio b st1 st2 :
  0 < price b -> ladder_ok svc (pos st1) ->
  entry_phase svc leverage margin_ratio b st1 = Some st2 ->
  ladder_ok svc (pos st2).
Proof.
  intros Hp Hok H. unfold entry_phase in H.
  destruct (negb (signal b =? 0)%Z && negb (is_open (pos st1)));
    [| by injection H as <-].
  destruct (pdiv _ _) as [sz |]; [| done]. simpl in H.
  destruct (Qle_bool _ _); [| by injection H as <-].
  destruct (_calculate_tp_sl_levels svc (price b) (signal b))
    as [tps sl] eqn:Hcalc.
  injection H as <-. intros _. cbn [pos entry_price]. split; [done |].
  exists 0%nat. unfold ladder_state.
  cbn [pos tps_hit tp_levels remaining_size size entry_price direction].
  rewrite Hcalc. cbn [fst seq map length].
  unfold _calculate_tp_sl_levels in Hcalc. injection Hcalc as <- <-.
  split; [done |]. split; [lia |]. split; [done |].
  split; [done |]. change (Z.of_nat 0) with 0%Z. simpl. lra.
Qed.

Lemma step_ladder_ok leverage margin_ratio b st st' :
  0 < price b -> ladder_ok svc (pos st) ->
  step svc leverage margin_ratio b st = Some st' ->
  ladder_ok svc (pos st').
Proof.
  intros Hp Hok Hstep.
  apply step_inv in Hstep as (st1 & st2 & H1 & H2 & H3).
  apply equity_phase_inv in H3 as (_ & _ & _ & -> & _).
  eapply entry_phase_ladder_ok; [done | | exact H2].
  by eapply exit_phase_ladder_ok.
Qed.

(** X9: with a positive [tp_base] and positive prices, take-profit
    levels are taken strictly in ladder order.  In every state of a run
    an open position has taken its first [k] levels and no other:
    [tps_hit] is 1, ..., k, exactly those levels of the ladder computed
    at the entry are marked hit, and the remaining size is the entry
    size times [(1 - tp_close) ^ k]. *)
Theorem take_profits_in_ladder_order leverage margin_ratio bars
  initial_balance st :
  (forall b, b ∈ bars -> 0 < price b) ->
  run_bars svc leverage margin_ratio bars (initial initial_balance)
  = Some st ->
  is_open (pos st) = true ->
  0 < entry_price (pos st)
  /\ exists k, ladder_state svc (pos st) k.
Proof.
  intros Hp Hrun.
  enough (forall st0, ladder_ok svc (pos st0) ->
            run_bars svc leverage margin_ratio bars st0 = Some st ->
            ladder_ok svc (pos st)) as Hgen.
  { apply (Hgen (initial initial_balance)); [| done].
    intros H. by vm_compute in H. }
  clear Hrun. induction bars as [| b rest IH]; intros st0 Hok H;
    simpl in H.
  - by injection H as <-.
  - destruct (step svc leverage margin_ratio b st0) as [st1 |] eqn:Hs;
      [| done].
    simpl in H. eapply IH; [| | exact H].
    + intros b' Hb'. by apply Hp, list_elem_of_further.
    + eapply step_ladder_ok; [| exact Hok | exact Hs].
      apply Hp, list_elem_of_here.
Qed.

End Order.

(** The long entered at 100 that has taken its first level at 101. *)
Lemma take_profits_in_ladder_order_witness :
  exists st,
    run_bars (init None) 1 100 Scenarios.long_then_first_level
      (initial 1000) = Some st
    /\ is_open (pos st) = true
    /\ 0 < entry_price (pos st)
    /\ exists k, ladder_state (init None) (pos st) k.
Proof.
  eexists. evaluate_some Hs. split; [exact Hs |]. split; [done |].
  pose proof (fun Hbase Hprices Hopen =>
                take_profits_in_ladder_order (init None) Hbase 1 100 _ _ _
                  Hprices Hs Hopen) as Hthm.
  refine (Hthm _ _ _).
  - reflexivity.
  - intros b Hb.
    apply elem_of_cons in Hb as [-> | Hb]; [reflexivity |].
    apply elem_of_cons in Hb as [-> | Hb]; [reflexivity |].
    destruct (not_elem_of_nil _ Hb).
  - reflexivity.
Defined.

End LadderOrderFacts.

(** ** Profit factor and score order *)

Module MetricsFacts.
Import Py PyFacts FuturesBacktest BacktestRunner Metrics.

Lemma fold_left_Qplus xs a : fold_left Qplus xs a == a + fold_left Qplus xs 0.
Proof.
  revert a. induction xs as [| x xs IH]; intros a; simpl; [lra |].
  rewrite (IH (a + x)), (IH (0 + x)). lra.
Qed.

Lemma py_sum_cons x xs : py_sum (x :: xs) == x + py_sum xs.
Proof. unfold py_sum. simpl. rewrite fold_left_Qplus. lra. Qed.

Lemma py_sum_positive xs :
  Forall (fun x => 0 < x) xs -> xs <> [] -> 0 < py_sum xs.
Proof.
  induction 1 as [| x xs Hx Hxs IH]; [done |]. intros _.
  rewrite py_sum_cons. destruct xs as [| y ys].
  - unfold py_sum. simpl. lra.
  - assert (0 < py_sum (y :: ys)) by (by apply IH). lra.
Qed.

Lemma py_sum_negative xs :
  Forall (fun x => x < 0) xs -> xs <> [] -> py_sum xs < 0.
Proof.
  induction 1 as [| x xs Hx Hxs IH]; [done |]. intros _.
  rewrite py_sum_cons. destruct xs as [| y ys].
  - unfold py_sum. simpl. lra.
  - assert (py_sum (y :: ys) < 0) by (by apply IH). lra.
Qed.

Lemma winning_pnl_positive ts : Forall (fun x => 0 < x) (winning_pnl ts).
Proof.
  unfold winning_pnl. apply Forall_fmap, Forall_forall.
  intros t Ht. apply list_elem_of_filter in Ht as [Ht _]. by apply Qltb_lt.
Qed.

Lemma losing_pnl_negative ts : Forall (fun x => x < 0) (losing_pnl ts).
Proof.
  unfold losing_pnl. apply Forall_fmap, Forall_forall.
  intros t Ht. apply list_elem_of_filter in Ht as [Ht _]. by apply Qltb_lt.
Qed.

Lemma winning_pnl_nonempty ts t :
  t ∈ ts -> 0 < trade_pnl t -> winning_pnl ts <> [].
Proof.
  intros Ht Hp Hnil. unfold winning_pnl in Hnil.
  apply fmap_nil_inv in Hnil.
  assert (t ∈ filter (fun t => Qltb 0 (trade_pnl t) = true) ts) as Hin.
  { apply list_elem_of_filter. split; [by apply Qltb_lt | done]. }
  rewrite Hnil in Hin. by apply not_elem_of_nil in Hin.
Qed.

Lemma losing_pnl_nonempty ts t :
  t ∈ ts -> trade_pnl t < 0 -> losing_pnl ts <> [].
Proof.
  intros Ht Hp Hnil. unfold losing_pnl in Hnil.
  apply fmap_nil_inv in Hnil.
  assert (t ∈ filter (fun t => Qltb (trade_pnl t) 0 = true) ts) as Hin.
  { apply list_elem_of_filter. split; [by apply Qltb_lt | done]. }
  rewrite Hnil in Hin. by apply not_elem_of_nil in Hin.
Qed.

Lemma losing_pnl_empty ts :
  (forall t, t ∈ ts -> 0 <= trade_pnl t) -> losing_pnl ts = [].
Proof.
  intros H. unfold losing_pnl.
  destruct (filter _ ts) as [| t rest] eqn:Hf; [done |].
  assert (t ∈ filter (fun t => Qltb (trade_pnl t) 0 = true) ts) as Hin
    by (rewrite Hf; apply list_elem_of_here).
  apply list_elem_of_filter in Hin as [Hneg Hin].
  apply Qltb_lt in Hneg. specialize (H t Hin). lra.
Qed.

Lemma py_sum_nonneg xs : Forall (fun x => 0 < x) xs -> 0 <= py_sum xs.
Proof.
  intros H. destruct xs as [| x xs]; [by vm_compute |].
  apply Qlt_le_weak, py_sum_positive; done.
Qed.

(** X10: the profit factor is 0 for an empty trade list; it is infinite
    exactly when no trade loses and some trade wins; as soon as one trade
    loses it is the finite, non-negative quotient of the summed winning
    PnL by the absolute summed losing PnL. *)
Theorem profit_factor_cases ts :
  (ts = [] -> _calculate_profit_factor ts = Finite 0)
  /\ (_calculate_profit_factor ts = Infinity <->
      (forall t, t ∈ ts -> 0 <= trade_pnl t)
      /\ exists t, t ∈ ts /\ 0 < trade_pnl t)
  /\ ((exists t, t ∈ ts /\ trade_pnl t < 0) ->
      exists q,
        _calculate_profit_factor ts = Finite q /\ 0 <= q
        /\ 0 < Qabs (py_sum (losing_pnl ts))
        /\ q * Qabs (py_sum (losing_pnl ts)) == py_sum (winning_pnl ts)).
Proof.
  split; [by intros -> |].
  assert ((exists t, t ∈ ts /\ trade_pnl t < 0) ->
          py_sum (losing_pnl ts) < 0) as Hloss.
  { intros (t & Ht & Hneg).
    apply py_sum_negative; [apply losing_pnl_negative |].
    by eapply losing_pnl_nonempty. }
  split; [split |].
  - intros Hinf. destruct ts as [| t0 ts0]; [done |].
    unfold _calculate_profit_factor in Hinf.
    set (ts := t0 :: ts0) in *.
    destruct (Qeq_bool (Qabs (py_sum (losing_pnl ts))) 0) eqn:Hz; [| done].
    destruct (Qltb 0 (py_sum (winning_pnl ts))) eqn:Hw; [| done].
    apply Qeq_bool_iff in Hz. apply Qltb_lt in Hw. split.
    + intros t Ht. destruct (Qlt_le_dec (trade_pnl t) 0) as [Hneg |]; [| done].
      assert (py_sum (losing_pnl ts) < 0) as Hl by (apply Hloss; eauto).
      rewrite Qabs_neg in Hz by lra. lra.
    + destruct (winning_pnl ts) as [| x xs] eqn:Hwin;
        [by vm_compute in Hw |].
      assert (x ∈ winning_pnl ts) as Hx
        by (rewrite Hwin; apply list_elem_of_here).
      unfold winning_pnl in Hx. apply list_elem_of_fmap in Hx
        as (t & -> & Ht).
      apply list_elem_of_filter in Ht as [Hpos Ht].
      exists t. split; [done | by apply Qltb_lt].
  - intros (Hall & t & Ht & Hpos).
    destruct ts as [| t0 ts0]; [by apply not_elem_of_nil in Ht |].
    unfold _calculate_profit_factor. set (ts := t0 :: ts0) in *.
    rewrite (losing_pnl_empty ts Hall).
    change (Qeq_bool (Qabs (py_sum [])) 0) with true. cbv iota.
    assert (0 < py_sum (winning_pnl ts)) as Hw.
    { apply py_sum_positive; [apply winning_pnl_positive |].
      by eapply winning_pnl_nonempty. }
    by rewrite (proj2 (Qltb_lt _ _) Hw).
  - intros Hex. specialize (Hloss Hex).
    destruct Hex as (t & Ht & Hneg).
    destruct ts as [| t0 ts0]; [by apply not_elem_of_nil in Ht |].
    unfold _calculate_profit_factor. set (ts := t0 :: ts0) in *.
    assert (0 < Qabs (py_sum (losing_pnl ts))) as Habs.
    { rewrite Qabs_neg by lra. lra. }
    destruct (Qeq_bool (Qabs (py_sum (losing_pnl ts))) 0) eqn:Hz.
    { apply Qeq_bool_iff in Hz. lra. }
    pose proof (py_sum_nonneg _ (winning_pnl_positive ts)) as Hw.
    eexists. split; [done |]. split; [| split; [done |]].
    + apply Qle_shift_div_l; [done | lra].
    + field. lra.
Qed.

Lemma round_half_even_mono x y :
  x <= y -> (round_half_even x <= round_half_even y)%Z.
Proof.
  intros Hxy.
  destruct (Z_le_gt_dec (round_half_even x) (round_half_even y))
    as [| Hgt]; [done |].
  exfalso.
  destruct (round_half_even_close x) as [Hx _].
  destruct (round_half_even_close y) as [_ Hy].
  assert (inject_Z (round_half_even y) + 1 <= inject_Z (round_half_even x))
    as Hz.
  { change 1 with (inject_Z 1). rewrite <- inject_Z_plus, <- Zle_Qle. lia. }
  assert (x == y) as Heq by lra.
  apply ScoreFacts.round_half_even_proper in Heq. lia.
Qed.

Lemma round2_mono x y : x <= y -> round2 x <= round2 y.
Proof.
  intros Hxy. unfold round2.
  assert (x * 100 <= y * 100) as H by lra.
  apply round_half_even_mono in H. rewrite Zle_Qle in H. qlra.
Qed.

Lemma weighted_score_mono r w d t r' w' d' t' :
  r <= r' -> w <= w' -> d' <= d -> t <= t' ->
  weighted_score r w d t <= weighted_score r' w' d' t'.
Proof.
  intros Hr Hw Hd Ht. unfold weighted_score.
  destruct (min_cases (r / 100) 5) as [[? ->] | [? ->]];
    destruct (min_cases (r' / 100) 5) as [[? ->] | [? ->]];
    destruct (max_cases 0 (1 - d / 50)) as [[? ->] | [? ->]];
    destruct (max_cases 0 (1 - d' / 50)) as [[? ->] | [? ->]];
    destruct (min_cases (t / 100) 1) as [[? ->] | [? ->]];
    destruct (min_cases (t' / 100) 1) as [[? ->] | [? ->]];
    qlra.
Qed.

(** X11: the score respects the order of the statistics: a record with
    a return, win rate and trade count at least as high and a drawdown at
    most as high never scores lower. *)
Theorem score_monotone stats stats' r w d t r' w' d' t' :
  has_numbers stats r w d t -> has_numbers stats' r' w' d' t' ->
  r <= r' -> w <= w' -> d' <= d -> (t <= t')%Z ->
  exists q q',
    _calculate_optimization_score stats = Returns q
    /\ _calculate_optimization_score stats' = Returns q'
    /\ q <= q'.
Proof.
  intros Hn Hn' Hr Hw Hd Ht.
  unfold _calculate_optimization_score.
  rewrite (ScoreFacts.score_body_numbers _ _ _ _ _ Hn),
    (ScoreFacts.score_body_numbers _ _ _ _ _ Hn').
  simpl. eexists. eexists. split; [done |]. split; [done |].
  apply round2_mono, weighted_score_mono; try done.
  by rewrite <- Zle_Qle.
Qed.

(** A record with a small return, no wins and a full drawdown against
    one that is better in every respect. *)
Lemma score_monotone_witness :
  exists q q',
    _calculate_optimization_score Scenarios.small_return_stats = Returns q
    /\ _calculate_optimization_score Scenarios.capped_return_stats
       = Returns q'
    /\ q <= q'.
Proof.
  apply (score_monotone Scenarios.small_return_stats
           Scenarios.capped_return_stats 0.1 0 100 0 500 100 0 100).
  - by vm_compute.
  - by vm_compute.
  - by vm_compute.
  - by vm_compute.
  - by vm_compute.
  - lia.
Defined.

End MetricsFacts.

(** ** The signal generator *)

Module SignalFacts.
Import Py PyFacts MACDSMAStrategy StrategySpec.

Lemma SMA_Some xs n :
  valid_period n -> SMA xs n = Some (rolling_mean n xs).
Proof.
  intros [H2 Hmax]. unfold SMA.
  rewrite (proj2 (Nat.leb_le 2 n)) by done.
  by rewrite (proj2 (Z.leb_le _ _)) by done.
Qed.

Lemma SMA_inv xs n ys :
  SMA xs n = Some ys -> valid_period n /\ ys = rolling_mean n xs.
Proof.
  unfold SMA, valid_period.
  destruct (Nat.leb_spec 2 n); [| done].
  destruct (Z.leb_spec (Z.of_nat n) 100000); [| done].
  by intros [= <-].
Qed.

Lemma calculate_indicators_inv s closes f :
  calculate_indicators s closes = Some f ->
  enough_data s closes
  /\ f = (let c := Some <$> closes in
          let fast := rolling_mean (fast_length s) c in
          let slow := rolling_mean (slow_length s) c in
          let very_slow := rolling_mean (very_slow_length s) c in
          let line := sub fast slow in
          let sig := rolling_mean (signal_length s) line in
          {| close := fill c; fast_ma := fill fast; slow_ma := fill slow;
             very_slow_ma := fill very_slow; macd := fill line;
             macd_signal := fill sig;
             macd_histogram := fill (sub line sig) |}).
Proof.
  unfold calculate_indicators, enough_data. intros H.
  destruct (Nat.ltb_spec (length closes) (very_slow_length s)); [done |].
  destruct (Nat.eqb_spec (length closes) 0); [done |]. simpl in H.
  destruct (SMA _ (fast_length s)) as [fast |] eqn:H1; [| done].
  destruct (SMA _ (slow_length s)) as [slow |] eqn:H2; [| done].
  destruct (SMA _ (very_slow_length s)) as [vs |] eqn:H3; [| done].
  simpl in H.
  destruct (SMA _ (signal_length s)) as [sg |] eqn:H4; [| done].
  apply SMA_inv in H1 as [V1 ->], H2 as [V2 ->], H3 as [V3 ->],
    H4 as [V4 ->].
  injection H as <-. split; [| done].
  split; [by destruct closes |]. done.
Qed.

(** X12: [generate_signals] raises exactly when there is no candle,
    fewer candles than the trend length, or a period outside 2..100000;
    otherwise it returns one row per candle, in order, each carrying the
    close of its candle as the price. *)
Theorem generate_signals_needs_enough_data s closes :
  (is_Some (generate_signals s closes) <-> enough_data s closes)
  /\ forall rows,
      generate_signals s closes = Some rows ->
      length rows = length closes
      /\ forall i row,
          rows !! i = Some row -> closes !! i = Some (price row).
Proof.
  split; [split |].
  - intros [rows H]. unfold generate_signals in H.
    destruct (length closes =? 0)%nat; [done |].
    destruct (calculate_indicators s closes) as [f |] eqn:Hf; [| done].
    by apply calculate_indicators_inv in Hf as [? _].
  - intros (Hne & Hlen & Hf & Hs & Hv & Hg).
    unfold generate_signals, calculate_indicators.
    destruct (Nat.eqb_spec (length closes) 0) as [E | _].
    { by destruct closes. }
    rewrite (proj2 (Nat.ltb_ge _ _)) by done. simpl.
    rewrite !SMA_Some by done. simpl.
    rewrite SMA_Some by done. simpl. eauto.
  - intros rows H. unfold generate_signals in H.
    destruct (length closes =? 0)%nat; [done |].
    destruct (calculate_indicators s closes) as [f |]; [| done].
    injection H as <-. split; [by rewrite length_imap |].
    intros i row Hi. rewrite list_lookup_imap in Hi.
    destruct (closes !! i) as [c |]; [| done]. by injection Hi as <-.
Qed.

Lemma at_Some xs i v : at_ xs i = Some v -> Some v ∈ xs.
Proof.
  unfold at_. destruct (xs !! i) as [o |] eqn:H; [| done].
  simpl. intros ->. by eapply list_elem_of_lookup_2.
Qed.

Lemma all_values_at P xs i v : all_values P xs -> at_ xs i = Some v -> P v.
Proof.
  intros Hall Hat. apply at_Some in Hat.
  unfold all_values in Hall. rewrite Forall_forall in Hall.
  by apply (Hall _ Hat).
Qed.

Lemma all_values_impl (P R : Q -> Prop) xs :
  (forall v, P v -> R v) -> all_values P xs -> all_values R xs.
Proof.
  intros H Hall. unfold all_values in *.
  eapply Forall_impl; [exact Hall |]. intros o Ho v Hv. by apply H, Ho.
Qed.

Lemma all_values_absolute xs : all_values (fun v => 0 <= v) (absolute xs).
Proof.
  unfold all_values, absolute. apply Forall_map, Forall_forall.
  intros o _ v Hv. destruct o as [x |]; [| done].
  injection Hv as <-. apply Qabs_nonneg.
Qed.

Lemma window_sum_nonneg w s :
  all_values (fun v => 0 <= v) w -> window_sum w = Some s -> 0 <= s.
Proof.
  revert s. induction w as [| o w IH]; intros s Hall Hs; simpl in Hs.
  - injection Hs as <-. lra.
  - apply Forall_cons in Hall as [Ho Hw].
    destruct o as [x |]; [| done].
    destruct (window_sum w) as [r |]; [| done].
    injection Hs as <-. specialize (Ho x eq_refl).
    specialize (IH r Hw eq_refl). lra.
Qed.

Lemma window_sum_constant c w s :
  all_values (fun v => v == c) w -> window_sum w = Some s ->
  s == inject_Z (Z.of_nat (length w)) * c.
Proof.
  revert s. induction w as [| o w IH]; intros s Hall Hs; simpl in Hs.
  - injection Hs as <-.
    change (inject_Z (Z.of_nat (length []))) with 0. lra.
  - apply Forall_cons in Hall as [Ho Hw].
    destruct o as [x |]; [| done].
    destruct (window_sum w) as [r |]; [| done].
    injection Hs as <-. specialize (Ho x eq_refl).
    specialize (IH r Hw eq_refl).
    cbn [length]. rewrite Nat2Z.inj_succ, <- Z.add_1_r, inject_Z_plus.
    change (inject_Z 1) with 1. rewrite Ho, IH. lra.
Qed.

Lemma all_values_window P n k xs :
  all_values P xs -> all_values P (take n (drop k xs)).
Proof. intros H. by apply Forall_take, Forall_drop. Qed.

Lemma rolling_mean_lookup n xs i v :
  at_ (rolling_mean n xs) i = Some v ->
  (n <= i + 1)%nat /\ (i < length xs)%nat
  /\ exists s,
      window_sum (take n (drop (i + 1 - n) xs)) = Some s
      /\ v = s / inject_Z (Z.of_nat n).
Proof.
  unfold at_, rolling_mean. rewrite list_lookup_imap.
  destruct (xs !! i) as [o |] eqn:Hi; [| done].
  apply lookup_lt_Some in Hi. cbn [fmap option_fmap option_map mjoin
                                   option_join].
  destruct (Nat.leb_spec n (i + 1)); [| done].
  destruct (window_sum _) as [s |]; [| done].
  simpl. intros [= <-]. eauto.
Qed.

Lemma all_values_rolling_mean_nonneg n xs :
  all_values (fun v => 0 <= v) xs ->
  forall i v, at_ (rolling_mean n xs) i = Some v -> 0 <= v.
Proof.
  intros Hall i v Hv.
  apply rolling_mean_lookup in Hv as (Hn & Hi & s & Hs & ->).
  apply window_sum_nonneg in Hs; [| by apply all_values_window].
  destruct n as [| n].
  - change (inject_Z (Z.of_nat 0)) with 0. unfold Qdiv.
    change (/ 0) with 0. lra.
  - apply Qle_shift_div_l; [| lra].
    change 0 with (inject_Z 0). rewrite <- Zlt_Qlt. lia.
Qed.

Lemma rolling_mean_constant c n xs i v :
  (0 < n)%nat -> all_values (fun v => v == c) xs ->
  at_ (rolling_mean n xs) i = Some v -> v == c.
Proof.
  intros Hpos Hall Hv.
  apply rolling_mean_lookup in Hv as (Hn & Hi & s & Hs & ->).
  apply (window_sum_constant c) in Hs; [| by apply all_values_window].
  rewrite length_take, length_drop in Hs.
  replace (n `min` (length xs - (i + 1 - n)))%nat with n in Hs by lia.
  rewrite Hs. field.
  change 0 with (inject_Z 0). rewrite inject_Z_injective. lia.
Qed.

Lemma all_values_ffill_from P last xs :
  (forall v, last = Some v -> P v) -> all_values P xs ->
  all_values P (ffill_from last xs).
Proof.
  revert last. induction xs as [| o xs IH]; intros last Hl Hall; simpl.
  - constructor.
  - apply Forall_cons in Hall as [Ho Hxs].
    destruct o as [x |]; (constructor; [done | by apply IH]).
Qed.

Lemma all_values_fill P xs : all_values P xs -> all_values P (fill xs).
Proof.
  intros H. unfold fill, bfill, ffill.
  apply Forall_reverse, all_values_ffill_from; [done |].
  apply Forall_reverse, all_values_ffill_from; done.
Qed.

Lemma all_values_sub a b xs ys :
  all_values (fun v => v == a) xs -> all_values (fun v => v == b) ys ->
  all_values (fun v => v == a - b) (sub xs ys).
Proof.
  unfold sub. revert ys.
  induction xs as [| x xs IH]; intros ys Hx Hy; [constructor |].
  destruct ys as [| y ys]; [constructor |].
  apply Forall_cons in Hx as [Hx Hxs]. apply Forall_cons in Hy as [Hy Hys].
  simpl. constructor; [| by apply IH].
  intros v Hv. destruct x as [x |], y as [y |]; try done.
  injection Hv as <-. rewrite (Hx x eq_refl), (Hy y eq_refl). lra.
Qed.

Lemma all_values_rolling_mean c n xs :
  (0 < n)%nat -> all_values (fun v => v == c) xs ->
  all_values (fun v => v == c) (rolling_mean n xs).
Proof.
  intros Hn Hall. apply Forall_lookup. intros i o Hi v ->.
  apply (rolling_mean_constant c n xs i); [done | done |].
  unfold at_. by rewrite Hi.
Qed.

Lemma crossover_signal_range s f i :
  crossover_signal s f i = 0%Z \/ crossover_signal s f i = 1%Z
  \/ crossover_signal s f i = (-1)%Z.
Proof. unfold crossover_signal. repeat case_match; auto. Qed.

Lemma strength_of_nonneg col i m : strength_of col i = Some m -> 0 <= m.
Proof.
  unfold strength_of, divide. intros H.
  destruct (at_ (absolute col) i) as [a |] eqn:Ha; [| done].
  destruct (at_ (rolling_mean 20 (absolute col)) i) as [r |] eqn:Hr;
    [| done].
  simpl in H. destruct (Qeq_bool _ 0); [done |]. injection H as <-.
  pose proof (all_values_at _ _ _ _ (all_values_absolute col) Ha) as Ha0.
  pose proof (all_values_rolling_mean_nonneg 20 _
                (all_values_absolute col) _ _ Hr) as Hr0.
  simpl in Ha0. assert (0 < 1e-8) by done.
  apply Qle_shift_div_l; lra.
Qed.

Lemma maximum0_nonneg x m : maximum0 x = Some m -> 0 <= m.
Proof.
  unfold maximum0. destruct x as [v |]; [| done]. intros [= <-].
  destruct (Qltb v 0) eqn:E; [lra | by apply Qltb_ge in E].
Qed.

Lemma trend_strength_nonneg s f i m : trend_strength s f i = Some m -> 0 <= m.
Proof.
  unfold trend_strength. intros H.
  repeat case_match; try (by eapply maximum0_nonneg).
  injection H as <-. lra.
Qed.

Lemma blended_strength_range s f i v :
  blended_strength s f i = Some v -> 0 <= v /\ v <= 1.
Proof.
  unfold blended_strength. intros H.
  destruct (strength_of (macd f) i) as [m |] eqn:Hm; [| done].
  destruct (strength_of (macd_histogram f) i) as [h |] eqn:Hh; [| done].
  destruct (trend_strength s f i) as [t |] eqn:Ht; [| done].
  apply strength_of_nonneg in Hm, Hh. apply trend_strength_nonneg in Ht.
  simpl in H. injection H as <-.
  set (blend := m * 0.4 + h * 0.4 + t * 0.2).
  assert (0 <= blend) as Hb by (unfold blend; lra).
  assert (0 <= (if Qltb blend 1 then blend else 1)
          /\ (if Qltb blend 1 then blend else 1) <= 1) as [H0 H1].
  { destruct (Qltb blend 1) eqn:E; [apply Qltb_lt in E |]; split; lra. }
  set (capped := if Qltb blend 1 then blend else 1) in *.
  destruct (crossover_signal_range s f i) as [-> | [-> | ->]].
  - change (inject_Z (Z.abs 0)) with 0. lra.
  - change (inject_Z (Z.abs 1)) with 1. lra.
  - change (inject_Z (Z.abs (-1))) with 1. lra.
Qed.

(** X13: every returned signal point has a direction in {-1, 0, 1} and
    a strength in [0, 1]; a row without a direction before the filter has
    strength 0; and from row 19 on, where the strength is a number, a
    row with a nonzero direction has a strength of at least 0.2. *)
Theorem signal_points_in_range s closes rows i row :
  generate_signals s closes = Some rows ->
  rows !! i = Some row ->
  (signal row = 0%Z \/ signal row = 1%Z \/ signal row = (-1)%Z)
  /\ 0 <= signal_strength row /\ signal_strength row <= 1
  /\ (forall f,
        calculate_indicators s closes = Some f ->
        (crossover_signal s f i = 0%Z -> signal_strength row == 0)
        /\ (is_Some (blended_strength s f i) -> signal row <> 0%Z ->
            0.2 <= signal_strength row)).
Proof.
  unfold generate_signals. intros H Hi.
  destruct (length closes =? 0)%nat; [done |].
  destruct (calculate_indicators s closes) as [f |]; [| done].
  injection H as <-. rewrite list_lookup_imap in Hi.
  destruct (closes !! i) as [c |]; [| done]. injection Hi as <-.
  unfold signal_row. simpl. split; [| split; [| split]].
  - destruct (weak_signal s f i); [auto | apply crossover_signal_range].
  - destruct (blended_strength s f i) as [v |] eqn:Hv; simpl; [| lra].
    by apply blended_strength_range in Hv as [? _].
  - destruct (blended_strength s f i) as [v |] eqn:Hv; simpl; [| lra].
    by apply blended_strength_range in Hv as [_ ?].
  - intros f' [= <-]. split.
    + intros Hz. unfold blended_strength. rewrite Hz.
      destruct (minimum1 _) as [m |].
      * change (0 * m == 0). lra.
      * change (0 == 0). lra.
    + intros [v Hv] Hsig. unfold weak_signal, lt, gt in *.
      rewrite Hv in *. simpl.
      destruct (Qltb v 0.2) eqn:E; [done | by apply Qltb_ge in E].
Qed.

Lemma no_crossover_of_zero_histogram s f i :
  all_values (fun v => v == 0) (macd_histogram f) ->
  crossover_signal s f i = 0%Z.
Proof.
  intros Hall.
  assert (hist_crossover_up f i = false) as Hup.
  { unfold hist_crossover_up, gt.
    destruct (at_ (macd_histogram f) i) as [v |] eqn:Hv; [| done].
    apply (all_values_at _ _ _ _ Hall) in Hv.
    apply andb_false_iff. left. apply Qltb_ge. lra. }
  assert (hist_crossunder_down f i = false) as Hdown.
  { unfold hist_crossunder_down, lt, gt.
    destruct (at_ (macd_histogram f) i) as [v |] eqn:Hv; [| done].
    apply (all_values_at _ _ _ _ Hall) in Hv.
    apply andb_false_iff. left. apply Qltb_ge. lra. }
  unfold crossover_signal, short_condition, long_condition.
  by rewrite Hup, Hdown.
Qed.

(** X14: a flat market gives no signal: when every candle closes at the
    same price, every returned row has direction 0 and strength 0,
    whatever the lengths. *)
Theorem flat_market_has_no_signal s closes c rows row :
  (forall x, x ∈ closes -> x == c) ->
  generate_signals s closes = Some rows ->
  row ∈ rows ->
  signal row = 0%Z /\ signal_strength row == 0.
Proof.
  intros Hflat H Hrow. unfold generate_signals in H.
  destruct (length closes =? 0)%nat; [done |].
  destruct (calculate_indicators s closes) as [f |] eqn:Hf; [| done].
  injection H as <-.
  apply list_elem_of_lookup in Hrow as [i Hi].
  rewrite list_lookup_imap in Hi.
  destruct (closes !! i) as [x |]; [| done]. injection Hi as <-.
  apply calculate_indicators_inv in Hf
    as [(_ & _ & [Hf _] & [Hs _] & _ & [Hg _]) ->].
  set (cs := Some <$> closes).
  assert (all_values (fun v => v == c) cs) as Hc.
  { unfold all_values, cs. apply Forall_fmap, Forall_forall.
    intros y Hy v [= <-]. by apply Hflat. }
  set (line := sub (rolling_mean (fast_length s) cs)
                 (rolling_mean (slow_length s) cs)).
  assert (all_values (fun v => v == c - c) line) as Hline.
  { apply all_values_sub; apply all_values_rolling_mean; try done; lia. }
  assert (all_values (fun v => v == 0)
            (fill (sub line (rolling_mean (signal_length s) line))))
    as Hhist.
  { apply all_values_fill.
    apply (all_values_impl (fun v => v == (c - c) - (c - c))).
    { intros v ->. lra. }
    apply all_values_sub; [done |].
    apply all_values_rolling_mean; [lia | done]. }
  match goal with
  | |- context [signal_row s ?fr i x] =>
      assert (crossover_signal s fr i = 0%Z) as Hz
        by (apply no_crossover_of_zero_histogram; exact Hhist);
      generalize dependent fr
  end.
  intros fr Hz. unfold signal_row. cbn [signal signal_strength]. split.
  - by destruct (weak_signal _ _ _).
  - unfold blended_strength. rewrite Hz.
    destruct (minimum1 _) as [m |].
    + change (0 * m == 0). lra.
    + change (0 == 0). lra.
Qed.

(** The last of the five candles of the early crossunder. *)
Lemma signal_points_in_range_witness :
  exists rows row,
    generate_signals (Strategy 2 3 2 5) Scenarios.early_crossunder
    = Some rows
    /\ rows !! 4%nat = Some row
    /\ (signal row = 0%Z \/ signal row = 1%Z \/ signal row = (-1)%Z)
    /\ 0 <= signal_strength row /\ signal_strength row <= 1.
Proof.
  eexists. eexists. evaluate_some Hs. split; [exact Hs |].
  split; [reflexivity |].
  destruct (signal_points_in_range (Strategy 2 3 2 5)
              Scenarios.early_crossunder _ 4%nat _ Hs eq_refl)
    as (Hdir & Hlo & Hhi & _).
  split; [exact Hdir |]. split; [exact Hlo | exact Hhi].
Defined.

Lemma flat_market_has_no_signal_witness :
  exists rows row,
    generate_signals (Strategy 2 3 2 5) Examples.flat_closes = Some rows
    /\ rows !! 4%nat = Some row
    /\ signal row = 0%Z /\ signal_strength row == 0.
Proof.
  eexists. eexists. evaluate_some Hs. split; [exact Hs |].
  split; [reflexivity |].
  pose proof (fun Hflat Hrow =>
                flat_market_has_no_signal (Strategy 2 3 2 5)
                  Examples.flat_closes 100 _ (SignalPoint 100 0 0)
                  Hflat Hs Hrow) as Hthm.
  refine (Hthm _ _).
  - intros x Hx.
    repeat (apply elem_of_cons in Hx as [-> | Hx]; [reflexivity |]).
    destruct (not_elem_of_nil _ Hx).
  - do 4 apply list_elem_of_further. apply list_elem_of_here.
Defined.

End SignalFacts.

(** ** The parameter grid *)

Module GridFacts.
Import Py PyFacts ParameterGenerator.







(** A zero step in any range makes the generator raise. *)
Lemma zero_step_raises pr :
  istep (macd_fast pr) = 0%Z -> generate_parameter_combinations pr = None.
Proof.
  intros H. unfold generate_parameter_combinations, int_values, py_range.
  by rewrite H.
Qed.


End GridFacts.

(** ** Batches, completions, ranking and progress *)

Module SchedulingFacts.
Import Py PyFacts PerCoinOptimizer PerCoinScheduling.

Lemma chunks_concat (b : nat) (l : list string) n :
  concat ((fun k => take b (drop (k * b) l)) <$> seq 0 n) = take (n * b) l.
Proof.
  induction n as [| n IH]; [done |].
  rewrite seq_S, fmap_app, concat_app, IH. simpl.
  rewrite app_nil_r, take_take_drop. f_equal. lia.
Qed.

(** X16: with at least one worker the symbols are cut into batches of
    [min(2 x max_workers, 20)] symbols: the batches, in order, make up the
    symbol list again, none is empty or longer than the batch size, and
    their number is the announced [total_batches]. *)
Theorem symbol_batches_partition max_workers valid_symbols :
  (0 < max_workers)%Z ->
  exists total_batches batches,
    symbol_batches max_workers valid_symbols = Some (total_batches, batches)
    /\ concat batches = valid_symbols
    /\ Z.of_nat (length batches) = total_batches
    /\ forall batch,
        batch ∈ batches ->
        batch <> []
        /\ (Z.of_nat (length batch) <= Z.min (max_workers * 2) 20)%Z.
Proof.
  intros Hw. unfold symbol_batches, batch_size, ParameterGenerator.py_range.
  set (bs := Z.min (max_workers * 2) 20).
  assert (0 < bs)%Z as Hbs by (unfold bs; lia).
  rewrite (proj2 (Z.eqb_neq bs 0)) by lia.
  rewrite (proj2 (Z.ltb_lt 0 bs)) by lia.
  set (len := length valid_symbols).
  rewrite Z.sub_0_r.
  set (total := ((Z.of_nat len + bs - 1) / bs)%Z).
  assert (0 <= total)%Z as Ht0.
  { unfold total. apply Z.div_pos; lia. }
  assert (Z.of_nat len <= total * bs)%Z as Hcover.
  { unfold total.
    pose proof (Z.mul_succ_div_gt (Z.of_nat len + bs - 1)%Z bs Hbs). lia. }
  assert ((total - 1) * bs < Z.of_nat len \/ total = 0)%Z as Htight.
  { destruct (Z.eq_dec total 0%Z); [by right | left].
    pose proof (Z.mul_div_le (Z.of_nat len + bs - 1)%Z bs Hbs) as H.
    fold total in H. lia. }
  set (b := Z.to_nat bs).
  assert ((fun i : Z => take b (drop (Z.to_nat i) valid_symbols))
            <$> ((fun k : nat => (0 + Z.of_nat k * bs)%Z)
                   <$> seq 0 (Z.to_nat total))
          = (fun k => take b (drop (k * b) valid_symbols))
              <$> seq 0 (Z.to_nat total)) as Hmap.
  { rewrite <- list_fmap_compose. apply list_fmap_ext.
    intros _ k _. simpl. do 2 f_equal. unfold b. lia. }
  eexists. eexists. split; [done |].
  rewrite Hmap. split; [| split].
  - rewrite chunks_concat. apply take_ge. fold len. unfold b. nia.
  - rewrite length_fmap, length_seq. lia.
  - intros batch Hb. apply list_elem_of_fmap in Hb as (k & -> & Hk).
    apply elem_of_seq in Hk as [_ Hk]. simpl in Hk.
    assert (k * b < len)%nat as Hkb.
    { destruct Htight as [Ht | Ht]; [| lia]. unfold b. nia. }
    split.
    + intros Hnil. apply (f_equal length) in Hnil.
      rewrite length_take, length_drop in Hnil. simpl in Hnil.
      fold len in Hnil. unfold b in *. lia.
    + rewrite length_take. unfold b. lia.
Qed.

(** A pool of no workers makes the batch computation raise. *)
Lemma symbol_batches_no_workers valid_symbols :
  symbol_batches 0 valid_symbols = None.
Proof. done. Qed.

Lemma handle_completion_running c s :
  is_running (handle_completion c s) = is_running s.
Proof. unfold handle_completion. repeat case_match; done. Qed.

Lemma handle_completion_lists c s :
  completed_symbols (handle_completion c s)
  ++ failed_symbols (handle_completion c s)
  ≡ₚ (completed_symbols s ++ failed_symbols s) ++ [symbol c].
Proof.
  unfold handle_completion.
  repeat case_match; simpl; try (by rewrite app_assoc).
  rewrite <- !app_assoc. apply Permutation_app_head, Permutation_app_comm.
Qed.

Lemma handle_completion_printed c s :
  length (printed (handle_completion c s)) = S (length (printed s)).
Proof.
  unfold handle_completion.
  repeat case_match; simpl; rewrite length_app; simpl; lia.
Qed.

Lemma handle_completion_results c s :
  completed_have_results s -> completed_have_results (handle_completion c s).
Proof.
  intros H.
  assert (forall result sym,
            is_Some (best_results s !! sym) ->
            is_Some (<[symbol c := result]> (best_results s) !! sym)) as Hkeep.
  { intros result sym Hsym.
    destruct (decide (symbol c = sym)) as [-> | Hne].
    - rewrite lookup_insert_eq. eauto.
    - by rewrite lookup_insert_ne. }
  unfold handle_completion, completed_have_results.
  destruct (future c) as [| success result]; [done |].
  destruct success; [| done]. destruct result as [result |]; [| done].
  destruct (save_success c); simpl.
  - intros sym Hsym. apply elem_of_app in Hsym as [Hsym | Hsym].
    + by apply Hkeep, H.
    + apply list_elem_of_singleton in Hsym as ->.
      rewrite lookup_insert_eq. eauto.
  - intros sym Hsym. by apply Hkeep, H.
Qed.

Lemma process_completed_accounts cs s :
  is_running s = true -> completed_have_results s ->
  completed_symbols (process_completed cs s)
  ++ failed_symbols (process_completed cs s)
  ≡ₚ (completed_symbols s ++ failed_symbols s) ++ (symbol <$> cs)
  /\ length (printed (process_completed cs s))
     = (length (printed s) + length cs)%nat
  /\ completed_have_results (process_completed cs s)
  /\ is_running (process_completed cs s) = true.
Proof.
  revert s. induction cs as [| c cs IH]; intros s Hrun Hres; simpl.
  - rewrite app_nil_r. split_and!; try done; lia.
  - rewrite Hrun.
    destruct (IH (handle_completion c s)) as (Hp & Hl & Hr & Hrun').
    { by rewrite handle_completion_running. }
    { by apply handle_completion_results. }
    split_and!; try done.
    + rewrite Hp, handle_completion_lists, <- app_assoc. done.
    + rewrite Hl, handle_completion_printed. lia.
Qed.

(** X17: while the run is not stopped, every finished symbol is
    recorded exactly once: the completed and the failed list together hold
    the symbols of the finished futures, each as often as it finished, one
    line is printed per symbol, and every completed symbol has its best
    result stored. *)
Theorem every_symbol_recorded_once cs :
  completed_symbols (process_completed cs idle)
  ++ failed_symbols (process_completed cs idle)
  ≡ₚ symbol <$> cs
  /\ length (printed (process_completed cs idle)) = length cs
  /\ completed_have_results (process_completed cs idle).
Proof.
  destruct (process_completed_accounts cs idle) as (Hp & Hl & Hr & _).
  - done.
  - intros sym Hsym. by apply not_elem_of_nil in Hsym.
  - split; [exact Hp |]. split; [exact Hl | exact Hr].
Qed.

(** Once the run is stopped nothing more is recorded. *)
Lemma process_completed_stopped cs s :
  is_running s = false -> process_completed cs s = s.
Proof. intros H. destruct cs; simpl; [done | by rewrite H]. Qed.

Lemma insert_by_score_perm x l : insert_by_score x l ≡ₚ x :: l.
Proof.
  induction l as [| y l IH]; simpl; [done |].
  destruct (Qltb (score x) (score y)); [| done].
  rewrite IH. apply Permutation_swap.
Qed.

Lemma sort_by_score_perm l : sort_by_score l ≡ₚ l.
Proof.
  induction l as [| x l IH]; simpl; [done |].
  by rewrite insert_by_score_perm, IH.
Qed.

Lemma insert_by_score_descending x l :
  descending l -> descending (insert_by_score x l).
Proof.
  unfold descending. induction 1 as [| y l Hl IH Hy]; simpl.
  - repeat constructor.
  - destruct (Qltb (score x) (score y)) eqn:E.
    + apply Qltb_lt in E. constructor; [done |].
      rewrite insert_by_score_perm. constructor; [lra | done].
    + apply Qltb_ge in E. constructor; [by constructor |].
      constructor; [done |].
      eapply Forall_impl; [exact Hy |]. intros z Hz. simpl in Hz. lra.
Qed.

Lemma sort_by_score_descending l : descending (sort_by_score l).
Proof.
  induction l as [| x l IH]; simpl; [constructor |].
  by apply insert_by_score_descending.
Qed.

Lemma elem_of_omap_id (finished : list (option opt_result)) r :
  r ∈ omap id finished <-> Some r ∈ finished.
Proof.
  rewrite list_elem_of_omap. split.
  - intros (o & Ho & Hr). simpl in Hr. by subst o.
  - intros H. by exists (Some r).
Qed.

(** X18: the ranked results of a symbol are the successful backtests in
    descending order of score; the symbol's optimization fails exactly
    when its data frame is empty or no backtest succeeded, and otherwise
    hands on a successful result whose score no other one exceeds. *)
Theorem best_result_has_top_score df_empty finished :
  _optimize_single_symbol finished ≡ₚ omap id finished
  /\ descending (_optimize_single_symbol finished)
  /\ (_optimize_symbol_with_tracking df_empty finished = (false, None)
      <-> df_empty = true \/ forall o, o ∈ finished -> o = None)
  /\ forall success best,
      _optimize_symbol_with_tracking df_empty finished
      = (success, Some best) ->
      success = true /\ Some best ∈ finished
      /\ forall r, Some r ∈ finished -> score r <= score best.
Proof.
  pose proof (sort_by_score_perm (omap id finished)) as Hperm.
  pose proof (sort_by_score_descending (omap id finished)) as Hdesc.
  unfold _optimize_symbol_with_tracking, _optimize_single_symbol in *.
  split; [done |]. split; [done |].
  destruct (sort_by_score (omap id finished)) as [| best rest] eqn:Hs.
  - apply Permutation_nil in Hperm. split.
    + split; [| by destruct df_empty].
      intros _. destruct df_empty; [by left | right].
      intros [r |] Ho; [| done].
      apply elem_of_omap_id in Ho. rewrite Hperm in Ho.
      by apply not_elem_of_nil in Ho.
    + intros success b H. by destruct df_empty.
  - split.
    + split.
      * destruct df_empty; [by left | done].
      * intros [-> | Hnone]; [done |]. exfalso.
        assert (best ∈ omap id finished) as Hb
          by (rewrite <- Hperm; apply list_elem_of_here).
        apply elem_of_omap_id in Hb. by apply Hnone in Hb.
    + intros success b H. destruct df_empty; [done |].
      injection H as <- <-. split; [done |].
      assert (forall r, Some r ∈ finished <-> r ∈ best :: rest) as Hin.
      { intros r. by rewrite <- elem_of_omap_id, <- Hperm. }
      split; [apply Hin, list_elem_of_here |].
      intros r Hr. apply Hin in Hr.
      apply StronglySorted_inv in Hdesc as [_ Hall].
      apply elem_of_cons in Hr as [-> | Hr]; [lra |].
      rewrite Forall_forall in Hall. by apply Hall.
Qed.

(** X19: with non-negative counters the overall progress reported by
    [get_status] lies between 0 and 100, and it is 100 as soon as the
    completed symbols reach the (positive) total, whatever the progress
    within the current symbol. *)
Theorem overall_progress_bounds total_symbols completed progress
  total_combinations :
  (0 <= completed)%Z -> (0 <= progress)%Z ->
  (0 <= overall_progress total_symbols completed progress
          total_combinations
   /\ overall_progress total_symbols completed progress total_combinations
      <= 100)
  /\ ((0 < total_symbols)%Z -> (total_symbols <= completed)%Z ->
      overall_progress total_symbols completed progress total_combinations
      == 100).
Proof.
  intros Hc Hp. unfold overall_progress.
  destruct (Z.ltb_spec 0 total_symbols) as [Hts | Hts].
  2: { change (round2 0) with (0 / 100).
       split; [split; qlra | lia]. }
  set (ts := inject_Z total_symbols). set (c := inject_Z completed).
  set (p := inject_Z progress). set (tc := inject_Z total_combinations).
  assert (0 < ts) as Hts'.
  { unfold ts. change 0 with (inject_Z 0). by rewrite <- Zlt_Qlt. }
  assert (0 <= c) as Hc'.
  { unfold c. change 0 with (inject_Z 0). by rewrite <- Zle_Qle. }
  assert (0 <= p) as Hp'.
  { unfold p. change 0 with (inject_Z 0). by rewrite <- Zle_Qle. }
  set (contribution :=
         if (0 <? total_combinations)%Z then p / tc * 100 / ts else 0).
  assert (0 <= contribution) as Hcontr.
  { unfold contribution.
    destruct (Z.ltb_spec 0 total_combinations) as [Htc |]; [| lra].
    assert (0 < tc).
    { unfold tc. change 0 with (inject_Z 0). by rewrite <- Zlt_Qlt. }
    apply Qle_shift_div_l; [done |].
    assert (0 <= p / tc) by (apply Qle_shift_div_l; [done | lra]). lra. }
  assert (0 <= c / ts) as Hratio by (apply Qle_shift_div_l; [done | lra]).
  set (x := c / ts * 100 + contribution).
  assert (0 <= x) as Hx by (unfold x; lra).
  split.
  - destruct (ScoreFacts.round2_between 0 10000 (min x 100)) as [Hl Hu].
    + change (inject_Z 0) with 0.
      destruct (min_cases x 100) as [[_ ->] | [_ ->]]; lra.
    + pose proof (min_le_r x 100). change (inject_Z 10000) with 10000. lra.
    + change (inject_Z 0) with 0 in Hl.
      change (inject_Z 10000) with 10000 in Hu. split; qlra.
  - intros _ Hall.
    assert (1 <= c / ts) as Hfull.
    { apply Qle_shift_div_l; [done |].
      unfold c, ts. rewrite Qmult_1_l. by rewrite <- Zle_Qle. }
    assert (min x 100 == 100) as Hmin.
    { destruct (min_cases x 100) as [[_ ->] | [Hle ->]]; [done |].
      unfold x in *. lra. }
    rewrite (ScoreFacts.round2_proper _ _ Hmin). by vm_compute.
Qed.

Lemma overall_progress_bounds_witness :
  (0 <= overall_progress 2 2 0 10 /\ overall_progress 2 2 0 10 <= 100)
  /\ overall_progress 2 2 0 10 == 100.
Proof.
  destruct (overall_progress_bounds 2 2 0 10) as [Hb Hfull]; [lia | lia |].
  split; [exact Hb | apply Hfull; lia].
Defined.

Lemma symbol_batches_partition_witness :
  exists total_batches batches,
    symbol_batches 1 ["BTCUSDT"; "ETHUSDT"; "SOLUSDT"]
    = Some (total_batches, batches)
    /\ concat batches = ["BTCUSDT"; "ETHUSDT"; "SOLUSDT"]
    /\ Z.of_nat (length batches) = total_batches
    /\ forall batch,
        batch ∈ batches ->
        batch <> [] /\ (Z.of_nat (length batch) <= Z.min (1 * 2) 20)%Z.
Proof.
  apply (symbol_batches_partition 1 ["BTCUSDT"; "ETHUSDT"; "SOLUSDT"]). lia.
Defined.

End SchedulingFacts.

(** ** The settings store *)

Module SettingsFacts.
Import CoinSettingsManager.

Lemma load_after_save symbol s now file_ok store :
  load_coin_settings symbol
    (save_coin_settings symbol s now file_ok store).2
  = {| strategy := strategy s; tp_sl := tp_sl s;
       optimization_score := optimization_score s;
       optimization_date := optimization_date s; stats := stats s;
       last_updated := Some now; settings_symbol := Some symbol |}.
Proof.
  unfold load_coin_settings, save_coin_settings. simpl.
  by rewrite lookup_insert_eq.
Qed.

Lemma load_other_after_save symbol other s now file_ok store :
  other <> symbol ->
  load_coin_settings other
    (save_coin_settings symbol s now file_ok store).2
  = load_coin_settings other store.
Proof.
  intros Hne. unfold load_coin_settings, save_coin_settings. simpl.
  by rewrite lookup_insert_ne.
Qed.

(** X20: saving an optimization result and loading the symbol again
    gives the result's parameters and score with the fixed [max_tps = 10]
    and [tp_close = 25], stamped with the symbol and the time; this holds
    even when the file cannot be written and the save reports failure,
    because the in-memory settings are replaced first.  The settings of
    every other symbol are unchanged. *)
Theorem saved_result_is_loaded symbol r now file_ok store :
  let saved := save_optimization_result symbol (Some r) now file_ok store in
  let loaded := load_coin_settings symbol saved.2 in
  saved.1 = file_ok
  /\ strategy loaded
     = {| macd_fast := ParameterGenerator.c_macd_fast (parameters r);
          macd_slow := ParameterGenerator.c_macd_slow (parameters r);
          macd_signal := ParameterGenerator.c_macd_signal (parameters r);
          sma_length := ParameterGenerator.c_sma_length (parameters r) |}
  /\ tp_sl loaded
     = {| tp_base := ParameterGenerator.c_tp_base (parameters r);
          stop_loss := ParameterGenerator.c_stop_loss (parameters r);
          max_tps := 10; tp_close := 25 |}
  /\ optimization_score loaded = score r
  /\ optimization_date loaded = Some now
  /\ last_updated loaded = Some now
  /\ settings_symbol loaded = Some symbol
  /\ forall other,
      other <> symbol ->
      load_coin_settings other saved.2 = load_coin_settings other store.
Proof.
  intros saved loaded. subst saved loaded.
  unfold save_optimization_result. rewrite load_after_save.
  split_and!; try done.
  intros other Hne. by apply load_other_after_save.
Qed.

(** A missing or empty result is not saved. *)
Lemma empty_result_not_saved symbol now file_ok store :
  save_optimization_result symbol None now file_ok store = (false, store).
Proof. done. Qed.

Lemma filter_unoptimized_elem symbols store sym :
  sym ∈ _filter_unoptimized_symbols symbols store
  <-> optimization_score (load_coin_settings sym store) <= 0
      /\ sym ∈ symbols.
Proof.
  unfold _filter_unoptimized_symbols.
  rewrite list_elem_of_filter, Qle_bool_iff. done.
Qed.

(** X21: once a result with a positive score is saved for a symbol,
    [_filter_unoptimized_symbols] drops exactly that symbol from its
    previous answer, also when the save reported failure (the symbol was
    then counted as failed), while a saved score that is not positive
    leaves the symbol in the list. *)
Theorem saved_symbol_is_skipped symbols symbol r now file_ok store :
  let store' :=
    (save_optimization_result symbol (Some r) now file_ok store).2 in
  (0 < score r ->
   _filter_unoptimized_symbols symbols store'
   = filter (fun sym => sym <> symbol)
       (_filter_unoptimized_symbols symbols store))
  /\ (score r <= 0 ->
      forall sym,
        sym ∈ _filter_unoptimized_symbols symbols store'
        <-> sym = symbol /\ sym ∈ symbols
            \/ sym ∈ _filter_unoptimized_symbols symbols store).
Proof.
  intros store'. subst store'. unfold save_optimization_result.
  set (saved := save_coin_settings symbol (settings_of_result r now) now
                  file_ok store).
  assert (optimization_score (load_coin_settings symbol saved.2) = score r)
    as Hscore by (unfold saved; by rewrite load_after_save).
  assert (forall other, other <> symbol ->
            load_coin_settings other saved.2
            = load_coin_settings other store) as Hother.
  { intros other Hne. unfold saved. by apply load_other_after_save. }
  split.
  - intros Hpos. unfold _filter_unoptimized_symbols.
    induction symbols as [| sym symbols IH]; [done |].
    rewrite !filter_cons, IH.
    destruct (decide (sym = symbol)) as [-> | Hne].
    + rewrite Hscore.
      rewrite decide_False by (rewrite Qle_bool_iff; lra).
      destruct (decide (Qle_bool
                          (optimization_score
                             (load_coin_settings symbol store)) 0 = true));
        [| done].
      rewrite filter_cons. by rewrite decide_False by (by intros H; apply H).
    + rewrite (Hother sym Hne).
      destruct (decide (Qle_bool
                          (optimization_score
                             (load_coin_settings sym store)) 0 = true));
        [| done].
      rewrite filter_cons. by rewrite decide_True.
  - intros Hneg sym. rewrite !filter_unoptimized_elem.
    destruct (decide (sym = symbol)) as [-> | Hne].
    + rewrite Hscore. tauto.
    + rewrite (Hother sym Hne). tauto.
Qed.

(** X22: after [delete_coin_settings] the symbol loads the default
    settings again and is selected by [_filter_unoptimized_symbols],
    whether or not the file could be written; the call answers [True]
    only for a symbol that had settings, and the settings of every other
    symbol are unchanged. *)
Theorem deleted_symbol_is_unoptimized symbols symbol file_ok store :
  let deleted := delete_coin_settings symbol file_ok store in
  load_coin_settings symbol deleted.2 = get_default_settings
  /\ (symbol ∈ symbols ->
      symbol ∈ _filter_unoptimized_symbols symbols deleted.2)
  /\ (deleted.1 = true -> file_ok = true /\ is_Some (store !! symbol))
  /\ forall other,
      other <> symbol ->
      load_coin_settings other deleted.2 = load_coin_settings other store.
Proof.
  intros deleted. subst deleted.
  assert (load_coin_settings symbol
            (delete_coin_settings symbol file_ok store).2
          = get_default_settings) as Hload.
  { unfold delete_coin_settings, load_coin_settings.
    destruct (store !! symbol) eqn:E; simpl.
    - by rewrite lookup_delete_eq.
    - by rewrite E. }
  split_and!.
  - done.
  - intros Hin. apply filter_unoptimized_elem. rewrite Hload.
    split; [by vm_compute | done].
  - unfold delete_coin_settings.
    destruct (store !! symbol); simpl; [eauto | done].
  - intros other Hne. unfold delete_coin_settings, load_coin_settings.
    destruct (store !! symbol); simpl; [| done].
    by rewrite lookup_delete_ne.
Qed.

End SettingsFacts.

(** ** The time estimate *)

Module EstimateFacts.
Import Py PyFacts ParameterGenerator.

Lemma Qfloor_unique x z :
  inject_Z z <= x -> x < inject_Z (z + 1) -> Qfloor x = z.
Proof.
  intros Hlo Hhi.
  pose proof (Qfloor_le x) as Hl. pose proof (Qlt_floor x) as Hh.
  assert (inject_Z z < inject_Z (Qfloor x + 1)) as H1 by lra.
  assert (inject_Z (Qfloor x) < inject_Z (z + 1)) as H2 by lra.
  rewrite <- Zlt_Qlt in H1, H2. lia.
Qed.

(** The floor of [x / n] is the integer quotient of the floor of [x]. *)
Lemma Qfloor_div_pos x (n : Z) :
  (0 < n)%Z -> Qfloor (x / inject_Z n) = (Qfloor x / n)%Z.
Proof.
  intros Hn.
  pose proof (Qfloor_le x) as Hl. pose proof (Qlt_floor x) as Hh.
  pose proof (Z.div_mod (Qfloor x) n ltac:(lia)) as Hdm.
  pose proof (Z.mod_pos_bound (Qfloor x) n Hn) as Hrem.
  set (F := Qfloor x) in *. set (q := (F / n)%Z) in *.
  set (r := (F mod n)%Z) in *.
  assert (0 < inject_Z n) as Hn'.
  { change 0 with (inject_Z 0). by rewrite <- Zlt_Qlt. }
  assert (inject_Z (n * q) <= x) as Hlo.
  { assert (n * q <= F)%Z as H by lia. rewrite Zle_Qle in H. lra. }
  assert (x < inject_Z (n * q + n)) as Hhi.
  { assert (F + 1 <= n * q + n)%Z as H by lia. rewrite Zle_Qle in H. lra. }
  rewrite inject_Z_plus in Hhi. rewrite inject_Z_mult in Hlo, Hhi.
  apply Qfloor_unique.
  - apply Qle_shift_div_l; [done |]. lra.
  - apply Qlt_shift_div_r; [done |].
    rewrite inject_Z_plus. change (inject_Z 1) with 1. lra.
Qed.

Lemma Qfloor_sub_Z x (k : Z) : Qfloor (x - inject_Z k) = (Qfloor x - k)%Z.
Proof.
  pose proof (Qfloor_le x) as Hl. pose proof (Qlt_floor x) as Hh.
  rewrite inject_Z_plus in Hh. change (inject_Z 1) with 1 in Hh.
  apply Qfloor_unique.
  - unfold Z.sub. rewrite inject_Z_plus, inject_Z_opp. lra.
  - rewrite inject_Z_plus. unfold Z.sub.
    rewrite inject_Z_plus, inject_Z_opp. change (inject_Z 1) with 1. lra.
Qed.

Lemma Qfloor_proper x y : x == y -> Qfloor x = Qfloor y.
Proof.
  intros H. apply Z.le_antisymm; apply Qfloor_resp_le; lra.
Qed.

(** [int] of a number that is not negative is its floor. *)
Lemma py_int_nonneg x : 0 <= x -> py_int x = Qfloor x.
Proof.
  intros H. destruct x as [n d]. unfold py_int, Qfloor. simpl.
  apply Z.quot_div_nonneg; [| lia].
  unfold Qle in H. simpl in H. lia.
Qed.

Lemma py_int_inject_Z z : py_int (inject_Z z) = z.
Proof. unfold py_int. simpl. apply Z.quot_1_r. Qed.

(** The split of a duration that is not negative into hours, minutes
    and seconds adds up to its whole seconds. *)
Lemma time_split x :
  0 <= x ->
  let h := py_int (floordiv x 3600) in
  let m := py_int (floordiv (pymod x 3600) 60) in
  let s := py_int (pymod x 60) in
  (h * 3600 + m * 60 + s = py_int x)%Z
  /\ (0 <= h)%Z /\ (0 <= m < 60)%Z /\ (0 <= s < 60)%Z.
Proof.
  intros Hx. cbv zeta. unfold floordiv, pymod.
  rewrite !py_int_inject_Z.
  change 3600 with (inject_Z 3600). change 60 with (inject_Z 60).
  rewrite !Qfloor_div_pos by lia.
  set (F := Qfloor x).
  assert (0 <= F)%Z as HF.
  { unfold F. rewrite <- (Qfloor_Z 0). by apply Qfloor_resp_le. }
  assert (Qfloor (x - inject_Z 3600 * inject_Z (F / 3600))
          = (F - 3600 * (F / 3600))%Z) as H1.
  { rewrite <- inject_Z_mult. by rewrite Qfloor_sub_Z. }
  assert (Qfloor (x - inject_Z 60 * inject_Z (F / 60))
          = (F - 60 * (F / 60))%Z) as H2.
  { rewrite <- inject_Z_mult. by rewrite Qfloor_sub_Z. }
  rewrite H1.
  assert (0 <= x - inject_Z 60 * inject_Z (F / 60)) as Hs.
  { rewrite <- inject_Z_mult.
    assert (60 * (F / 60) <= F)%Z as H
      by (apply Z.mul_div_le; lia).
    rewrite Zle_Qle in H. pose proof (Qfloor_le x). fold F in H0. lra. }
  rewrite (py_int_nonneg _ Hs), H2, (py_int_nonneg _ Hx). fold F.
  pose proof (Z.div_mod F 3600 ltac:(lia)).
  pose proof (Z.mod_pos_bound F 3600 ltac:(lia)).
  pose proof (Z.div_mod F 60 ltac:(lia)).
  pose proof (Z.mod_pos_bound F 60 ltac:(lia)).
  assert (0 <= F / 3600)%Z by (apply Z.div_pos; lia).
  assert ((F - 3600 * (F / 3600)) / 60 = F / 60 - 60 * (F / 3600))%Z as Hm.
  { replace (F - 3600 * (F / 3600))%Z
      with (F + (- (60 * (F / 3600))) * 60)%Z by lia.
    rewrite Z.div_add by lia. lia. }
  rewrite Hm.
  assert (0 <= (F - 3600 * (F / 3600)) / 60 < 60)%Z as Hmb.
  { split; [apply Z.div_pos; lia |].
    apply Z.div_lt_upper_bound; lia. }
  rewrite Hm in Hmb. lia.
Qed.

(** X23: with a positive number of workers and a count of combinations
    that is not negative, [get_optimization_queue_estimate] returns an
    estimate for [len(symbols) x combinations] backtests whose hours,
    minutes and seconds add up to its [total_seconds], with minutes and
    seconds below 60, and whose preview holds the first ten symbols. *)
Theorem estimate_time_adds_up symbols op per_symbol :
  combinations_per_symbol op = Some per_symbol ->
  (0 <= per_symbol)%Z ->
  (0 < default 4 (op_max_workers op))%Z ->
  exists e,
    get_optimization_queue_estimate symbols op = Estimate e
    /\ est_total_combinations e
       = (Z.of_nat (length symbols) * per_symbol)%Z
    /\ (hours (estimated_time e) * 3600
        + minutes (estimated_time e) * 60
        + seconds (estimated_time e)
        = total_seconds (estimated_time e))%Z
    /\ (0 <= hours (estimated_time e))%Z
    /\ (0 <= minutes (estimated_time e) < 60)%Z
    /\ (0 <= seconds (estimated_time e) < 60)%Z
    /\ symbols_preview e = take 10 symbols.
Proof.
  intros Hper Hnonneg Hworkers. unfold get_optimization_queue_estimate.
  rewrite Hper.
  set (w := default 4%Z (op_max_workers op)) in *.
  set (total := (Z.of_nat (length symbols) * per_symbol)%Z).
  assert (0 < inject_Z w) as Hw.
  { change 0 with (inject_Z 0). by rewrite <- Zlt_Qlt. }
  rewrite pdiv_Some by lra.
  assert (0 <= inject_Z total * 0.1 / inject_Z w) as Hx.
  { apply Qle_shift_div_l; [done |].
    assert (0 <= total)%Z as H by (unfold total; lia).
    rewrite Zle_Qle in H. change (inject_Z 0) with 0 in H. lra. }
  destruct (time_split _ Hx) as (Hsum & Hh & Hm & Hs).
  eexists. split; [done |]. simpl. split_and!; try done; lia.
Qed.

Lemma estimate_time_adds_up_witness :
  exists e,
    get_optimization_queue_estimate ["BTCUSDT"; "ETHUSDT"]
      {| op_param_ranges := None; op_max_workers := None;
         op_combinations_count := Some 75000%Z |}
    = Estimate e
    /\ est_total_combinations e
       = (Z.of_nat (length ["BTCUSDT"; "ETHUSDT"]) * 75000)%Z
    /\ (hours (estimated_time e) * 3600
        + minutes (estimated_time e) * 60
        + seconds (estimated_time e)
        = total_seconds (estimated_time e))%Z
    /\ (0 <= hours (estimated_time e))%Z
    /\ (0 <= minutes (estimated_time e) < 60)%Z
    /\ (0 <= seconds (estimated_time e) < 60)%Z
    /\ symbols_preview e = take 10 ["BTCUSDT"; "ETHUSDT"].
Proof.
  apply (estimate_time_adds_up ["BTCUSDT"; "ETHUSDT"]
           {| op_param_ranges := None; op_max_workers := None;
              op_combinations_count := Some 75000%Z |} 75000%Z).
  - reflexivity.
  - lia.
  - simpl. lia.
Defined.

(** A pool of no workers, or ranges that cannot be generated, give the
    error dictionary. *)
Lemma estimate_errors symbols op :
  op_max_workers op = Some 0%Z \/ combinations_per_symbol op = None ->
  get_optimization_queue_estimate symbols op
  = EstimateError (Z.of_nat (length symbols)).
Proof.
  unfold get_optimization_queue_estimate. intros [H | H]; rewrite H.
  - simpl. by destruct (combinations_per_symbol op).
  - done.
Qed.

End EstimateFacts.

(** ** Fetching with retries *)

Module FetchFacts.
Import PerCoinFetch.

Section Retry.
Context {df : Type}.
Variable get_market_data : nat -> option df.

Lemma attempts_outcome (n : nat) fuel attempt slept0 :
  (attempt + S fuel = n)%nat ->
  (forall j, (j < attempt)%nat -> get_market_data j = None) ->
  slept0 + 0.5 * inject_Z (Z.of_nat attempt) == slept_after attempt ->
  let run :=
    attempts get_market_data (Z.of_nat n) (S fuel) attempt attempt
      slept0 in
  match result run with
  | Fetched data =>
      exists k,
        (k < n)%nat /\ get_market_data k = Some data
        /\ (forall j, (j < k)%nat -> get_market_data j = None)
        /\ calls run = S k /\ slept run == slept_after k
  | FetchRaised =>
      (forall j, (j < n)%nat -> get_market_data j = None)
      /\ calls run = n
      /\ slept run == slept_after (n - 1)
  | FetchedNone => False
  end.
Proof.
  unfold slept_after. revert attempt slept0.
  induction fuel as [| fuel IH]; intros attempt slept0 Hn Hprev Hslept.
  - cbn [attempts].
    destruct (get_market_data attempt) as [data |] eqn:Hget; cbn.
    + exists attempt. split_and!; try done. lia.
    + replace (Z.of_nat attempt =? Z.of_nat n - 1)%Z with true
        by (symmetry; apply Z.eqb_eq; lia).
      cbn. replace (n - 1)%nat with attempt by lia.
      split_and!; try done; [| lia].
      intros j Hj. destruct (decide (j = attempt)) as [-> | Hne];
        [done | apply Hprev; lia].
  - cbn [attempts].
    destruct (get_market_data attempt) as [data |] eqn:Hget.
    + cbn. exists attempt. split_and!; try done. lia.
    + replace (Z.of_nat attempt =? Z.of_nat n - 1)%Z with false
        by (symmetry; apply Z.eqb_neq; lia).
      apply IH.
      * lia.
      * intros j Hj. destruct (decide (j = attempt)) as [-> | Hne];
          [done | apply Hprev; lia].
      * rewrite Nat2Z.inj_succ, <- Z.add_1_r, inject_Z_plus.
        rewrite Qpower_plus by done.
        change (inject_Z 1) with 1. change (2 ^ 1) with 2.
        set (t := inject_Z (Z.of_nat attempt)) in *.
        set (p := 2 ^ Z.of_nat attempt) in *. lra.
Qed.

(** X24: [_fetch_single_symbol_data_with_retry] calls
    [get_market_data] until the first attempt that gives data and
    returns that data; it raises exactly when all [max_retries]
    attempts fail, after [max_retries] calls; it returns [None] only
    for [max_retries <= 0], without any call.  When attempt [k] ends
    the call it has slept [0.25 k (k + 1) + 2 ^ k - 1] seconds (4.5
    seconds before the error of the third attempt). *)
Theorem fetch_retries_until_data max_retries :
  let run :=
    _fetch_single_symbol_data_with_retry get_market_data max_retries in
  match result run with
  | Fetched data =>
      exists k,
        (Z.of_nat k < max_retries)%Z /\ get_market_data k = Some data
        /\ (forall j, (j < k)%nat -> get_market_data j = None)
        /\ calls run = S k /\ slept run == slept_after k
  | FetchRaised =>
      (0 < max_retries)%Z
      /\ (forall j, (Z.of_nat j < max_retries)%Z ->
                    get_market_data j = None)
      /\ Z.of_nat (calls run) = max_retries
      /\ slept run == slept_after (Z.to_nat max_retries - 1)
  | FetchedNone =>
      (max_retries <= 0)%Z /\ calls run = 0%nat /\ slept run = 0
  end.
Proof.
  unfold _fetch_single_symbol_data_with_retry.
  destruct (Z.to_nat max_retries) as [| fuel] eqn:Hfuel.
  - cbn. split_and!; try done. lia.
  - pose proof (attempts_outcome (S fuel) fuel 0 0) as H.
    replace (Z.of_nat (S fuel)) with max_retries in H by lia.
    cbv zeta in *.
    destruct (result (attempts get_market_data max_retries (S fuel) 0 0 0))
      as [data | |].
    + destruct H as (k & Hk & Hdata & Hnone & Hcalls & Hslept);
        [lia | intros; lia | by vm_compute |].
      exists k. split_and!; try done. lia.
    + destruct H as (Hnone & Hcalls & Hslept);
        [lia | intros; lia | by vm_compute |].
      split_and!; try done; try lia.
      intros j Hj. apply Hnone. lia.
    + destruct H; [lia | intros; lia | by vm_compute].
Qed.

End Retry.

End FetchFacts.
